(** * dpharmd: a remote test trigger (edaniels/dpharmd)

    A shallow embedding of the two source variants of the server,
    [src/main.go] (Android only) and [src/unnamed/part_000] (Android and
    iOS), and theorems about their request handling.

    The handlers are written once, as programs over the effects they
    perform (response writes, file system calls, subprocesses, the mutex,
    the random source).  Two semantics interpret these programs: [run]
    executes one handler against a world (file system, working directory,
    response, event trace), and [cstep] interleaves the handlers of several
    in-flight requests over one shared world and one mutex. *)

From Stdlib Require Import ZArith String Ascii List Lia.
From stdpp Require Import gmap strings list.

Local Open Scope string_scope.
Local Open Scope Z_scope.
Local Open Scope list_scope.

(** ** Go values used by the server *)

(** The line feed byte, Go's ["\n"]. *)
Definition nl : string := String (ascii_of_nat 10) EmptyString.

(** [syscall.Errno] values the model distinguishes, with their texts. *)
Inductive Errno : Type :=
| EEXIST | ENOENT | ENOTDIR | ENOTEMPTY | EACCES | ENOSPC | EIO.

Definition Errno_Error (e : Errno) : string :=
  match e with
  | EEXIST => "file exists"
  | ENOENT => "no such file or directory"
  | ENOTDIR => "not a directory"
  | ENOTEMPTY => "directory not empty"
  | EACCES => "permission denied"
  | ENOSPC => "no space left on device"
  | EIO => "input/output error"
  end.

(** Go [error] values: [*os.PathError], [os.ErrInvalid], and every other
    error (exit statuses of subprocesses, query escape errors, body read
    errors) by its text. *)
Inductive error : Type :=
| PathError (Op Path : string) (Err : Errno)
| ErrInvalid
| errorString (s : string).

(** [err.Error()] *)
Definition Error (e : error) : string :=
  match e with
  | PathError op path en => op +:+ " " +:+ path +:+ ": " +:+ Errno_Error en
  | ErrInvalid => "invalid argument"
  | errorString s => s
  end.

(** [os.IsExist(err)]: false on [nil], true on EEXIST and ENOTEMPTY. *)
Definition IsExist (err : option error) : bool :=
  match err with
  | Some (PathError _ _ EEXIST) | Some (PathError _ _ ENOTEMPTY) => true
  | _ => false
  end.

(** [url.Values] and [http.Header] are both [map[string][]string]; their
    [Get] returns the first value of the key, or the empty string. *)
Definition Get (v : gmap string (list string)) (key : string) : string :=
  match v !! key with
  | Some (x :: _) => x
  | _ => EmptyString
  end.

(** [strings.Split(s, sep)] for a one-byte separator: all the substrings
    between separators, empty ones included; never an empty list. *)
Fixpoint Split (s : string) (sep : ascii) : list string :=
  match s with
  | EmptyString => [EmptyString]
  | String c s' =>
      if Ascii.eqb c sep then EmptyString :: Split s' sep
      else match Split s' sep with
           | seg :: rest => String c seg :: rest
           | [] => [String c EmptyString]
           end
  end.

(** The separator of [test_schemes]. *)
Definition comma : ascii := ascii_of_nat 44.

(** [strings.Join(l, sep)] *)
Fixpoint Join_str (l : list string) (sep : string) : string :=
  match l with
  | [] => EmptyString
  | [x] => x
  | x :: rest => x +:+ sep +:+ Join_str rest sep
  end.

(** *** Paths ([path/filepath] on Unix) *)

Definition slash : ascii := ascii_of_nat 47.

Definition IsAbs (p : string) : bool :=
  match p with
  | String c _ => Ascii.eqb c slash
  | EmptyString => false
  end.

(** One lexical step of [filepath.Clean]: [stack] holds the elements kept
    so far, innermost first. *)
Definition cleanStep (rooted : bool) (stack : list string) (elem : string)
  : list string :=
  if String.eqb elem EmptyString then stack
  else if String.eqb elem "." then stack
  else if String.eqb elem ".." then
    match stack with
    | top :: below =>
        if String.eqb top ".." then elem :: stack else below
    | [] => if rooted then [] else [elem]
    end
  else elem :: stack.

(** [filepath.Clean(p)] *)
Definition Clean (p : string) : string :=
  let rooted := IsAbs p in
  let elems := rev (fold_left (cleanStep rooted) (Split p slash) []) in
  if rooted then String slash (Join_str elems "/")
  else match elems with
       | [] => "."
       | _ => Join_str elems "/"
       end.

(** [filepath.Join(elem...)]: empty elements are ignored, the result is
    cleaned; all elements empty gives the empty string. *)
Definition Join (elem : list string) : string :=
  match filter (fun e => e ≠ EmptyString) elem with
  | [] => EmptyString
  | es => Clean (Join_str es "/")
  end.

(** How the kernel resolves a path name against the working directory
    (no symbolic links in this model): a location is the list of
    directory entries from the root. *)
Definition walkStep (at_ : list string) (elem : string) : list string :=
  if String.eqb elem EmptyString then at_
  else if String.eqb elem "." then at_
  else if String.eqb elem ".." then removelast at_
  else at_ ++ [elem].

Definition resolve (cwd : list string) (p : string) : list string :=
  fold_left walkStep (Split p slash) (if IsAbs p then [] else cwd).

(** *** Files *)

(** An open [*os.File]: the name it was opened under and the place it
    resolved to.  A nil [*os.File] is [None]. *)
Record File : Type := mkFile { Name : string; location : list string }.

(** *** Requests *)

(** [r.Body]: the chunks successive reads deliver, then [io.EOF]
    ([None]) or a read error. *)
Record Body : Type := mkBody { chunks : list string; readErr : option error }.

(** The parts of [*http.Request] the handlers read. *)
Record Request : Type := mkRequest {
  Header : gmap string (list string);
  RawQuery : string;
  body : Body
}.

(** Status codes of [net/http]. *)
Definition StatusOK : Z := 200.
Definition StatusBadRequest : Z := 400.
Definition StatusUnauthorized : Z := 401.
Definition StatusInternalServerError : Z := 500.

(** ** Programs over effects *)

(** The effects a handler performs, indexed by what each call returns. *)
Inductive eff : Type -> Type :=
(* http.ResponseWriter *)
| WriteHeader (code : Z) : eff unit
| Write (b : string) : eff unit
(* net/url *)
| ParseQuery (raw : string) : eff (gmap string (list string) * option error)
(* os *)
| TempDir : eff string
| Chdir (dir : string) : eff (option error)
| Mkdir (name : string) : eff (option error)
| OpenFile (name : string) : eff (option File * option error)
| FileWrite (f : File) (b : string) : eff (option error)
| FileClose (f : File) : eff (option error)
| Remove (name : string) : eff (option error)
| RemoveAll (path : string) : eff (option error)
(* crypto/rand: rand.Int(rand.Reader, max) *)
| RandInt (max : Z) : eff (Z + error)
(* os/exec: exec.Command(name, arg...).CombinedOutput() *)
| CombinedOutput (name : string) (arg : list string) : eff (string * option error)
(* sync.Mutex testMu *)
| Lock : eff unit
| Unlock : eff unit
(* log *)
| Log (msg : string) : eff unit.

(** A handler run: returns, panics, or performs an effect and goes on
    with its answer. *)
Inductive prog (A : Type) : Type :=
| Ret (a : A)
| Panic (v : string)
| Vis {X : Type} (e : eff X) (k : X -> prog A).

Arguments Ret {A} a.
Arguments Panic {A} v.
Arguments Vis {A X} e k.

Fixpoint bind {A B : Type} (p : prog A) (f : A -> prog B) : prog B :=
  match p with
  | Ret a => f a
  | Panic v => Panic v
  | Vis e k => Vis e (fun x => bind (k x) f)
  end.

Definition perform {X : Type} (e : eff X) : prog X := Vis e Ret.

Declare Scope prog_scope.
Delimit Scope prog_scope with prog.
Notation "x <- p ;; q" := (bind p (fun x => q))
  (at level 100, p at next level, right associativity) : prog_scope.
Notation "p ;; q" := (bind p (fun _ => q))
  (at level 100, right associativity) : prog_scope.
Local Open Scope prog_scope.

(** Go's [defer d] in front of the rest [p] of a function body: [d] runs
    when [p] returns and when it panics (the panic then goes on). *)
Fixpoint defer {A : Type} (d : prog unit) (p : prog A) : prog A :=
  match p with
  | Ret a => d ;; Ret a
  | Panic v => d ;; Panic v
  | Vis e k => Vis e (fun x => defer d (k x))
  end.

(** Methods of [*os.File] on a possibly nil receiver.  [Name] reads a
    field, so a nil receiver is a nil pointer dereference; [Write] and
    [Close] check the receiver and return [os.ErrInvalid]. *)
Definition nilDeref : string :=
  "runtime error: invalid memory address or nil pointer dereference".

Definition File_Name (f : option File) : prog string :=
  match f with
  | Some f => Ret (Name f)
  | None => Panic nilDeref
  end.

Definition File_Write (f : option File) (b : string) : prog (option error) :=
  match f with
  | Some f => perform (FileWrite f b)
  | None => Ret (Some ErrInvalid)
  end.

Definition File_Close (f : option File) : prog (option error) :=
  match f with
  | Some f => perform (FileClose f)
  | None => Ret (Some ErrInvalid)
  end.

(** [ioutil.ReadAll(io.TeeReader(r.Body, f))]: every non-empty chunk read
    from the body is written to [f] before the next read; the first
    write or read error ends the copy and is returned. *)
Fixpoint teeChunks (cs : list string) (readErr : option error)
    (f : option File) : prog (option error) :=
  match cs with
  | [] => Ret readErr
  | c :: cs' =>
      if String.eqb c EmptyString then teeChunks cs' readErr f
      else
        werr <- File_Write f c ;;
        match werr with
        | Some e => Ret (Some e)
        | None => teeChunks cs' readErr f
        end
  end.

Definition ReadAll_TeeReader (b : Body) (f : option File) : prog (option error) :=
  teeChunks (chunks b) (readErr b) f.

(** ** The code common to both source variants
    ([src/main.go] lines 62-147, [src/unnamed/part_000] lines 63-116 and
    212-242) *)

Definition testTypeAndroid : string := "android".
Definition testTypeIOS : string := "ios".

Definition stringAlpha : list ascii := list_ascii_of_string "abcdefghijklmnopqrstuvwxyz".
Definition stringAlphaUpper : list ascii := list_ascii_of_string "ABCDEFGHIJKLMNOPQRSTUVWXYZ".
Definition stringNumeric : list ascii := list_ascii_of_string "1234567890".
Definition stringSpecial : list ascii := list_ascii_of_string "!@#$%^&*()_-".
Definition stringAlphaNumeric : list ascii :=
  (([] ++ stringAlpha) ++ stringAlphaUpper) ++ stringNumeric.

(** The loop of [randomStringFromAlphabet]: [n] iterations left, [buf]
    written so far. *)
Fixpoint randomLoop (alpha : list ascii) (n : nat) (buf : string) : prog string :=
  match n with
  | O => Ret buf
  | S n' =>
      r <- perform (RandInt (Z.of_nat (length alpha))) ;;
      match r with
      | inr err => Panic (Error err)
      | inl val =>
          if val <? 0 then Panic "runtime error: index out of range"
          else match alpha !! Z.to_nat val with
               | Some c => randomLoop alpha n' (buf +:+ String c EmptyString)
               | None => Panic "runtime error: index out of range"
               end
      end
  end.

Definition randomStringFromAlphabet (alpha : list ascii) (length : Z) : prog string :=
  randomLoop alpha (Z.to_nat length) EmptyString.

Definition RandomAlphaNumericString (length : Z) : prog string :=
  randomStringFromAlphabet stringAlphaNumeric length.

(** [err.Error()] on an [error] interface value, nil or not. *)
Definition Error_of (err : option error) : prog string :=
  match err with
  | Some e => Ret (Error e)
  | None => Panic nilDeref
  end.

(** [runAndroidTest]: the argument of [defer os.Remove(apkFile.Name())]
    is evaluated at the [defer] statement. *)
Definition runAndroidTest (r : Request) (query : gmap string (list string)) : prog unit :=
  let testPackage := Get query "test_package" in
  if String.eqb testPackage EmptyString then
    perform (WriteHeader StatusBadRequest) ;;
    perform (Write "must specify 'test_package'") ;;
    Ret tt
  else
    dir <- perform TempDir ;;
    suffix <- RandomAlphaNumericString 5 ;;
    let apkFileName := Join [dir; "test_" +:+ suffix +:+ ".apk"] in
    opened <- perform (OpenFile apkFileName) ;;
    let '(apkFile, err) := opened in
    if IsExist err then
      perform (WriteHeader StatusBadRequest) ;;
      msg <- Error_of err ;;
      perform (Write msg) ;;
      Ret tt
    else
      removed <- File_Name apkFile ;;
      defer (perform (Remove removed) ;; Ret tt) (
        rerr <- ReadAll_TeeReader (body r) apkFile ;;
        match rerr with
        | Some e =>
            perform (WriteHeader StatusBadRequest) ;;
            perform (Write (Error e)) ;;
            Ret tt
        | None =>
            File_Close apkFile ;;
            perform (Log ("android: Installing and running " +:+ testPackage)) ;;
            perform Lock ;;
            defer (perform Unlock) (
              installed <- File_Name apkFile ;;
              out <- perform (CombinedOutput "adb" ["install"; "-r"; installed]) ;;
              let '(result, err) := out in
              match err with
              | Some e =>
                  perform (WriteHeader StatusBadRequest) ;;
                  perform (Write (Error e)) ;;
                  perform (Write nl) ;;
                  perform (Write result) ;;
                  Ret tt
              | None =>
                  let testPackageWithRunner :=
                    testPackage +:+ "/android.support.test.runner.AndroidJUnitRunner" in
                  out <- perform (CombinedOutput "adb"
                        ["shell"; "am"; "instrument"; "-w"; testPackageWithRunner]) ;;
                  let '(result, err) := out in
                  match err with
                  | Some e =>
                      perform (WriteHeader StatusBadRequest) ;;
                      perform (Write (Error e)) ;;
                      perform (Write nl) ;;
                      perform (Write result) ;;
                      Ret tt
                  | None =>
                      perform (Write result) ;;
                      Ret tt
                  end
              end)
        end).

(** ** [src/main.go]: the Android-only variant *)
Module Main_go.
Section Handler.
(** [*secret], the value of the [-secret] flag. *)
Variable secret : string.

Definition handler (r : Request) : prog unit :=
  let auth := Get (Header r) "Authorization" in
  if negb (String.eqb auth secret) then
    perform (WriteHeader StatusUnauthorized) ;;
    Ret tt
  else
    parsed <- perform (ParseQuery (RawQuery r)) ;;
    let '(query, err) := parsed in
    match err with
    | Some e =>
        perform (WriteHeader StatusBadRequest) ;;
        perform (Write (Error e)) ;;
        Ret tt
    | None =>
        let test_type := Get query "test_type" in
        if String.eqb test_type testTypeAndroid then
          runAndroidTest r query
        else if String.eqb test_type testTypeIOS then
          perform (WriteHeader StatusInternalServerError) ;;
          Ret tt
        else
          perform (WriteHeader StatusBadRequest) ;;
          perform (Write "must specify 'test_type'") ;;
          Ret tt
    end.
End Handler.
End Main_go.

(** ** [src/unnamed/part_000]: the variant with the iOS runner *)
Module Part_000.
Section Handler.
Variable secret : string.
(** [strconv.Quote], which formats the [%q] verbs of the start line. *)
Variable Quote : string -> string.

(** One iteration of the scheme loop (lines 188-204); returns the new
    value of [testFailed]. *)
Definition testScheme (testDestination : string) (testFailed : bool)
    (scheme : string) : prog bool :=
  let testStartMsg :=
    "ios: Testing scheme " +:+ Quote scheme +:+ " on destination "
      +:+ Quote testDestination in
  perform (Log testStartMsg) ;;
  perform (Write testStartMsg) ;;
  perform (Write nl) ;;
  out <- perform (CombinedOutput "xcodebuild"
           ["test"; "-destination"; testDestination; "-scheme"; scheme]) ;;
  let '(result, err) := out in
  match err with
  | Some e =>
      perform (Write ("!!TEST FAILED!!" +:+ nl)) ;;
      perform (Write (Error e)) ;;
      perform (Write nl) ;;
      perform (Write result) ;;
      Ret true
  | None =>
      perform (Write ("!!TEST PASSED!!" +:+ nl)) ;;
      perform (Write result) ;;
      Ret testFailed
  end.

(** [for _, scheme := range testSchemes] *)
Fixpoint testLoop (testDestination : string) (testSchemes : list string)
    (testFailed : bool) : prog bool :=
  match testSchemes with
  | [] => Ret testFailed
  | scheme :: rest =>
      testFailed' <- testScheme testDestination testFailed scheme ;;
      testLoop testDestination rest testFailed'
  end.

Definition runIOSTest (r : Request) (query : gmap string (list string)) : prog unit :=
  let testDestination := Get query "test_destination" in
  if String.eqb testDestination EmptyString then
    perform (WriteHeader StatusBadRequest) ;;
    perform (Write "must specify 'test_destination'") ;;
    Ret tt
  else
    let testSchemesStr := Get query "test_schemes" in
    if String.eqb testSchemesStr EmptyString then
      perform (WriteHeader StatusBadRequest) ;;
      perform (Write "must specify 'test_schemes'") ;;
      Ret tt
    else
      let testSchemes := Split testSchemesStr comma in
      dir <- perform TempDir ;;
      cderr <- perform (Chdir dir) ;;
      match cderr with
      | Some e =>
          perform (WriteHeader StatusInternalServerError) ;;
          perform (Write (Error e)) ;;
          Ret tt
      | None =>
          sourceDir <- RandomAlphaNumericString 5 ;;
          mkerr <- perform (Mkdir sourceDir) ;;
          match mkerr with
          | Some e =>
              perform (WriteHeader StatusInternalServerError) ;;
              perform (Write (Error e)) ;;
              Ret tt
          | None =>
              defer (perform (RemoveAll sourceDir) ;; Ret tt) (
                cderr <- perform (Chdir (Join [dir; sourceDir])) ;;
                match cderr with
                | Some e =>
                    perform (WriteHeader StatusInternalServerError) ;;
                    perform (Write (Error e)) ;;
                    Ret tt
                | None =>
                    let sourceFileName := Join [dir; sourceDir; "source.tgz"] in
                    opened <- perform (OpenFile sourceFileName) ;;
                    let '(sourceFile, err) := opened in
                    if IsExist err then
                      perform (WriteHeader StatusBadRequest) ;;
                      msg <- Error_of err ;;
                      perform (Write msg) ;;
                      Ret tt
                    else
                      rerr <- ReadAll_TeeReader (body r) sourceFile ;;
                      match rerr with
                      | Some e =>
                          perform (WriteHeader StatusBadRequest) ;;
                          perform (Write (Error e)) ;;
                          Ret tt
                      | None =>
                          File_Close sourceFile ;;
                          perform (Log "ios: Unpacking source") ;;
                          unpacked <- File_Name sourceFile ;;
                          out <- perform (CombinedOutput "tar" ["xf"; unpacked]) ;;
                          let '(result, err) := out in
                          match err with
                          | Some e =>
                              perform (WriteHeader StatusBadRequest) ;;
                              perform (Write (Error e)) ;;
                              perform (Write nl) ;;
                              perform (Write result) ;;
                              Ret tt
                          | None =>
                              perform Lock ;;
                              defer (perform Unlock) (
                                testFailed <- testLoop testDestination testSchemes false ;;
                                if negb testFailed then
                                  perform (Write ("!!ALL TESTS PASSED!!" +:+ nl)) ;;
                                  Ret tt
                                else Ret tt)
                          end
                      end
                end)
          end
      end.

Definition handler (r : Request) : prog unit :=
  let auth := Get (Header r) "Authorization" in
  if negb (String.eqb auth secret) then
    perform (WriteHeader StatusUnauthorized) ;;
    Ret tt
  else
    parsed <- perform (ParseQuery (RawQuery r)) ;;
    let '(query, err) := parsed in
    match err with
    | Some e =>
        perform (WriteHeader StatusBadRequest) ;;
        perform (Write (Error e)) ;;
        Ret tt
    | None =>
        let test_type := Get query "test_type" in
        if String.eqb test_type testTypeAndroid then
          runAndroidTest r query
        else if String.eqb test_type testTypeIOS then
          runIOSTest r query
        else
          perform (WriteHeader StatusBadRequest) ;;
          perform (Write "must specify 'test_type'") ;;
          Ret tt
    end.
End Handler.
End Part_000.

(** ** The world a handler runs in *)

(** A file system entry.  The file system maps locations (lists of
    directory entries from the root) to entries; the root itself, [[]],
    is always a directory. *)
Inductive Node : Type :=
| NDir
| NFile (content : string).

(** The state of an [http.ResponseWriter]: the status code once the header
    is written, and the body written so far. *)
Record Response : Type := mkResponse {
  code : option Z;
  written : string
}.

Definition noResponse : Response := mkResponse None EmptyString.

(** [w.WriteHeader(c)]: only the first call sets the status. *)
Definition writeHeader (c : Z) (w : Response) : Response :=
  match code w with
  | Some _ => w
  | None => mkResponse (Some c) (written w)
  end.

(** [w.Write(b)]: writes the header with status 200 first when no header
    was written yet. *)
Definition write (b : string) (w : Response) : Response :=
  mkResponse (Some (default StatusOK (code w))) (written w +:+ b).

(** The status the client receives: 200 when the handler returns without
    having written a header. *)
Definition status (w : Response) : Z := default StatusOK (code w).

(** What a run leaves in its trace: every effect performed, in order,
    with the answer where the handlers look at it. *)
Inductive event : Type :=
| EvWriteHeader (code : Z)
| EvWrite (b : string)
| EvParseQuery (raw : string)
| EvTempDir
| EvChdir (dir : string) (err : option error)
| EvMkdir (name : string) (err : option error)
| EvOpenFile (name : string) (f : option File) (err : option error)
| EvFileWrite (f : File) (b : string) (err : option error)
| EvFileClose (f : File)
| EvRemove (name : string) (err : option error)
| EvRemoveAll (path : string) (err : option error)
| EvRandInt (max : Z)
| EvExec (name : string) (arg : list string) (out : string) (err : option error)
| EvLock
| EvUnlock
| EvLog (msg : string).

Definition event_of {X : Type} (e : eff X) : X -> event :=
  match e in eff X return X -> event with
  | WriteHeader c => fun _ => EvWriteHeader c
  | Write b => fun _ => EvWrite b
  | ParseQuery raw => fun _ => EvParseQuery raw
  | TempDir => fun _ => EvTempDir
  | Chdir dir => fun err => EvChdir dir err
  | Mkdir name => fun err => EvMkdir name err
  | OpenFile name => fun r => EvOpenFile name (fst r) (snd r)
  | FileWrite f b => fun err => EvFileWrite f b err
  | FileClose f => fun _ => EvFileClose f
  | Remove name => fun err => EvRemove name err
  | RemoveAll path => fun err => EvRemoveAll path err
  | RandInt max => fun _ => EvRandInt max
  | CombinedOutput name arg => fun r => EvExec name arg (fst r) (snd r)
  | Lock => fun _ => EvLock
  | Unlock => fun _ => EvUnlock
  | Log msg => fun _ => EvLog msg
  end.

(** The system calls the operating system may refuse for reasons outside
    the model (permissions, quota, I/O errors). *)
Inductive Syscall : Type :=
| SysChdir | SysMkdir | SysOpen | SysWrite | SysRemove | SysRemoveAll.

(** What the handlers cannot control: the temp directory, the query
    parser of [net/url], refusals of the operating system, the random
    source, and the external tools (each tool sees the working directory
    and the file system, and may change the latter). *)
Record Env : Type := mkEnv {
  TMPDIR : string;
  parseQuery : string -> gmap string (list string) * option error;
  refuses : Syscall -> list string -> option Errno;
  randReader : nat -> Z + error;
  tool : string -> list string -> list string -> gmap (list string) Node ->
         (string * option error) * gmap (list string) Node
}.

Record World : Type := mkWorld {
  resp : Response;
  cwd : list string;
  fs : gmap (list string) Node;
  locked : bool;
  randPos : nat;
  trace : list event
}.

Definition setResp (r : Response) (w : World) : World :=
  mkWorld r (cwd w) (fs w) (locked w) (randPos w) (trace w).
Definition setCwd (d : list string) (w : World) : World :=
  mkWorld (resp w) d (fs w) (locked w) (randPos w) (trace w).
Definition setFs (m : gmap (list string) Node) (w : World) : World :=
  mkWorld (resp w) (cwd w) m (locked w) (randPos w) (trace w).
Definition setLocked (b : bool) (w : World) : World :=
  mkWorld (resp w) (cwd w) (fs w) b (randPos w) (trace w).
Definition setRandPos (n : nat) (w : World) : World :=
  mkWorld (resp w) (cwd w) (fs w) (locked w) n (trace w).
Definition addEvent (ev : event) (w : World) : World :=
  mkWorld (resp w) (cwd w) (fs w) (locked w) (randPos w) (trace w ++ [ev]).

Definition isDir (m : gmap (list string) Node) (loc : list string) : bool :=
  match loc with
  | [] => true
  | _ => match m !! loc with
         | Some NDir => true
         | _ => false
         end
  end.

Definition exists_at (m : gmap (list string) Node) (loc : list string) : bool :=
  match loc with
  | [] => true
  | _ => match m !! loc with
         | Some _ => true
         | None => false
         end
  end.

(** The entries at or below a location. *)
Definition below (loc : list string) (m : gmap (list string) Node)
  : gmap (list string) Node :=
  filter (fun kv => loc `prefix_of` kv.1) m.

Definition notBelow (loc : list string) (m : gmap (list string) Node)
  : gmap (list string) Node :=
  filter (fun kv => ¬ loc `prefix_of` kv.1) m.

(** Creating a new entry ([mkdir], [open] with O_CREATE|O_EXCL). *)
Definition create (sys : Syscall) (op name : string) (entry : Node)
    (env : Env) (w : World) : option error * World :=
  let loc := resolve (cwd w) name in
  if exists_at (fs w) loc then (Some (PathError op name EEXIST), w)
  else if negb (isDir (fs w) (removelast loc)) then
    (Some (PathError op name ENOENT), w)
  else match refuses env sys loc with
       | Some en => (Some (PathError op name en), w)
       | None => (None, setFs (<[loc := entry]> (fs w)) w)
       end.

(** The answer of the world to one effect, and the world after it;
    [None] when the caller blocks (the mutex is held). *)
Definition answer (env : Env) {X : Type} (e : eff X) (w : World)
  : option (X * World) :=
  match e in eff X return option (X * World) with
  | WriteHeader c => Some (tt, setResp (writeHeader c (resp w)) w)
  | Write b => Some (tt, setResp (write b (resp w)) w)
  | ParseQuery raw => Some (parseQuery env raw, w)
  | TempDir => Some (TMPDIR env, w)
  | Chdir dir =>
      let loc := resolve (cwd w) dir in
      if negb (exists_at (fs w) loc) then Some (Some (PathError "chdir" dir ENOENT), w)
      else if negb (isDir (fs w) loc) then Some (Some (PathError "chdir" dir ENOTDIR), w)
      else match refuses env SysChdir loc with
           | Some en => Some (Some (PathError "chdir" dir en), w)
           | None => Some (None, setCwd loc w)
           end
  | Mkdir name => Some (create SysMkdir "mkdir" name NDir env w)
  | OpenFile name =>
      let '(err, w') := create SysOpen "open" name (NFile EmptyString) env w in
      match err with
      | Some e => Some ((None, Some e), w')
      | None => Some ((Some (mkFile name (resolve (cwd w) name)), None), w')
      end
  | FileWrite f b =>
      match refuses env SysWrite (location f) with
      | Some en => Some (Some (PathError "write" (Name f) en), w)
      | None =>
          match fs w !! location f with
          | Some (NFile c) =>
              Some (None, setFs (<[location f := NFile (c +:+ b)]> (fs w)) w)
          | _ => Some (None, w)
          end
      end
  | FileClose f => Some (None, w)
  | Remove name =>
      let loc := resolve (cwd w) name in
      match fs w !! loc with
      | None => Some (Some (PathError "remove" name ENOENT), w)
      | Some entry =>
          match refuses env SysRemove loc with
          | Some en => Some (Some (PathError "remove" name en), w)
          | None =>
              if (1 <? size (below loc (fs w)))%nat then
                Some (Some (PathError "remove" name ENOTEMPTY), w)
              else Some (None, setFs (delete loc (fs w)) w)
          end
      end
  | RemoveAll path =>
      let loc := resolve (cwd w) path in
      match refuses env SysRemoveAll loc with
      | Some en => Some (Some (PathError "unlinkat" path en), w)
      | None => Some (None, setFs (notBelow loc (fs w)) w)
      end
  | RandInt max =>
      let r := match randReader env (randPos w) with
               | inl v => inl (v mod max)
               | inr err => inr err
               end in
      Some (r, setRandPos (S (randPos w)) w)
  | CombinedOutput name arg =>
      let '(r, m) := tool env name arg (cwd w) (fs w) in
      Some (r, setFs m w)
  | Lock => if locked w then None else Some (tt, setLocked true w)
  | Unlock => Some (tt, setLocked false w)
  | Log msg => Some (tt, w)
  end.

Definition handle (env : Env) {X : Type} (e : eff X) (w : World)
  : option (X * World) :=
  match answer env e w with
  | Some (x, w') => Some (x, addEvent (event_of e x) w')
  | None => None
  end.

(** How a handler run ends. *)
Inductive Outcome (A : Type) : Type :=
| Returned (a : A)
| Panicked (v : string)
| Blocked.

Arguments Returned {A} a.
Arguments Panicked {A} v.
Arguments Blocked {A}.

(** Running a program in a world. *)
Fixpoint run (env : Env) {A : Type} (p : prog A) (w : World) : Outcome A * World :=
  match p with
  | Ret a => (Returned a, w)
  | Panic v => (Panicked v, w)
  | Vis e k =>
      match handle env e w with
      | Some (x, w') => run env (k x) w'
      | None => (Blocked, w)
      end
  end.

(** ** A model of [url.ParseQuery] and [strconv.Quote] for concrete runs

    The theorems below hold for every query parser and every quoting
    function; the concrete runs use these two. *)

Definition quoteChar : ascii := ascii_of_nat 34.
Definition backslash : ascii := ascii_of_nat 92.

(** [strconv.Quote] on printable ASCII text: the text between double
    quotes, with double quotes and backslashes escaped. *)
Fixpoint quoteBody (s : string) : string :=
  match s with
  | EmptyString => EmptyString
  | String c rest =>
      if Ascii.eqb c quoteChar || Ascii.eqb c backslash
      then String backslash (String c (quoteBody rest))
      else String c (quoteBody rest)
  end.

Definition Quote_ascii (s : string) : string :=
  String quoteChar (quoteBody s +:+ String quoteChar EmptyString).

Definition unhex (c : ascii) : option N :=
  let n := N_of_ascii c in
  if ((48 <=? n) && (n <=? 57))%N then Some (n - 48)%N
  else if ((97 <=? n) && (n <=? 102))%N then Some (n - 87)%N
  else if ((65 <=? n) && (n <=? 70))%N then Some (n - 55)%N
  else None.

(** [url.QueryUnescape]: [+] is a space, [%XX] a byte; [None] stands for
    an [EscapeError]. *)
Fixpoint QueryUnescape (s : string) : option string :=
  match s with
  | EmptyString => Some EmptyString
  | String c rest =>
      if Ascii.eqb c (ascii_of_nat 37) then
        match rest with
        | String a (String b rest') =>
            match unhex a, unhex b with
            | Some x, Some y =>
                String (ascii_of_N (16 * x + y)) <$> QueryUnescape rest'
            | _, _ => None
            end
        | _ => None
        end
      else if Ascii.eqb c (ascii_of_nat 43) then
        String (ascii_of_nat 32) <$> QueryUnescape rest
      else String c <$> QueryUnescape rest
  end.

(** [strings.Cut(s, sep)] for a one-byte separator. *)
Fixpoint Cut (s : string) (sep : ascii) : string * string :=
  match s with
  | EmptyString => (EmptyString, EmptyString)
  | String c rest =>
      if Ascii.eqb c sep then (EmptyString, rest)
      else let '(before, after) := Cut rest sep in (String c before, after)
  end.

Definition escapeError : error := errorString "invalid URL escape".

(** One [key=value] setting of the query, added to [acc]. *)
Definition parsePair (acc : gmap string (list string) * option error)
    (pair : string) : gmap string (list string) * option error :=
  let '(m, err) := acc in
  if String.eqb pair EmptyString then acc
  else
    let '(k, v) := Cut pair (ascii_of_nat 61) in
    match QueryUnescape k, QueryUnescape v with
    | Some key, Some value =>
        (<[key := (default [] (m !! key) ++ [value])%list]> m, err)
    | _, _ => (m, Some (default escapeError err))
    end.

(** [url.ParseQuery]: the settings are separated by [&]; the first error
    met is returned beside the settings that did parse. *)
Definition ParseQuery_model (raw : string)
  : gmap string (list string) * option error :=
  fold_left parsePair (Split raw (ascii_of_nat 38)) (∅, None).

(** ** Concrete worlds and requests *)

Definition theSecret : string := "s3cret".

(** Tools that succeed, except that [xcodebuild] fails on the scheme
    [Broken]; [tar] unpacks one file into the working directory. *)
Definition someTools (name : string) (arg : list string) (cwd : list string)
    (m : gmap (list string) Node)
  : (string * option error) * gmap (list string) Node :=
  if String.eqb name "tar" then
    ((EmptyString, None), <[(cwd ++ ["AppTests.swift"])%list := NFile "import XCTest"]> m)
  else if String.eqb name "xcodebuild" then
    if String.eqb (default EmptyString (last arg)) "Broken"
    then (("** TEST FAILED **", Some (errorString "exit status 65")), m)
    else (("** TEST SUCCEEDED **", None), m)
  else (("Success", None), m).

(** Tools where [adb install] fails. *)
Definition noDevice (name : string) (arg : list string) (cwd : list string)
    (m : gmap (list string) Node)
  : (string * option error) * gmap (list string) Node :=
  (("error: no devices/emulators found", Some (errorString "exit status 1")), m).

(** Tools where [adb install] succeeds and the instrumentation fails. *)
Definition crashingTests (name : string) (arg : list string) (cwd : list string)
    (m : gmap (list string) Node)
  : (string * option error) * gmap (list string) Node :=
  if String.eqb (default EmptyString (head arg)) "install"
  then (("Success", None), m)
  else (("INSTRUMENTATION_FAILED", Some (errorString "exit status 1")), m).

Definition noRefusal (sys : Syscall) (loc : list string) : option Errno := None.

(** The operating system refuses to create files (but not directories). *)
Definition noNewFiles (sys : Syscall) (loc : list string) : option Errno :=
  match sys with
  | SysOpen => Some EACCES
  | _ => None
  end.

Definition countUp (n : nat) : Z + error := inl (Z.of_nat n).

Definition env0 : Env := mkEnv "/tmp" ParseQuery_model noRefusal countUp someTools.
Definition envNoDevice : Env := mkEnv "/tmp" ParseQuery_model noRefusal countUp noDevice.
Definition envCrashing : Env := mkEnv "/tmp" ParseQuery_model noRefusal countUp crashingTests.
Definition envNoNewFiles : Env := mkEnv "/tmp" ParseQuery_model noNewFiles countUp someTools.

(** A machine with [/tmp] and [/srv], the server started in [/srv]. *)
Definition world0 : World :=
  mkWorld noResponse ["srv"] (<[["tmp"] := NDir]> (<[["srv"] := NDir]> ∅)) false 0 [].

Definition authorized : gmap string (list string) :=
  <["Authorization" := [theSecret]]> ∅.

Definition upload : Body := mkBody ["PK"; "data"] None.
Definition emptyUpload : Body := mkBody [] None.

Definition reqAndroid : Request :=
  mkRequest authorized "test_type=android&test_package=com.example.app" upload.
Definition reqAndroidNoPackage : Request :=
  mkRequest authorized "test_type=android" upload.
Definition reqIOS (schemes : string) (b : Body) : Request :=
  mkRequest authorized
    ("test_type=ios&test_destination=name%3DiPhone&test_schemes=" +:+ schemes) b.
Definition reqIOSNoDestination : Request :=
  mkRequest authorized "test_type=ios&test_schemes=App" upload.
Definition reqIOSNoSchemes : Request :=
  mkRequest authorized "test_type=ios&test_destination=name%3DiPhone" upload.
Definition reqNoType : Request :=
  mkRequest authorized "test_package=com.example.app" upload.
Definition reqBadQuery : Request :=
  mkRequest authorized "test_type=android&test_package=%zz" upload.
Definition reqNoAuth : Request :=
  mkRequest ∅ "test_type=android&test_package=com.example.app" upload.

(** ** Runs as event sequences

    [exec p evs o]: the program [p] can perform exactly the events [evs]
    and end in [o], for some answers of the world.  A run blocks only at
    [testMu.Lock()]. *)

Definition isLock {X : Type} (e : eff X) : bool :=
  match e with
  | Lock => true
  | _ => false
  end.

Fixpoint exec {A : Type} (p : prog A) (evs : list event) (o : Outcome A) : Prop :=
  match p with
  | Ret a => evs = [] /\ o = Returned a
  | Panic v => evs = [] /\ o = Panicked v
  | Vis e k =>
      (isLock e = true /\ evs = [] /\ o = Blocked) \/
      (exists x evs', evs = event_of e x :: evs' /\ exec (k x) evs' o)
  end.

(** The response after the events [evs], from the response [r]. *)
Definition respAfter (r : Response) (ev : event) : Response :=
  match ev with
  | EvWriteHeader c => writeHeader c r
  | EvWrite b => write b r
  | _ => r
  end.

Definition replay (evs : list event) (r : Response) : Response :=
  fold_left respAfter evs r.

(** Events that neither touch the response, nor run a tool, nor touch the
    mutex, nor open the staging file. *)
Definition quiet (ev : event) : bool :=
  match ev with
  | EvWriteHeader _ | EvWrite _ | EvExec _ _ _ _ | EvLock | EvUnlock
  | EvOpenFile _ _ _ => false
  | _ => true
  end.

(** The commands run, in order. *)
Fixpoint commands (evs : list event) : list (string * list string) :=
  match evs with
  | [] => []
  | EvExec name arg _ _ :: rest => (name, arg) :: commands rest
  | _ :: rest => commands rest
  end.

(** A world in which no request was handled yet. *)
Definition fresh (w : World) : Prop :=
  resp w = noResponse /\ trace w = [].

(** A finished run that answered with status [st] and body [b]. *)
Definition responds (res : Outcome unit * World) (st : Z) (b : string) : Prop :=
  fst res = Returned tt /\ status (resp (snd res)) = st /\ written (resp (snd res)) = b.

(** What the outcome of a function body becomes once a deferred call
    ended in [o2]. *)
Definition afterDeferred {A : Type} (o1 : Outcome A) (o2 : Outcome unit) : Outcome A :=
  match o2 with
  | Returned _ => o1
  | Panicked v => Panicked v
  | Blocked => Blocked
  end.

(** *** The scheme loop, in the words of the specification *)

Definition xcodebuildArgs (testDestination scheme : string) : list string :=
  ["test"; "-destination"; testDestination; "-scheme"; scheme].

Definition startLine (Quote : string -> string) (testDestination scheme : string) : string :=
  "ios: Testing scheme " +:+ Quote scheme +:+ " on destination " +:+ Quote testDestination.

(** What one scheme adds to the response body, given the result of its
    [xcodebuild] run. *)
Definition schemeReport (Quote : string -> string) (testDestination scheme : string)
    (result : string * option error) : string :=
  startLine Quote testDestination scheme +:+ nl +:+
  match snd result with
  | Some e => "!!TEST FAILED!!" +:+ nl +:+ Error e +:+ nl +:+ fst result
  | None => "!!TEST PASSED!!" +:+ nl +:+ fst result
  end.

Fixpoint reports (Quote : string -> string) (testDestination : string)
    (schemes : list string) (results : list (string * option error)) : string :=
  match schemes, results with
  | s :: schemes', r :: results' =>
      schemeReport Quote testDestination s r +:+ reports Quote testDestination schemes' results'
  | _, _ => EmptyString
  end.

Definition failed (result : string * option error) : bool :=
  match snd result with
  | Some _ => true
  | None => false
  end.

(** The events of one scheme. *)
Definition schemeEvents (Quote : string -> string) (testDestination scheme : string)
    (result : string * option error) : list event :=
  [EvLog (startLine Quote testDestination scheme);
   EvWrite (startLine Quote testDestination scheme);
   EvWrite nl;
   EvExec "xcodebuild" (xcodebuildArgs testDestination scheme) (fst result) (snd result)] ++
  match snd result with
  | Some e => [EvWrite ("!!TEST FAILED!!" +:+ nl); EvWrite (Error e); EvWrite nl;
               EvWrite (fst result)]
  | None => [EvWrite ("!!TEST PASSED!!" +:+ nl); EvWrite (fst result)]
  end.

Fixpoint loopEvents (Quote : string -> string) (testDestination : string)
    (schemes : list string) (results : list (string * option error)) : list event :=
  match schemes, results with
  | s :: schemes', r :: results' =>
      schemeEvents Quote testDestination s r ++ loopEvents Quote testDestination schemes' results'
  | _, _ => []
  end.

(** The number of separators in a string. *)
Fixpoint countByte (c : ascii) (s : string) : nat :=
  match s with
  | EmptyString => O
  | String c' rest => (if Ascii.eqb c' c then 1 else 0) + countByte c rest
  end.

(** ** Requests handled concurrently

    [net/http] runs every handler on a goroutine of its own.  A thread is
    the rest of a handler's program; [holding] records whether the
    thread is between its [testMu.Lock()] and its [testMu.Unlock()].
    One step of the server is one effect of one thread, performed on the
    shared world; a thread at [Lock] steps only when the mutex is free. *)

Definition holdingAfter {X : Type} (e : eff X) (h : bool) : bool :=
  match e with
  | Lock => true
  | Unlock => false
  | _ => h
  end.

Record Thread : Type := mkThread {
  rest : prog unit;
  holding : bool
}.

Inductive cstep (env : Env) : World * list Thread -> World * list Thread -> Prop :=
| cstep_effect (i : nat) (w w' : World) (ts : list Thread)
    (X : Type) (e : eff X) (k : X -> prog unit) (h : bool) (x : X) :
    ts !! i = Some (mkThread (Vis e k) h) ->
    handle env e w = Some (x, w') ->
    cstep env (w, ts) (w', <[i := mkThread (k x) (holdingAfter e h)]> ts).

(** The tools that drive a device or simulator. *)
Definition deviceTool (name : string) : bool :=
  String.eqb name "adb" || String.eqb name "xcodebuild".


(** The lock discipline of a program from a point where the thread holds
    the mutex or not ([h]): it locks only when not holding, unlocks only
    when holding, runs device tools only when holding; [Q] holds of how
    it ends ([None]: by a panic) and of whether it then holds the mutex. *)
Definition allowed {X : Type} (e : eff X) (h : bool) : Prop :=
  match e with
  | Lock => h = false
  | Unlock => h = true
  | CombinedOutput name _ => deviceTool name = true -> h = true
  | _ => True
  end.

Fixpoint disciplined {A : Type} (p : prog A) (h : bool)
    (Q : option A -> bool -> Prop) : Prop :=
  match p with
  | Ret a => Q (Some a) h
  | Panic _ => Q None h
  | Vis e k => allowed e h /\ forall x, disciplined (k x) (holdingAfter e h) Q
  end.

(** A whole handler: starts without the mutex and ends without it. *)
Definition releases (p : prog unit) (h : bool) : Prop :=
  disciplined p h (fun _ h' => h' = false).


(** The invariant of the concurrent server. *)
Definition exclusive (c : World * list Thread) : Prop :=
  (forall i t, c.2 !! i = Some t -> releases (rest t) (holding t)) /\
  (forall i j ti tj, c.2 !! i = Some ti -> c.2 !! j = Some tj ->
     holding ti = true -> holding tj = true -> i = j) /\
  (forall i t, c.2 !! i = Some t -> holding t = true -> locked c.1 = true).

(** The threads of a server that just accepted the requests [rs]. *)
Definition accepted (handler : Request -> prog unit) (rs : list Request) : list Thread :=
  map (fun r => mkThread (handler r) false) rs.

(** ** Notions the statements use *)

(** A run that replied [st], [msg] right after parsing the query and did
    nothing else: no file system change, no command, no other event. *)
Definition repliedOnly (res : Outcome unit * World) (w : World) (raw : string)
    (st : Z) (msg : string) : Prop :=
  responds res st msg /\ fs (snd res) = fs w /\ cwd (snd res) = cwd w /\
  trace (snd res) = [EvParseQuery raw; EvWriteHeader st; EvWrite msg].

(** The request is authorized and asks for the iOS runner. *)
Definition reachesIOS (secret : string) (env : Env) (r : Request)
    (query : gmap string (list string)) : Prop :=
  Get (Header r) "Authorization" = secret /\
  parseQuery env (RawQuery r) = (query, None) /\
  Get query "test_type" = "ios".

(** All events of a list are quiet. *)
Definition Quiet (evs : list event) : Prop := Forall (fun ev => quiet ev = true) evs.

(** The events that are not quiet, in order. *)
Fixpoint loud (evs : list event) : list event :=
  match evs with
  | [] => []
  | ev :: evs' => if quiet ev then loud evs' else ev :: loud evs'
  end.

(** The body delivers at least one byte. *)
Definition hasData (b : Body) : bool :=
  existsb (fun c => negb (String.eqb c EmptyString)) (chunks b).

(** The result of copying the body into a nil file: the first write
    fails with [os.ErrInvalid]; with nothing to write, the result is that
    of the reads. *)
Definition teeIntoNil (b : Body) : option error :=
  if hasData b then Some ErrInvalid else readErr b.

(** The arguments of the instrumentation command (lines 103-104 of
    [src/main.go]). *)
Definition instrumentArgs (testPackage : string) : list string :=
  ["shell"; "am"; "instrument"; "-w";
   testPackage +:+ "/android.support.test.runner.AndroidJUnitRunner"].

(** A plain file name: not empty, not [.] or [..], without a slash. *)
Definition plainName (s : string) : Prop :=
  s <> EmptyString /\ s <> "." /\ s <> ".." /\ countByte slash s = O.

(** A program that leaves the mutex as it found it. *)
Definition keeps {A : Type} (p : prog A) (h : bool) : Prop :=
  disciplined p h (fun _ h' => h' = h).

(** *** Schedules: interleavings that can be computed *)

(** One step of thread [i], when it can take one. *)
Definition cstepOf (env : Env) (i : nat) (c : World * list Thread)
  : option (World * list Thread) :=
  match c.2 !! i with
  | Some (mkThread (Vis e k) h) =>
      match handle env e c.1 with
      | Some (x, w') => Some (w', <[i := mkThread (k x) (holdingAfter e h)]> c.2)
      | None => None
      end
  | _ => None
  end.

(** The threads named by the schedule step one after the other. *)
Fixpoint schedule (env : Env) (sched : list nat) (c : World * list Thread)
  : option (World * list Thread) :=
  match sched with
  | [] => Some c
  | i :: sched' =>
      match cstepOf env i c with
      | Some c' => schedule env sched' c'
      | None => None
      end
  end.



(** The schedule could be followed to its end. *)
Definition possible (c : option (World * list Thread)) : bool :=
  match c with
  | Some _ => true
  | None => false
  end.

(** *** Concrete runs *)

(** The query of a request, as [ParseQuery_model] reads it. *)
Definition queryOf (r : Request) : gmap string (list string) :=
  fst (ParseQuery_model (RawQuery r)).

(** An iOS request with a passing and a failing scheme, and the run of
    its runner on [world0]. *)
Definition twoSchemes : Request := reqIOS "App,Broken" upload.

Definition twoSchemesRun : Outcome unit * World :=
  run env0 (Part_000.runIOSTest Quote_ascii twoSchemes (queryOf twoSchemes)) world0.

(** The Android and the iOS runner on a machine that refuses new files. *)
Definition androidRefused : Outcome unit * World :=
  run envNoNewFiles (runAndroidTest reqAndroid (queryOf reqAndroid)) world0.

Definition iosRefused (b : Body) : Outcome unit * World :=
  run envNoNewFiles
    (Part_000.runIOSTest Quote_ascii (reqIOS "App" b) (queryOf (reqIOS "App" b))) world0.

(** The handling of an authorized iOS request with one passing scheme,
    and of an authorized Android request, all tools succeeding. *)
Definition iosRun : Outcome unit * World :=
  run env0 (Part_000.handler theSecret Quote_ascii (reqIOS "App" upload)) world0.

Definition androidRun : Outcome unit * World :=
  run env0 (Part_000.handler theSecret Quote_ascii reqAndroid) world0.

(** Two iOS requests in flight. *)
Definition twoUploads : World * list Thread :=
  (world0, accepted (Part_000.handler theSecret Quote_ascii)
             [reqIOS "App" upload; reqIOS "App" upload]).

(** The second request takes 20 steps, up to its first [xcodebuild];
    then the first request takes 15 steps, up to its [tar]. *)
Definition overlapping : option (World * list Thread) :=
  schedule env0 (replicate 20 1%nat ++ replicate 15 0%nat) twoUploads.

(** ** Notions of the further properties *)

(** *** The random names *)

(** The string [n] draws select from the alphanumeric alphabet, starting
    at position [pos] of the random source; [None] when a draw fails. *)
Fixpoint drawn (env : Env) (pos n : nat) : option string :=
  match n with
  | O => Some EmptyString
  | S n' =>
      match randReader env pos with
      | inl v =>
          match stringAlphaNumeric !! Z.to_nat (v mod 62), drawn env (S pos) n' with
          | Some c, Some s => Some (String c s)
          | _, _ => None
          end
      | inr _ => None
      end
  end.

(** *** Events by what they can change *)

(** Events of the helper loops and of bookkeeping: a draw from the random
    source, a write to the staging file that succeeded, its close, the
    look-up of the temp directory, a log line, the parse of the query. *)
Definition routine (ev : event) : bool :=
  match ev with
  | EvRandInt _ | EvFileWrite _ _ None | EvFileClose _ | EvTempDir | EvLog _
  | EvParseQuery _ => true
  | _ => false
  end.

Definition Routine (evs : list event) : Prop := Forall (fun ev => routine ev = true) evs.

(** The events that are not routine, in order. *)
Fixpoint notable (evs : list event) : list event :=
  match evs with
  | [] => []
  | ev :: evs' => if routine ev then notable evs' else ev :: notable evs'
  end.

Definition isDraw (ev : event) : bool :=
  match ev with
  | EvRandInt _ => true
  | _ => false
  end.

Definition Draws (evs : list event) : Prop := Forall (fun ev => isDraw ev = true) evs.

(** A write to the file [f] that succeeded. *)
Definition writeTo (f : File) (ev : event) : Prop :=
  match ev with
  | EvFileWrite f' _ None => f' = f
  | _ => False
  end.

Definition WritesTo (f : File) (evs : list event) : Prop := Forall (writeTo f) evs.

(** Events that leave the file system, the working directory and the
    mutex as they are: all that concerns only the response, the random
    source or the log, and every file system call that failed. *)
Definition neutral (ev : event) : bool :=
  match ev with
  | EvWriteHeader _ | EvWrite _ | EvParseQuery _ | EvTempDir | EvRandInt _
  | EvFileClose _ | EvLog _ => true
  | EvChdir _ (Some _) | EvMkdir _ (Some _) | EvOpenFile _ _ (Some _)
  | EvFileWrite _ _ (Some _) | EvRemove _ (Some _) | EvRemoveAll _ (Some _) => true
  | _ => false
  end.

(** Events that leave the file system as it is: all but the creation of
    a directory or a file, a write, a removal, and a command (a tool may
    write anywhere). *)
Definition leaves (ev : event) : bool :=
  match ev with
  | EvMkdir _ None | EvOpenFile _ _ None | EvFileWrite _ _ None | EvRemove _ None
  | EvRemoveAll _ None | EvExec _ _ _ _ => false
  | _ => true
  end.

(** The events of the scheme loop: log lines, writes to the response,
    runs of [xcodebuild]. *)
Definition loopKind (ev : event) : bool :=
  match ev with
  | EvLog _ | EvWrite _ => true
  | EvExec name _ _ _ => String.eqb name "xcodebuild"
  | _ => false
  end.

(** Events that leave the working directory where it is: all but a
    [Chdir] that succeeded. *)
Definition stays (ev : event) : bool :=
  match ev with
  | EvChdir _ None => false
  | _ => true
  end.

(** Events that change the file system at most at the file [f], or
    through a tool: a write to [f], a command, and all that leaves the
    file system as it is. *)
Definition local (f : File) (ev : event) : Prop :=
  match ev with
  | EvFileWrite f' _ None => f' = f
  | EvExec _ _ _ _ => True
  | _ => leaves ev = true
  end.

(** The tools leave the file system of the server alone. *)
Definition harmless (env : Env) : Prop :=
  forall name arg cwd m, snd (tool env name arg cwd m) = m.

(** [follows env w evs w']: the events [evs] are what the world [w]
    answers, one effect after the other, and [w'] is the world after
    them. *)
Inductive follows (env : Env) : World -> list event -> World -> Prop :=
| follows_nil (w : World) : follows env w [] w
| follows_cons (X : Type) (e : eff X) (x : X) (w w1 : World) (ev : event)
    (evs : list event) (w' : World) :
    handle env e w = Some (x, w1) ->
    ev = event_of e x ->
    follows env w1 evs w' ->
    follows env w (ev :: evs) w'.

(** The protocol of [http.ResponseWriter]: the header is written at most
    once, and not after the body was started ([started]: a header or a
    part of the body was written before). *)
Fixpoint headerFirst (started : bool) (evs : list event) : bool :=
  match evs with
  | [] => true
  | EvWriteHeader _ :: rest => negb started && headerFirst true rest
  | EvWrite _ :: rest => headerFirst true rest
  | _ :: rest => headerFirst started rest
  end.

(** *** The world a command is run in *)

(** All the bytes of a body, in order. *)
Definition bytesOf (b : Body) : string :=
  fold_right String.append EmptyString (chunks b).

(** The command an effect runs, if it runs one. *)
Definition commandOf {X : Type} (e : eff X) : option (string * list string) :=
  match e with
  | CombinedOutput name arg => Some (name, arg)
  | _ => None
  end.

(** The first command of a run, and the world it is started in: [None]
    when the run ends, or waits for the mutex, before any command. *)
Fixpoint firstCommand (env : Env) {A : Type} (p : prog A) (w : World)
  : option ((string * list string) * World) :=
  match p with
  | Ret _ | Panic _ => None
  | Vis e k =>
      match commandOf e with
      | Some c => Some (c, w)
      | None =>
          match handle env e w with
          | Some (x, w') => firstCommand env (k x) w'
          | None => None
          end
      end
  end.

(** *** More concrete worlds and requests *)

(** The machine of [world0] on which the first staging file name is
    taken. *)
Definition worldTaken : World :=
  mkWorld noResponse ["srv"]
    (<[["tmp"; "test_abcde.apk"] := NFile "old"]> (fs world0)) false 0 [].

(** The operating system refuses every write: the disk is full. *)
Definition diskFull (sys : Syscall) (loc : list string) : option Errno :=
  match sys with
  | SysWrite => Some ENOSPC
  | _ => None
  end.

Definition envDiskFull : Env := mkEnv "/tmp" ParseQuery_model diskFull countUp someTools.

(** An upload that breaks off after its first chunk. *)
Definition brokenUpload : Body := mkBody ["PK"] (Some (errorString "unexpected EOF")).

Definition reqAndroidBroken : Request :=
  mkRequest authorized "test_type=android&test_package=com.example.app" brokenUpload.

(** The Android runner: with the staging file name taken, on a full
    disk, on an upload that breaks off, and with nothing in its way. *)
Definition androidTaken : Outcome unit * World :=
  run env0 (runAndroidTest reqAndroid (queryOf reqAndroid)) worldTaken.

Definition androidDiskFull : Outcome unit * World :=
  run envDiskFull (runAndroidTest reqAndroid (queryOf reqAndroid)) world0.

Definition androidBroken : Outcome unit * World :=
  run env0 (runAndroidTest reqAndroidBroken (queryOf reqAndroidBroken)) world0.

Definition androidStaging : Outcome unit * World :=
  run env0 (runAndroidTest reqAndroid (queryOf reqAndroid)) world0.

(** A machine without [/tmp]. *)
Definition worldNoTmp : World :=
  mkWorld noResponse ["srv"] (<[["srv"] := NDir]> ∅) false 0 [].

(** The operating system refuses to create directories. *)
Definition noNewDirs (sys : Syscall) (loc : list string) : option Errno :=
  match sys with
  | SysMkdir => Some EACCES
  | _ => None
  end.

(** The operating system lets nobody into [/tmp/abcde]. *)
Definition lockedOut (sys : Syscall) (loc : list string) : option Errno :=
  match sys with
  | SysChdir => if bool_decide (loc = ["tmp"; "abcde"]) then Some EACCES else None
  | _ => None
  end.

(** Tools where [tar] rejects the archive. *)
Definition badArchive (name : string) (arg : list string) (cwd : list string)
    (m : gmap (list string) Node)
  : (string * option error) * gmap (list string) Node :=
  if String.eqb name "tar"
  then (("tar: Error opening archive", Some (errorString "exit status 1")), m)
  else someTools name arg cwd m.

Definition envNoNewDirs : Env := mkEnv "/tmp" ParseQuery_model noNewDirs countUp someTools.
Definition envLockedOut : Env := mkEnv "/tmp" ParseQuery_model lockedOut countUp someTools.
Definition envBadArchive : Env := mkEnv "/tmp" ParseQuery_model noRefusal countUp badArchive.

(** The iOS runner on a request with the one scheme [App]. *)
Definition iosOn (env : Env) (w : World) (b : Body) : Outcome unit * World :=
  run env (Part_000.runIOSTest Quote_ascii (reqIOS "App" b) (queryOf (reqIOS "App" b))) w.

(** The handling of an iOS request whose archive [tar] rejects. *)
Definition handledBadArchive : Outcome unit * World :=
  run envBadArchive (Part_000.handler theSecret Quote_ascii (reqIOS "App" upload)) world0.

(** The handling of an Android request on a machine that refuses new
    files. *)
Definition handledRefused : Outcome unit * World :=
  run envNoNewFiles (Part_000.handler theSecret Quote_ascii reqAndroid) world0.

(** A server started with a relative temp directory, [..], on a machine
    where the directory the runner then gets into is not the one it
    made, and holds a [source.tgz] already. *)
Definition envRelative : Env := mkEnv ".." ParseQuery_model noRefusal countUp someTools.

Definition worldRelative : World :=
  mkWorld noResponse ["srv"; "x"]
    (<[["abcde"; "source.tgz"] := NFile "old"]>
       (<[["abcde"] := NDir]> (<[["srv"; "x"] := NDir]> (<[["srv"] := NDir]> ∅))))
    false 0 [].

(** * Theorems *)

(** ** Splitting *)

Lemma Split_nonempty (s : string) (sep : ascii) : Split s sep <> [].
Proof.
  destruct s as [|c s]; simpl; [discriminate|].
  destruct (Ascii.eqb c sep); [discriminate|].
  destruct (Split s sep); discriminate.
Qed.

Lemma Split_length (s : string) (sep : ascii) :
  length (Split s sep) = S (countByte sep s).
Proof.
  induction s as [|c s IH]; simpl; [reflexivity|].
  destruct (Ascii.eqb c sep); simpl.
  - now rewrite IH.
  - destruct (Split s sep) as [|seg segs] eqn:E; simpl in *; [discriminate|assumption].
Qed.

Lemma Split_Join (s : string) (sep : ascii) :
  Join_str (Split s sep) (String sep EmptyString) = s.
Proof.
  induction s as [|c s IH]; simpl; [reflexivity|].
  destruct (Ascii.eqb c sep) eqn:Ec.
  - apply Ascii.eqb_eq in Ec; subst c.
    pose proof (Split_nonempty s sep) as Hne.
    destruct (Split s sep) as [|seg segs]; [contradiction|].
    simpl in *. now rewrite IH.
  - pose proof (Split_nonempty s sep) as Hne.
    destruct (Split s sep) as [|seg segs]; [contradiction|].
    destruct segs as [|seg' segs]; simpl in *; now rewrite <- IH.
Qed.

Lemma Split_no_sep (s : string) (sep : ascii) :
  Forall (fun seg => countByte sep seg = O) (Split s sep).
Proof.
  induction s as [|c s IH]; simpl.
  - constructor; [reflexivity|constructor].
  - destruct (Ascii.eqb c sep) eqn:Ec.
    + constructor; [reflexivity|assumption].
    + destruct (Split s sep) as [|seg segs]; constructor.
      * simpl. now rewrite Ec.
      * constructor.
      * simpl. rewrite Ec. now inversion IH.
      * now inversion IH.
Qed.

(** ** Runs and their events *)

Lemma handle_facts (env : Env) (X : Type) (e : eff X) (w w' : World) (x : X) :
  handle env e w = Some (x, w') ->
  trace w' = trace w ++ [event_of e x] /\
  resp w' = respAfter (resp w) (event_of e x) /\
  locked w' = holdingAfter e (locked w).
Proof.
  unfold handle. destruct (answer env e w) as [[x' w1]|] eqn:Ea; [|discriminate].
  intros [= <- <-]. simpl.
  enough (resp w1 = respAfter (resp w) (event_of e x') /\
          locked w1 = holdingAfter e (locked w) /\ trace w1 = trace w) as (-> & -> & ->)
    by auto.
  destruct e; simpl in Ea; unfold create in Ea;
    repeat case_match; simplify_eq; simpl; auto.
Qed.

Lemma handle_blocks (env : Env) (X : Type) (e : eff X) (w : World) :
  handle env e w = None -> isLock e = true /\ locked w = true.
Proof.
  unfold handle. destruct (answer env e w) as [[x' w1]|] eqn:Ea; [discriminate|].
  intros _.
  destruct e; simpl in Ea; unfold create in Ea;
    repeat case_match; simplify_eq; simpl; auto.
Qed.

Lemma replay_app (evs1 evs2 : list event) (r : Response) :
  replay (evs1 ++ evs2) r = replay evs2 (replay evs1 r).
Proof. unfold replay. apply fold_left_app. Qed.

Lemma run_exec (env : Env) (A : Type) (p : prog A) (w w' : World) (o : Outcome A) :
  run env p w = (o, w') ->
  exists evs, exec p evs o /\ trace w' = trace w ++ evs /\
              resp w' = replay evs (resp w).
Proof.
  revert w. induction p as [a|v|X e k IH]; intros w; simpl.
  - intros [= <- <-]. exists []. rewrite app_nil_r. auto.
  - intros [= <- <-]. exists []. rewrite app_nil_r. auto.
  - destruct (handle env e w) as [[x w1]|] eqn:Eh.
    + intros Hr. apply IH in Hr as (evs & He & Ht & Hre).
      apply handle_facts in Eh as (Ht1 & Hr1 & _).
      exists (event_of e x :: evs). split; [right; eauto|].
      rewrite Ht, Ht1, <- app_assoc. split; [reflexivity|].
      rewrite Hre, Hr1. reflexivity.
    + intros [= <- <-]. apply handle_blocks in Eh as [Hl _].
      exists []. rewrite app_nil_r. auto.
Qed.

(** From a fresh world, the trace and the response are those of the run. *)
Lemma run_fresh (env : Env) (A : Type) (p : prog A) (w w' : World) (o : Outcome A) :
  fresh w -> run env p w = (o, w') ->
  exec p (trace w') o /\ resp w' = replay (trace w') noResponse.
Proof.
  intros [Hr Ht] Hrun. apply run_exec in Hrun as (evs & He & Ht' & Hr').
  rewrite Ht in Ht'. simpl in Ht'. subst evs. rewrite Hr in Hr'. auto.
Qed.

Lemma exec_bind (A B : Type) (p : prog A) (f : A -> prog B) (evs : list event)
    (o : Outcome B) :
  exec (bind p f) evs o ->
  (exists a evs1 evs2, exec p evs1 (Returned a) /\ exec (f a) evs2 o /\ evs = evs1 ++ evs2) \/
  (exists v, exec p evs (Panicked v) /\ o = Panicked v) \/
  (exec p evs Blocked /\ o = Blocked).
Proof.
  revert evs. induction p as [a|v|X e k IH]; intros evs; simpl.
  - intros H. left. exists a, [], evs. auto.
  - intros [-> ->]. right. left. eauto.
  - intros [(Hl & -> & ->)|(x & evs' & -> & H)].
    + right. right. auto.
    + apply IH in H as [(a & evs1 & evs2 & H1 & H2 & ->)|[(v & H1 & ->)|[H1 ->]]].
      * left. exists a, (event_of e x :: evs1), evs2. split; [right; eauto|auto].
      * right. left. exists v. split; [right; eauto|auto].
      * right. right. split; [right; eauto|auto].
Qed.

Lemma exec_perform (A X : Type) (e : eff X) (f : X -> prog A) (evs : list event)
    (o : Outcome A) :
  exec (bind (perform e) f) evs o ->
  (isLock e = true /\ evs = [] /\ o = Blocked) \/
  (exists x evs', evs = event_of e x :: evs' /\ exec (f x) evs' o).
Proof. simpl. auto. Qed.

Lemma exec_defer (A : Type) (d : prog unit) (p : prog A) (evs : list event)
    (o : Outcome A) :
  exec (defer d p) evs o ->
  exists evs1 o1, exec p evs1 o1 /\
    ((o1 = Blocked /\ evs = evs1 /\ o = Blocked) \/
     (o1 <> Blocked /\ exists evs2 o2, exec d evs2 o2 /\ evs = evs1 ++ evs2 /\
        o = afterDeferred o1 o2)).
Proof.
  revert evs. induction p as [a|v|X e k IH]; intros evs; simpl.
  - intros H. apply exec_bind in H as [(u & evs1 & evs2 & H1 & [-> ->] & ->)|[(v & H1 & ->)|[H1 ->]]].
    + exists [], (Returned a). split; [auto|]. right. split; [discriminate|].
      exists evs1, (Returned u). rewrite app_nil_r. auto.
    + exists [], (Returned a). split; [auto|]. right. split; [discriminate|].
      exists evs, (Panicked v). auto.
    + exists [], (Returned a). split; [auto|]. right. split; [discriminate|].
      exists evs, Blocked. auto.
  - intros H. apply exec_bind in H as [(u & evs1 & evs2 & H1 & [-> ->] & ->)|[(v' & H1 & ->)|[H1 ->]]].
    + exists [], (Panicked v). split; [auto|]. right. split; [discriminate|].
      exists evs1, (Returned u). rewrite app_nil_r. auto.
    + exists [], (Panicked v). split; [auto|]. right. split; [discriminate|].
      exists evs, (Panicked v'). auto.
    + exists [], (Panicked v). split; [auto|]. right. split; [discriminate|].
      exists evs, Blocked. auto.
  - intros [(Hl & -> & ->)|(x & evs' & -> & H)].
    + exists [], Blocked. split; [left; auto|]. left. auto.
    + apply IH in H as (evs1 & o1 & H1 & H2).
      exists (event_of e x :: evs1), o1. split; [right; eauto|].
      destruct H2 as [(-> & -> & ->)|(Hnb & evs2 & o2 & Hd & -> & ->)].
      * left. auto.
      * right. split; [assumption|]. exists evs2, o2. auto.
Qed.

(** ** The dispatcher *)

Lemma run_perform (env : Env) (A X : Type) (e : eff X) (f : X -> prog A) (w : World) :
  run env (bind (perform e) f) w =
  match handle env e w with
  | Some (x, w') => run env (f x) w'
  | None => (Blocked, w)
  end.
Proof. reflexivity. Qed.

(** A reply with a status and a message, as every validation failure
    writes it, after one quiet event (the parse of the query). *)
Lemma run_reply_after (env : Env) (c : Z) (msg : string) (w : World) (ev : event) :
  fresh w -> quiet ev = true ->
  let res := run env (perform (WriteHeader c) ;; perform (Write msg) ;; Ret tt)%prog
                 (addEvent ev w) in
  responds res c msg /\ fs (snd res) = fs w /\ cwd (snd res) = cwd w /\
  trace (snd res) = [ev; EvWriteHeader c; EvWrite msg].
Proof.
  intros [Hr Ht] _. simpl. unfold responds, status, handle. simpl.
  rewrite Hr, Ht. simpl. auto.
Qed.

Lemma missing_header_mismatch (secret : string) (r : Request) :
  Header r !! "Authorization" = None -> secret <> EmptyString ->
  Get (Header r) "Authorization" <> secret.
Proof. unfold Get. intros -> Hs. congruence. Qed.

Lemma eqb_neq_false (a b : string) : a <> b -> String.eqb a b = false.
Proof. intros H. now apply String.eqb_neq. Qed.

(** C3. A request whose Authorization header differs from the secret, or
    has none (the secret is never empty: [main] refuses to start
    otherwise), is answered 401 with an empty body, in both variants, and
    the handler does nothing else: the only event of the run is the write
    of the header, so the query is not parsed, no file system call is
    made and no command is run. *)
Theorem C3_unauthorized_is_401_and_nothing_else
    (secret : string) (Quote : string -> string) (env : Env) (w : World) (r : Request) :
  Get (Header r) "Authorization" <> secret \/
    (Header r !! "Authorization" = None /\ secret <> EmptyString) ->
  fresh w ->
  forall handler,
    handler = Main_go.handler secret \/ handler = Part_000.handler secret Quote ->
    responds (run env (handler r) w) StatusUnauthorized EmptyString /\
    trace (snd (run env (handler r) w)) = [EvWriteHeader StatusUnauthorized] /\
    fs (snd (run env (handler r) w)) = fs w /\
    cwd (snd (run env (handler r) w)) = cwd w.
Proof.
  intros Hauth [Hr Ht] handler Hh.
  assert (Hne : Get (Header r) "Authorization" <> secret).
  { destruct Hauth as [H|[H1 H2]]; [assumption|].
    now apply missing_header_mismatch. }
  apply eqb_neq_false in Hne.
  destruct Hh as [-> | ->];
    unfold Main_go.handler, Part_000.handler; rewrite Hne; simpl;
    unfold responds, status, handle; simpl; rewrite Hr, Ht; simpl; auto.
Qed.

Lemma C3_witness :
  responds (run env0 (Part_000.handler theSecret Quote_ascii reqNoAuth) world0)
    StatusUnauthorized EmptyString /\
  trace (snd (run env0 (Part_000.handler theSecret Quote_ascii reqNoAuth) world0))
    = [EvWriteHeader StatusUnauthorized] /\
  fs (snd (run env0 (Part_000.handler theSecret Quote_ascii reqNoAuth) world0)) = fs world0 /\
  cwd (snd (run env0 (Part_000.handler theSecret Quote_ascii reqNoAuth) world0)) = cwd world0.
Proof.
  apply (C3_unauthorized_is_401_and_nothing_else theSecret Quote_ascii env0 world0 reqNoAuth).
  - right. split; [reflexivity | discriminate].
  - split; reflexivity.
  - right. reflexivity.
Defined.

Lemma handle_ParseQuery (env : Env) (raw : string) (w : World) :
  handle env (ParseQuery raw) w = Some (parseQuery env raw, addEvent (EvParseQuery raw) w).
Proof. reflexivity. Qed.

(** What both dispatchers do with an authorized request, up to the choice
    of the runner. *)
Lemma Main_go_dispatch (secret : string) (env : Env) (w : World) (r : Request) :
  Get (Header r) "Authorization" = secret ->
  run env (Main_go.handler secret r) w =
  let w1 := addEvent (EvParseQuery (RawQuery r)) w in
  match parseQuery env (RawQuery r) with
  | (_, Some e) =>
      run env (perform (WriteHeader StatusBadRequest) ;; perform (Write (Error e)) ;; Ret tt)%prog w1
  | (query, None) =>
      if String.eqb (Get query "test_type") testTypeAndroid then
        run env (runAndroidTest r query) w1
      else if String.eqb (Get query "test_type") testTypeIOS then
        run env (perform (WriteHeader StatusInternalServerError) ;; Ret tt)%prog w1
      else
        run env (perform (WriteHeader StatusBadRequest) ;;
                 perform (Write "must specify 'test_type'") ;; Ret tt)%prog w1
  end.
Proof.
  intros Hauth. unfold Main_go.handler. rewrite Hauth, String.eqb_refl.
  cbn [negb]. rewrite run_perform, handle_ParseQuery.
  destruct (parseQuery env (RawQuery r)) as [query [e|]]; cbv zeta; [reflexivity|].
  destruct (String.eqb (Get query "test_type") testTypeAndroid); [reflexivity|].
  destruct (String.eqb (Get query "test_type") testTypeIOS); reflexivity.
Qed.

Lemma Part_000_dispatch (secret : string) (Quote : string -> string) (env : Env)
    (w : World) (r : Request) :
  Get (Header r) "Authorization" = secret ->
  run env (Part_000.handler secret Quote r) w =
  let w1 := addEvent (EvParseQuery (RawQuery r)) w in
  match parseQuery env (RawQuery r) with
  | (_, Some e) =>
      run env (perform (WriteHeader StatusBadRequest) ;; perform (Write (Error e)) ;; Ret tt)%prog w1
  | (query, None) =>
      if String.eqb (Get query "test_type") testTypeAndroid then
        run env (runAndroidTest r query) w1
      else if String.eqb (Get query "test_type") testTypeIOS then
        run env (Part_000.runIOSTest Quote r query) w1
      else
        run env (perform (WriteHeader StatusBadRequest) ;;
                 perform (Write "must specify 'test_type'") ;; Ret tt)%prog w1
  end.
Proof.
  intros Hauth. unfold Part_000.handler. rewrite Hauth, String.eqb_refl.
  cbn [negb]. rewrite run_perform, handle_ParseQuery.
  destruct (parseQuery env (RawQuery r)) as [query [e|]]; cbv zeta; [reflexivity|].
  destruct (String.eqb (Get query "test_type") testTypeAndroid); [reflexivity|].
  destruct (String.eqb (Get query "test_type") testTypeIOS); reflexivity.
Qed.

(** C7. An authorized request whose query string does not parse is
    answered 400 with the text of the parse error; one whose query parses
    and whose [test_type] is neither [android] nor [ios] (absent or
    anything else) is answered 400 with the body
    [must specify 'test_type'].  Both variants. *)
Theorem C7_bad_query_and_unknown_type_are_400
    (secret : string) (Quote : string -> string) (env : Env) (w : World) (r : Request) :
  Get (Header r) "Authorization" = secret ->
  fresh w ->
  forall handler,
    handler = Main_go.handler secret \/ handler = Part_000.handler secret Quote ->
    (forall query e, parseQuery env (RawQuery r) = (query, Some e) ->
       responds (run env (handler r) w) StatusBadRequest (Error e)) /\
    (forall query, parseQuery env (RawQuery r) = (query, None) ->
       Get query "test_type" <> "android" -> Get query "test_type" <> "ios" ->
       responds (run env (handler r) w) StatusBadRequest "must specify 'test_type'").
Proof.
  intros Hauth Hfresh handler Hh.
  split.
  - intros query e Hp.
    destruct Hh as [-> | ->];
      [rewrite Main_go_dispatch by assumption | rewrite Part_000_dispatch by assumption];
      rewrite Hp; cbv zeta;
      now apply (run_reply_after env StatusBadRequest (Error e) w (EvParseQuery (RawQuery r))).
  - intros query Hp Ha Hi.
    apply eqb_neq_false in Ha, Hi.
    destruct Hh as [-> | ->];
      [rewrite Main_go_dispatch by assumption | rewrite Part_000_dispatch by assumption];
      rewrite Hp; cbv zeta; unfold testTypeAndroid, testTypeIOS; rewrite Ha, Hi;
      now apply (run_reply_after env StatusBadRequest "must specify 'test_type'" w
                   (EvParseQuery (RawQuery r))).
Qed.

Lemma C7_witness :
  responds (run env0 (Part_000.handler theSecret Quote_ascii reqBadQuery) world0)
    StatusBadRequest "invalid URL escape" /\
  responds (run env0 (Main_go.handler theSecret reqNoType) world0)
    StatusBadRequest "must specify 'test_type'".
Proof.
  split.
  - refine (proj1 (C7_bad_query_and_unknown_type_are_400 theSecret Quote_ascii env0 world0
             reqBadQuery _ _ _ _) (fst (ParseQuery_model (RawQuery reqBadQuery)))
             escapeError _).
    + reflexivity.
    + split; reflexivity.
    + right. reflexivity.
    + vm_compute. reflexivity.
  - refine (proj2 (C7_bad_query_and_unknown_type_are_400 theSecret Quote_ascii env0 world0
             reqNoType _ _ _ _) (fst (ParseQuery_model (RawQuery reqNoType))) _ _ _).
    + reflexivity.
    + split; reflexivity.
    + left. reflexivity.
    + vm_compute. reflexivity.
    + vm_compute. discriminate.
    + vm_compute. discriminate.
Defined.

(** C6. An authorized request that lacks (or leaves empty) the parameter
    its runner requires is answered 400 before any I/O: the run consists
    of parsing the query and writing the reply, the file system and the
    working directory are unchanged, and no command is run.  Android (both
    variants) requires [test_package]; iOS requires [test_destination],
    checked first, and [test_schemes]. *)
Theorem C6_missing_parameter_fails_before_io
    (secret : string) (Quote : string -> string) (env : Env) (w : World) (r : Request)
    (query : gmap string (list string)) :
  Get (Header r) "Authorization" = secret ->
  fresh w ->
  parseQuery env (RawQuery r) = (query, None) ->
  (Get query "test_type" = "android" -> Get query "test_package" = EmptyString ->
     forall handler,
       handler = Main_go.handler secret \/ handler = Part_000.handler secret Quote ->
       repliedOnly (run env (handler r) w) w (RawQuery r)
         StatusBadRequest "must specify 'test_package'") /\
  (Get query "test_type" = "ios" -> Get query "test_destination" = EmptyString ->
     repliedOnly (run env (Part_000.handler secret Quote r) w) w (RawQuery r)
       StatusBadRequest "must specify 'test_destination'") /\
  (Get query "test_type" = "ios" -> Get query "test_destination" <> EmptyString ->
     Get query "test_schemes" = EmptyString ->
     repliedOnly (run env (Part_000.handler secret Quote r) w) w (RawQuery r)
       StatusBadRequest "must specify 'test_schemes'").
Proof.
  intros Hauth Hfresh Hp. unfold repliedOnly. split; [|split].
  - intros Ht Hpkg handler [-> | ->];
      [rewrite Main_go_dispatch by assumption | rewrite Part_000_dispatch by assumption];
      rewrite Hp; cbv zeta; rewrite Ht; cbn [String.eqb testTypeAndroid Ascii.eqb Bool.eqb];
      unfold runAndroidTest; rewrite Hpkg; cbn [String.eqb];
      now apply (run_reply_after env StatusBadRequest "must specify 'test_package'" w
                   (EvParseQuery (RawQuery r))).
  - intros Ht Hd; rewrite Part_000_dispatch by assumption;
      rewrite Hp; cbv zeta; rewrite Ht;
      cbn [String.eqb testTypeAndroid testTypeIOS Ascii.eqb Bool.eqb];
      unfold Part_000.runIOSTest; rewrite Hd; cbn [String.eqb];
      now apply (run_reply_after env StatusBadRequest "must specify 'test_destination'" w
                   (EvParseQuery (RawQuery r))).
  - intros Ht Hd Hs; apply eqb_neq_false in Hd; rewrite Part_000_dispatch by assumption;
      rewrite Hp; cbv zeta; rewrite Ht;
      cbn [String.eqb testTypeAndroid testTypeIOS Ascii.eqb Bool.eqb];
      unfold Part_000.runIOSTest; rewrite Hd, Hs; cbn [String.eqb];
      now apply (run_reply_after env StatusBadRequest "must specify 'test_schemes'" w
                   (EvParseQuery (RawQuery r))).
Qed.

Lemma C6_witness :
  repliedOnly (run env0 (Main_go.handler theSecret reqAndroidNoPackage) world0) world0
    (RawQuery reqAndroidNoPackage) StatusBadRequest "must specify 'test_package'" /\
  repliedOnly (run env0 (Part_000.handler theSecret Quote_ascii reqIOSNoDestination) world0)
    world0 (RawQuery reqIOSNoDestination) StatusBadRequest "must specify 'test_destination'" /\
  repliedOnly (run env0 (Part_000.handler theSecret Quote_ascii reqIOSNoSchemes) world0)
    world0 (RawQuery reqIOSNoSchemes) StatusBadRequest "must specify 'test_schemes'".
Proof.
  split; [|split].
  - refine (proj1 (C6_missing_parameter_fails_before_io theSecret Quote_ascii env0 world0
      reqAndroidNoPackage (fst (ParseQuery_model (RawQuery reqAndroidNoPackage))) _ _ _)
      _ _ _ _).
    + reflexivity.
    + split; reflexivity.
    + vm_compute. reflexivity.
    + vm_compute. reflexivity.
    + vm_compute. reflexivity.
    + left. reflexivity.
  - refine (proj1 (proj2 (C6_missing_parameter_fails_before_io theSecret Quote_ascii env0
      world0 reqIOSNoDestination (fst (ParseQuery_model (RawQuery reqIOSNoDestination)))
      _ _ _)) _ _).
    + reflexivity.
    + split; reflexivity.
    + vm_compute. reflexivity.
    + vm_compute. reflexivity.
    + vm_compute. reflexivity.
  - refine (proj2 (proj2 (C6_missing_parameter_fails_before_io theSecret Quote_ascii env0
      world0 reqIOSNoSchemes (fst (ParseQuery_model (RawQuery reqIOSNoSchemes)))
      _ _ _)) _ _ _).
    + reflexivity.
    + split; reflexivity.
    + vm_compute. reflexivity.
    + vm_compute. reflexivity.
    + vm_compute. discriminate.
    + vm_compute. reflexivity.
Defined.

(** ** The two variants *)

(** C8. On every request that does not reach the iOS runner (failed
    authorization, query parse failure, unknown [test_type], every
    [android] request) the two variants run identically: same outcome,
    same response, same world.  On an authorized [test_type=ios] request
    [src/main.go] answers 500 with an empty body and touches nothing,
    while [src/unnamed/part_000] runs [runIOSTest]. *)
Theorem C8_variants_differ_only_on_ios
    (secret : string) (Quote : string -> string) (env : Env) (w : World) (r : Request) :
  ((forall query, ~ reachesIOS secret env r query) ->
     run env (Main_go.handler secret r) w = run env (Part_000.handler secret Quote r) w) /\
  (forall query, reachesIOS secret env r query ->
     run env (Part_000.handler secret Quote r) w =
       run env (Part_000.runIOSTest Quote r query) (addEvent (EvParseQuery (RawQuery r)) w) /\
     (fresh w ->
        responds (run env (Main_go.handler secret r) w) StatusInternalServerError EmptyString /\
        fs (snd (run env (Main_go.handler secret r) w)) = fs w /\
        trace (snd (run env (Main_go.handler secret r) w)) =
          [EvParseQuery (RawQuery r); EvWriteHeader StatusInternalServerError])).
Proof.
  split.
  - intros Hno.
    destruct (String.eqb (Get (Header r) "Authorization") secret) eqn:Hauth.
    + apply String.eqb_eq in Hauth.
      rewrite Main_go_dispatch, Part_000_dispatch by assumption. cbv zeta.
      destruct (parseQuery env (RawQuery r)) as [query [e|]] eqn:Hp; [reflexivity|].
      destruct (String.eqb (Get query "test_type") testTypeAndroid); [reflexivity|].
      destruct (String.eqb (Get query "test_type") testTypeIOS) eqn:Hi; [|reflexivity].
      apply String.eqb_eq in Hi. exfalso. apply (Hno query). repeat split; assumption.
    + unfold Main_go.handler, Part_000.handler. rewrite Hauth. reflexivity.
  - intros query (Hauth & Hp & Hi). split.
    + rewrite Part_000_dispatch by assumption. rewrite Hp. cbv zeta. rewrite Hi. reflexivity.
    + intros [Hr Ht]. rewrite Main_go_dispatch by assumption. rewrite Hp. cbv zeta.
      rewrite Hi. simpl. unfold responds, status, handle. simpl. rewrite Hr, Ht. auto.
Qed.

Lemma C8_witness :
  run env0 (Main_go.handler theSecret reqAndroid) world0 =
    run env0 (Part_000.handler theSecret Quote_ascii reqAndroid) world0 /\
  responds (run env0 (Main_go.handler theSecret (reqIOS "App" upload)) world0)
    StatusInternalServerError EmptyString.
Proof.
  split.
  - apply (proj1 (C8_variants_differ_only_on_ios theSecret Quote_ascii env0 world0 reqAndroid)).
    intros query (_ & Hp & Hi). apply (f_equal fst) in Hp. cbn [fst] in Hp.
    rewrite <- Hp in Hi. vm_compute in Hi. discriminate Hi.
  - refine (proj1 (proj2 (proj2 (C8_variants_differ_only_on_ios theSecret Quote_ascii env0
      world0 (reqIOS "App" upload)) (fst (ParseQuery_model (RawQuery (reqIOS "App" upload)))) _)
      _)).
    + repeat split; vm_compute; reflexivity.
    + split; reflexivity.
Defined.

(** ** Stepping through a handler *)

Lemma loud_app (a b : list event) : loud (a ++ b) = loud a ++ loud b.
Proof.
  induction a as [|ev a IH]; simpl; [reflexivity|].
  destruct (quiet ev); simpl; congruence.
Qed.

Lemma loud_Quiet (evs : list event) : Quiet evs -> loud evs = [].
Proof.
  induction 1 as [|ev evs Hq _ IH]; [reflexivity|].
  simpl. now rewrite Hq.
Qed.

Lemma loud_cons (ev : event) (evs : list event) :
  loud (ev :: evs) = if quiet ev then loud evs else ev :: loud evs.
Proof. reflexivity. Qed.

Lemma replay_loud (evs : list event) (r : Response) : replay (loud evs) r = replay evs r.
Proof.
  revert r. induction evs as [|ev evs IH]; intros r; [reflexivity|].
  rewrite loud_cons. destruct ev; simpl; apply IH.
Qed.

Lemma commands_loud (evs : list event) : commands (loud evs) = commands evs.
Proof.
  induction evs as [|ev evs IH]; [reflexivity|].
  rewrite loud_cons. destruct ev; simpl; congruence.
Qed.


Lemma In_loud (ev : event) (evs : list event) :
  quiet ev = false -> In ev evs -> In ev (loud evs).
Proof.
  intros Hq. induction evs as [|ev' evs IH]; simpl; [auto|].
  intros [-> | Hin].
  - rewrite Hq. now left.
  - destruct (quiet ev'); [auto|right; auto].
Qed.

Lemma exec_randomLoop (alpha : list ascii) (n : nat) (buf : string) (evs : list event)
    (o : Outcome string) :
  exec (randomLoop alpha n buf) evs o -> Quiet evs /\ o <> Blocked.
Proof.
  revert buf evs. induction n as [|n IH]; intros buf evs; simpl.
  - intros [-> ->]. split; [constructor|discriminate].
  - intros [(Hl & _)|(x & evs' & -> & H)]; [discriminate|].
    destruct x as [val|err]; simpl in H.
    + destruct (val <? 0); [destruct H as [-> ->]; split; [repeat constructor|discriminate]|].
      destruct (alpha !! Z.to_nat val) as [c|].
      * apply IH in H as [HQ Hb]. split; [constructor; [reflexivity|assumption]|assumption].
      * destruct H as [-> ->]. split; [repeat constructor|discriminate].
    + destruct H as [-> ->]. split; [repeat constructor|discriminate].
Qed.

Lemma exec_Random (A : Type) (n : Z) (k : string -> prog A) (evs : list event)
    (o : Outcome A) :
  exec (bind (RandomAlphaNumericString n) k) evs o ->
  (exists s evs1 evs2, Quiet evs1 /\ evs = evs1 ++ evs2 /\ exec (k s) evs2 o) \/
  (exists v, Quiet evs /\ o = Panicked v).
Proof.
  intros H. apply exec_bind in H as [(s & evs1 & evs2 & H1 & H2 & ->)|[(v & H1 & ->)|[H1 ->]]].
  - apply exec_randomLoop in H1 as [HQ _]. left. eauto 10.
  - apply exec_randomLoop in H1 as [HQ _]. right. eauto.
  - apply exec_randomLoop in H1 as [_ Hb]. congruence.
Qed.

Lemma exec_teeChunks (cs : list string) (rerr : option error) (f : option File)
    (evs : list event) (o : Outcome (option error)) :
  exec (teeChunks cs rerr f) evs o ->
  Quiet evs /\ exists res, o = Returned res /\
    (f = None -> evs = [] /\
       res = if existsb (fun c => negb (String.eqb c EmptyString)) cs
             then Some ErrInvalid else rerr).
Proof.
  revert evs. induction cs as [|c cs IH]; intros evs; simpl.
  - intros [-> ->]. split; [constructor|]. eauto.
  - destruct (String.eqb c EmptyString); simpl; [apply IH|].
    destruct f as [fl|]; simpl.
    + intros [(Hl & _)|(x & evs' & -> & H)]; [discriminate|].
      destruct x as [e|].
      * destruct H as [-> ->]. split; [repeat constructor|].
        eexists. split; [reflexivity|discriminate].
      * apply IH in H as (HQ & res & -> & _). split; [constructor; [reflexivity|assumption]|].
        eexists. split; [reflexivity|discriminate].
    + intros [-> ->]. split; [constructor|]. eauto.
Qed.

Lemma exec_Tee (A : Type) (b : Body) (f : option File) (k : option error -> prog A)
    (evs : list event) (o : Outcome A) :
  exec (bind (ReadAll_TeeReader b f) k) evs o ->
  exists res evs1 evs2, Quiet evs1 /\ evs = evs1 ++ evs2 /\ exec (k res) evs2 o /\
    (f = None -> evs1 = [] /\ res = teeIntoNil b).
Proof.
  intros H. apply exec_bind in H as [(s & evs1 & evs2 & H1 & H2 & ->)|[(v & H1 & ->)|[H1 ->]]];
    apply exec_teeChunks in H1 as (HQ & res & Ho & Hn); [|discriminate..].
  injection Ho as <-. exists s, evs1, evs2. auto.
Qed.

Lemma exec_File_Name (A : Type) (f : option File) (k : string -> prog A)
    (evs : list event) (o : Outcome A) :
  exec (bind (File_Name f) k) evs o ->
  (exists fl, f = Some fl /\ exec (k (Name fl)) evs o) \/
  (f = None /\ evs = [] /\ o = Panicked nilDeref).
Proof. destruct f as [fl|]; simpl; [eauto|intros [-> ->]; auto]. Qed.

Lemma exec_File_Close (A : Type) (f : option File) (k : option error -> prog A)
    (evs : list event) (o : Outcome A) :
  exec (bind (File_Close f) k) evs o ->
  exists x evs1 evs2, Quiet evs1 /\ evs = evs1 ++ evs2 /\ exec (k x) evs2 o.
Proof.
  destruct f as [fl|]; simpl.
  - intros [(Hl & _)|(x & evs' & -> & H)]; [discriminate|].
    exists x, [EvFileClose fl], evs'. repeat split; [repeat constructor|assumption].
  - intros H. exists (Some ErrInvalid), [], evs. repeat split; [constructor|assumption].
Qed.

Lemma exec_Error_of (A : Type) (err : option error) (k : string -> prog A)
    (evs : list event) (o : Outcome A) :
  exec (bind (Error_of err) k) evs o ->
  (exists e, err = Some e /\ exec (k (Error e)) evs o) \/
  (err = None /\ evs = [] /\ o = Panicked nilDeref).
Proof. destruct err as [e|]; simpl; [eauto|intros [-> ->]; auto]. Qed.

(** A deferred call that performs one effect that never blocks. *)
Lemma exec_defer_one (A X : Type) (e : eff X) (p : prog A)
    (evs : list event) (o : Outcome A) :
  isLock e = false ->
  exec (defer (perform e ;; Ret tt)%prog p) evs o ->
  exists evs1, exec p evs1 o /\
    ((o = Blocked /\ evs = evs1) \/ (o <> Blocked /\ exists x, evs = evs1 ++ [event_of e x])).
Proof.
  intros Hl H. apply exec_defer in H as (evs1 & o1 & Hp & Hcases).
  destruct Hcases as [(-> & -> & ->)|(Hnb & evs2 & o2 & Hdx & -> & ->)].
  - exists evs1. auto.
  - simpl in Hdx. destruct Hdx as [(Hl' & _)|(x & evs' & -> & [-> ->])]; [congruence|].
    exists evs1. split; [assumption|]. right. split; [assumption|eauto].
Qed.

Lemma exec_defer_Unlock (A : Type) (p : prog A) (evs : list event) (o : Outcome A) :
  exec (defer (perform Unlock) p) evs o ->
  exists evs1, exec p evs1 o /\
    ((o = Blocked /\ evs = evs1) \/ (o <> Blocked /\ evs = evs1 ++ [EvUnlock])).
Proof.
  intros H. apply exec_defer in H as (evs1 & o1 & Hp & Hcases).
  destruct Hcases as [(-> & -> & ->)|(Hnb & evs2 & o2 & Hdx & -> & ->)].
  - exists evs1. auto.
  - simpl in Hdx. destruct Hdx as [(Hl' & _)|(x & evs' & -> & [-> ->])]; [discriminate|].
    exists evs1. split; [assumption|]. right. split; [assumption|reflexivity].
Qed.

(** One step through the program of the hypothesis [H : exec p evs o]. *)
Ltac settle E :=
  first [ discriminate E
        | match type of E with ?a = ?b => is_var a; subst a end
        | match type of E with ?a = ?b => is_var b; subst b end
        | injection E as E; settle E
        | clear E ].

Ltac exec_step H :=
  let E1 := fresh "E" in
  let E2 := fresh "E" in
  let E3 := fresh "E" in
  let HQ := fresh "HQ" in
  lazymatch type of H with
  | exec (bind (perform _) _) _ _ =>
      apply exec_perform in H;
      destruct H as [(E1 & E2 & E3)|(? & ? & E1 & H)];
      [first [discriminate E1 | settle E2; settle E3] | settle E1; cbv beta in H]
  | exec (bind (RandomAlphaNumericString _) _) _ _ =>
      apply exec_Random in H;
      destruct H as [(? & ? & ? & HQ & E1 & H)|(? & HQ & E1)]; settle E1
  | exec (bind (ReadAll_TeeReader _ _) _) _ _ =>
      apply exec_Tee in H;
      destruct H as (? & ? & ? & HQ & E1 & H & E2); settle E1
  | exec (bind (File_Name _) _) _ _ =>
      apply exec_File_Name in H;
      destruct H as [(? & E1 & H)|(E1 & E2 & E3)];
      [settle E1 | settle E1; settle E2; settle E3]
  | exec (bind (File_Close _) _) _ _ =>
      apply exec_File_Close in H;
      destruct H as (? & ? & ? & HQ & E1 & H); settle E1
  | exec (bind (Error_of _) _) _ _ =>
      apply exec_Error_of in H;
      destruct H as [(? & E1 & H)|(E1 & E2 & E3)];
      [settle E1 | settle E1; settle E2; settle E3]
  | exec (defer (perform Unlock) _) _ _ =>
      apply exec_defer_Unlock in H;
      destruct H as (? & H & [(E1 & E2)|(E1 & E2)]);
      [settle E1; settle E2 | settle E2]
  | exec (defer (bind (perform _) _) _) _ _ =>
      apply exec_defer_one in H; [|reflexivity];
      destruct H as (? & H & [(E1 & E2)|(E1 & ? & E2)]);
      [settle E1; settle E2 | settle E2]
  | exec (Ret _) _ _ => destruct H as [E1 E2]; settle E1; settle E2
  | exec (Panic _) _ _ => destruct H as [E1 E2]; settle E1; settle E2
  | exec (if ?c then _ else _) _ _ => destruct c eqn:?
  | exec (match ?x with _ => _ end) _ _ => destruct x eqn:?
  end.

(** Computing the loud events of a run that was stepped through. *)
Ltac norm :=
  cbn [event_of fst snd];
  repeat (rewrite loud_app || (progress cbn [loud quiet app]) ||
          rewrite loud_Quiet by assumption).

(** Deciding [In ev l] for an explicit list [l]. *)
Ltac in_cases H :=
  cbn [In] in H;
  repeat (destruct H as [H|H];
          [first [discriminate H | injection H; intros; subst] | ]);
  try contradiction.

Lemma append_assoc (a b c : string) : (a +:+ b) +:+ c = a +:+ b +:+ c.
Proof.
  induction a as [|x a IH]; [reflexivity|].
  change (String x ((a +:+ b) +:+ c) = String x (a +:+ b +:+ c)). now rewrite IH.
Qed.

Lemma append_nil_l (a : string) : EmptyString +:+ a = a.
Proof. reflexivity. Qed.

Lemma append_nil_r (a : string) : a +:+ EmptyString = a.
Proof.
  induction a as [|x a IH]; [reflexivity|].
  change (String x (a +:+ EmptyString) = String x a). now rewrite IH.
Qed.

(** The response a stepped-through run leaves. *)
Ltac response :=
  cbv [replay fold_left respAfter writeHeader write code written noResponse default
       commands];
  rewrite ?append_nil_l, ?append_assoc.

(** ** The Android runner *)

Lemma runAndroidTest_tools (r : Request) (query : gmap string (list string))
    (evs : list event) (o : Outcome unit) :
  exec (runAndroidTest r query) evs o ->
  (forall apk out e,
     In (EvExec "adb" ["install"; "-r"; apk] out (Some e)) (loud evs) ->
     o = Returned tt /\
     replay (loud evs) noResponse = mkResponse (Some StatusBadRequest) (Error e +:+ nl +:+ out) /\
     commands (loud evs) = [("adb", ["install"; "-r"; apk])]) /\
  (forall arg out e,
     In (EvExec "adb" ("shell" :: arg) out (Some e)) (loud evs) ->
     o = Returned tt /\
     replay (loud evs) noResponse = mkResponse (Some StatusBadRequest) (Error e +:+ nl +:+ out) /\
     exists apk, commands (loud evs) =
       [("adb", ["install"; "-r"; apk]); ("adb", instrumentArgs (Get query "test_package"))]) /\
  (forall arg out,
     In (EvExec "adb" ("shell" :: arg) out None) (loud evs) ->
     o = Returned tt /\
     replay (loud evs) noResponse = mkResponse (Some StatusOK) out /\
     (forall c, ~ In (EvWriteHeader c) (loud evs)) /\
     exists apk, commands (loud evs) =
       [("adb", ["install"; "-r"; apk]); ("adb", instrumentArgs (Get query "test_package"))]).
Proof.
  intros H. unfold runAndroidTest in H. cbv zeta in H.
  repeat exec_step H; norm.
  all: split; [|split].
  all: try (intros apk out err Hin; in_cases Hin; fail).
  all: try (intros arg out err Hin; in_cases Hin; fail).
  all: try (intros arg out Hin; in_cases Hin; fail).
  - intros apk out err Hin; in_cases Hin. response. auto.
  - intros arg out err Hin; in_cases Hin. response. eauto.
  - intros arg out Hin; in_cases Hin. response.
    repeat split; eauto. intros c Hc. in_cases Hc.
Qed.

Lemma responds_of_response (o : Outcome unit) (w : World) (st : Z) (b : string) :
  o = Returned tt -> resp w = mkResponse (Some st) b -> responds (o, w) st b.
Proof. intros -> Hr. unfold responds, status. cbn [fst snd]. rewrite Hr. auto. Qed.

(** C5. In the Android runner: when [adb install] fails, the response is
    400 with the error text, a line feed and the command's output, and
    [adb install] is the only command run; when the install succeeds and
    the instrumentation fails, the response is 400 with that command's
    error text, line feed and output; when both succeed the status is the
    default 200 (no header is ever written explicitly) and the body is
    exactly the output of the instrumentation.  The run returns in all
    three cases. *)
Theorem C5_android_command_results
    (env : Env) (w w' : World) (r : Request) (query : gmap string (list string))
    (o : Outcome unit) :
  fresh w ->
  run env (runAndroidTest r query) w = (o, w') ->
  (forall apk out e,
     In (EvExec "adb" ["install"; "-r"; apk] out (Some e)) (trace w') ->
     responds (o, w') StatusBadRequest (Error e +:+ nl +:+ out) /\
     commands (trace w') = [("adb", ["install"; "-r"; apk])]) /\
  (forall arg out e,
     In (EvExec "adb" ("shell" :: arg) out (Some e)) (trace w') ->
     responds (o, w') StatusBadRequest (Error e +:+ nl +:+ out) /\
     exists apk, commands (trace w') =
       [("adb", ["install"; "-r"; apk]); ("adb", instrumentArgs (Get query "test_package"))]) /\
  (forall arg out,
     In (EvExec "adb" ("shell" :: arg) out None) (trace w') ->
     responds (o, w') StatusOK out /\
     (forall c, ~ In (EvWriteHeader c) (trace w')) /\
     exists apk, commands (trace w') =
       [("adb", ["install"; "-r"; apk]); ("adb", instrumentArgs (Get query "test_package"))]).
Proof.
  intros Hfresh Hrun.
  destruct (run_fresh _ _ _ _ _ _ Hfresh Hrun) as [Hex Hresp].
  apply runAndroidTest_tools in Hex as (H1 & H2 & H3).
  rewrite <- replay_loud in Hresp. rewrite <- commands_loud.
  split; [|split].
  - intros apk out e Hin. apply In_loud in Hin; [|reflexivity].
    destruct (H1 _ _ _ Hin) as (Ho & Hr & Hc). rewrite Hr in Hresp.
    split; [now apply responds_of_response|assumption].
  - intros arg out e Hin. apply In_loud in Hin; [|reflexivity].
    destruct (H2 _ _ _ Hin) as (Ho & Hr & Hc). rewrite Hr in Hresp.
    split; [now apply responds_of_response|assumption].
  - intros arg out Hin. apply In_loud in Hin; [|reflexivity].
    destruct (H3 _ _ Hin) as (Ho & Hr & Hn & Hc). rewrite Hr in Hresp.
    split; [now apply responds_of_response|]. split; [|assumption].
    intros c Hc'. apply (Hn c). now apply In_loud.
Qed.

Lemma C5_witness :
  responds (run envNoDevice (runAndroidTest reqAndroid
              (fst (ParseQuery_model (RawQuery reqAndroid)))) world0)
    StatusBadRequest ("exit status 1" +:+ nl +:+ "error: no devices/emulators found") /\
  responds (run envCrashing (runAndroidTest reqAndroid
              (fst (ParseQuery_model (RawQuery reqAndroid)))) world0)
    StatusBadRequest ("exit status 1" +:+ nl +:+ "INSTRUMENTATION_FAILED") /\
  responds (run env0 (runAndroidTest reqAndroid
              (fst (ParseQuery_model (RawQuery reqAndroid)))) world0)
    StatusOK "Success".
Proof.
  split; [|split].
  - pose proof (C5_android_command_results envNoDevice world0
      (snd (run envNoDevice (runAndroidTest reqAndroid
              (fst (ParseQuery_model (RawQuery reqAndroid)))) world0))
      reqAndroid (fst (ParseQuery_model (RawQuery reqAndroid)))
      (fst (run envNoDevice (runAndroidTest reqAndroid
              (fst (ParseQuery_model (RawQuery reqAndroid)))) world0))
      (conj eq_refl eq_refl) (surjective_pairing _)) as (H & _ & _).
    rewrite (surjective_pairing (run _ _ _)).
    apply (H "/tmp/test_abcde.apk" "error: no devices/emulators found"
             (errorString "exit status 1")).
    vm_compute. repeat (first [left; reflexivity | right]).
  - pose proof (C5_android_command_results envCrashing world0
      (snd (run envCrashing (runAndroidTest reqAndroid
              (fst (ParseQuery_model (RawQuery reqAndroid)))) world0))
      reqAndroid (fst (ParseQuery_model (RawQuery reqAndroid)))
      (fst (run envCrashing (runAndroidTest reqAndroid
              (fst (ParseQuery_model (RawQuery reqAndroid)))) world0))
      (conj eq_refl eq_refl) (surjective_pairing _)) as (_ & H & _).
    rewrite (surjective_pairing (run _ _ _)).
    apply (H ["am"; "instrument"; "-w";
              "com.example.app/android.support.test.runner.AndroidJUnitRunner"]
             "INSTRUMENTATION_FAILED" (errorString "exit status 1")).
    vm_compute. repeat (first [left; reflexivity | right]).
  - pose proof (C5_android_command_results env0 world0
      (snd (run env0 (runAndroidTest reqAndroid
              (fst (ParseQuery_model (RawQuery reqAndroid)))) world0))
      reqAndroid (fst (ParseQuery_model (RawQuery reqAndroid)))
      (fst (run env0 (runAndroidTest reqAndroid
              (fst (ParseQuery_model (RawQuery reqAndroid)))) world0))
      (conj eq_refl eq_refl) (surjective_pairing _)) as (_ & _ & H).
    rewrite (surjective_pairing (run _ _ _)).
    apply (H ["am"; "instrument"; "-w";
              "com.example.app/android.support.test.runner.AndroidJUnitRunner"]
             "Success").
    vm_compute. repeat (first [left; reflexivity | right]).
Defined.

(** ** The iOS runner *)

Lemma exec_testScheme (Quote : string -> string) (dest : string) (failed0 : bool)
    (scheme : string) (evs : list event) (o : Outcome bool) :
  exec (Part_000.testScheme Quote dest failed0 scheme) evs o ->
  exists result, evs = schemeEvents Quote dest scheme result /\
                 o = Returned (failed0 || failed result).
Proof.
  intros H. unfold Part_000.testScheme in H. cbv zeta in H.
  repeat exec_step H; cbn [event_of fst snd].
  - exists (s, Some e). split; [reflexivity|]. now rewrite orb_true_r.
  - exists (s, None). split; [reflexivity|]. now rewrite orb_false_r.
Qed.

Lemma exec_testLoop (Quote : string -> string) (dest : string) (schemes : list string)
    (failed0 : bool) (evs : list event) (o : Outcome bool) :
  exec (Part_000.testLoop Quote dest schemes failed0) evs o ->
  exists results, length results = length schemes /\
    evs = loopEvents Quote dest schemes results /\
    o = Returned (failed0 || existsb failed results).
Proof.
  revert failed0 evs. induction schemes as [|s schemes IH]; intros failed0 evs H.
  - destruct H as [-> ->]. exists []. rewrite orb_false_r. auto.
  - cbn [Part_000.testLoop] in H.
    apply exec_bind in H as [(f1 & evs1 & evs2 & H1 & H2 & ->)|[(v & H1 & ->)|[H1 ->]]];
      apply exec_testScheme in H1 as (result & -> & Ho); try discriminate Ho.
    injection Ho as ->. apply IH in H2 as (results & Hlen & -> & ->).
    exists (result :: results). cbn [length loopEvents existsb].
    rewrite Hlen, orb_assoc. auto.
Qed.

Lemma exec_Loop (A : Type) (Quote : string -> string) (dest : string)
    (schemes : list string) (failed0 : bool) (k : bool -> prog A)
    (evs : list event) (o : Outcome A) :
  exec (bind (Part_000.testLoop Quote dest schemes failed0) k) evs o ->
  exists results evs2, length results = length schemes /\
    evs = loopEvents Quote dest schemes results ++ evs2 /\
    exec (k (failed0 || existsb failed results)) evs2 o.
Proof.
  intros H.
  apply exec_bind in H as [(f1 & evs1 & evs2 & H1 & H2 & ->)|[(v & H1 & ->)|[H1 ->]]];
    apply exec_testLoop in H1 as (results & Hlen & -> & Ho); try discriminate Ho.
  injection Ho as ->. eauto.
Qed.

Lemma replay_schemeEvents (Quote : string -> string) (dest scheme : string)
    (result : string * option error) (r : Response) :
  replay (schemeEvents Quote dest scheme result) r =
  mkResponse (Some (default StatusOK (code r)))
    (written r +:+ schemeReport Quote dest scheme result).
Proof.
  unfold schemeEvents, schemeReport. destruct result as [out [e|]]; cbn [fst snd app];
    cbv [replay fold_left respAfter writeHeader write code written default];
    rewrite ?append_assoc; reflexivity.
Qed.

Lemma replay_loopEvents (Quote : string -> string) (dest : string)
    (schemes : list string) (results : list (string * option error)) (r : Response) :
  length results = length schemes ->
  replay (loopEvents Quote dest schemes results) r =
  match schemes with
  | [] => r
  | _ => mkResponse (Some (default StatusOK (code r)))
           (written r +:+ reports Quote dest schemes results)
  end.
Proof.
  revert results r. induction schemes as [|s schemes IH]; intros results r Hlen.
  - reflexivity.
  - destruct results as [|res results]; [discriminate|]. injection Hlen as Hlen.
    cbn [loopEvents reports]. rewrite replay_app, replay_schemeEvents, IH by assumption.
    destruct schemes as [|s' schemes].
    + destruct results; [|discriminate]. cbn [reports].
      now rewrite append_nil_r.
    + cbn [code written default]. rewrite append_assoc. reflexivity.
Qed.

Lemma commands_app (a b : list event) : commands (a ++ b) = commands a ++ commands b.
Proof.
  induction a as [|ev a IH]; [reflexivity|]. destruct ev; simpl; congruence.
Qed.

Lemma commands_loopEvents (Quote : string -> string) (dest : string)
    (schemes : list string) (results : list (string * option error)) :
  length results = length schemes ->
  commands (loopEvents Quote dest schemes results) =
  map (fun s => ("xcodebuild", xcodebuildArgs dest s)) schemes.
Proof.
  revert results. induction schemes as [|s schemes IH]; intros results Hlen; [reflexivity|].
  destruct results as [|res results]; [discriminate|]. injection Hlen as Hlen.
  cbn [loopEvents map]. rewrite commands_app, IH by assumption.
  unfold schemeEvents. destruct (snd res); reflexivity.
Qed.

Ltac ios_step H :=
  let E := fresh "E" in
  let Hlen := fresh "Hlen" in
  lazymatch type of H with
  | exec (bind (Part_000.testLoop _ _ _ _) _) _ _ =>
      apply exec_Loop in H;
      destruct H as (? & ? & Hlen & E & H); settle E
  | _ => exec_step H
  end.

(** A run of the iOS runner that took the mutex: what it did besides
    staging. *)
Lemma runIOSTest_loop (Quote : string -> string) (r : Request)
    (query : gmap string (list string)) (evs : list event) (o : Outcome unit) :
  exec (Part_000.runIOSTest Quote r query) evs o ->
  In EvLock (loud evs) ->
  Get query "test_destination" <> EmptyString /\
  Get query "test_schemes" <> EmptyString /\
  exists results name f err out,
    length results = length (Split (Get query "test_schemes") comma) /\
    o = Returned tt /\
    loud evs =
      EvOpenFile name (Some f) err ::
      EvExec "tar" ["xf"; Name f] out None :: EvLock ::
      loud (loopEvents Quote (Get query "test_destination")
              (Split (Get query "test_schemes") comma) results) ++
      (if existsb failed results then [] else [EvWrite ("!!ALL TESTS PASSED!!" +:+ nl)]) ++
      [EvUnlock].
Proof.
  intros H. unfold Part_000.runIOSTest in H. cbv zeta in H.
  repeat ios_step H; norm.
  all: try (intros Hin; in_cases Hin; fail).
  all: intros _.
  all: split; [now apply String.eqb_neq|]; split; [now apply String.eqb_neq|].
  all: match goal with
       | Hl : length ?res = _
         |- context [EvOpenFile ?n (Some ?f) ?err :: EvExec "tar" _ ?out None :: _] =>
           exists res, n, f, err, out;
           split; [exact Hl|]; split; [reflexivity|];
           rewrite app_nil_r, <- app_assoc;
           match goal with Hb : negb (false || existsb failed res) = _ |- _ =>
             destruct (existsb failed res); cbn [negb orb] in Hb;
             first [discriminate Hb | reflexivity]
           end
       end.
Qed.

(** The response and the commands of such a run. *)
Lemma runIOSTest_loop_results (Quote : string -> string) (r : Request)
    (query : gmap string (list string)) (evs : list event) (o : Outcome unit) :
  exec (Part_000.runIOSTest Quote r query) evs o ->
  In EvLock evs ->
  Get query "test_schemes" <> EmptyString /\
  exists results name f err out,
    length results = length (Split (Get query "test_schemes") comma) /\
    o = Returned tt /\
    loud evs =
      EvOpenFile name (Some f) err ::
      EvExec "tar" ["xf"; Name f] out None :: EvLock ::
      loud (loopEvents Quote (Get query "test_destination")
              (Split (Get query "test_schemes") comma) results) ++
      (if existsb failed results then [] else [EvWrite ("!!ALL TESTS PASSED!!" +:+ nl)]) ++
      [EvUnlock] /\
    commands evs =
      ("tar", ["xf"; Name f]) ::
      map (fun s => ("xcodebuild", xcodebuildArgs (Get query "test_destination") s))
          (Split (Get query "test_schemes") comma) /\
    replay evs noResponse =
      mkResponse (Some StatusOK)
        (reports Quote (Get query "test_destination")
           (Split (Get query "test_schemes") comma) results +:+
         (if existsb failed results then EmptyString else "!!ALL TESTS PASSED!!" +:+ nl)).
Proof.
  intros H Hin. apply In_loud in Hin; [|reflexivity].
  destruct (runIOSTest_loop _ _ _ _ _ H Hin)
    as (_ & Hs & results & name & f & err & out & Hlen & -> & Hl).
  split; [assumption|]. exists results, name, f, err, out. split; [assumption|]. split; [reflexivity|].
  split; [assumption|].
  rewrite <- commands_loud, <- replay_loud, Hl.
  split.
  - cbn [commands]. rewrite commands_app, commands_loud, commands_loopEvents by assumption.
    destruct (existsb failed results); cbn [app commands]; now rewrite app_nil_r.
  - change (replay (?a :: ?b :: ?c :: ?l) noResponse) with (replay l noResponse).
    rewrite !replay_app, replay_loud, replay_loopEvents by assumption.
    pose proof (Split_nonempty (Get query "test_schemes") comma) as Hne.
    destruct (Split (Get query "test_schemes") comma) as [|s ss]; [contradiction|].
    destruct (existsb failed results);
      cbv [replay fold_left respAfter write code written noResponse default];
      rewrite ?append_nil_l, ?append_nil_r; reflexivity.
Qed.

(** C2. A run of the iOS runner that reaches the scheme loop (it took the
    mutex) returns, and: it ran [xcodebuild test] once for every scheme
    of the list, in list order, whatever the earlier schemes did; the
    events of the run, staging aside, are the extraction, the lock, for
    each scheme its start line, its [xcodebuild] run and its
    [!!TEST FAILED!!] (with error text and output) or [!!TEST PASSED!!]
    (with output) report, then the [!!ALL TESTS PASSED!!] line exactly
    when no scheme failed, then the unlock; the body is the
    concatenation of these reports and the status is 200. *)
Theorem C2_ios_scheme_loop
    (Quote : string -> string) (env : Env) (w w' : World) (r : Request)
    (query : gmap string (list string)) (o : Outcome unit) :
  fresh w ->
  run env (Part_000.runIOSTest Quote r query) w = (o, w') ->
  In EvLock (trace w') ->
  exists results name f err out,
    length results = length (Split (Get query "test_schemes") comma) /\
    loud (trace w') =
      EvOpenFile name (Some f) err ::
      EvExec "tar" ["xf"; Name f] out None :: EvLock ::
      loud (loopEvents Quote (Get query "test_destination")
              (Split (Get query "test_schemes") comma) results) ++
      (if existsb failed results then [] else [EvWrite ("!!ALL TESTS PASSED!!" +:+ nl)]) ++
      [EvUnlock] /\
    commands (trace w') =
      ("tar", ["xf"; Name f]) ::
      map (fun s => ("xcodebuild", xcodebuildArgs (Get query "test_destination") s))
          (Split (Get query "test_schemes") comma) /\
    responds (o, w') StatusOK
      (reports Quote (Get query "test_destination")
         (Split (Get query "test_schemes") comma) results +:+
       (if existsb failed results then EmptyString else "!!ALL TESTS PASSED!!" +:+ nl)).
Proof.
  intros Hfresh Hrun Hin.
  destruct (run_fresh _ _ _ _ _ _ Hfresh Hrun) as [Hex Hresp].
  destruct (runIOSTest_loop_results _ _ _ _ _ Hex Hin)
    as (_ & results & name & f & err & out & Hlen & Ho & Hl & Hc & Hr).
  exists results, name, f, err, out. repeat split; try assumption.
  - unfold status. cbn [snd]. now rewrite Hresp, Hr.
  - cbn [snd]. now rewrite Hresp, Hr.
Qed.

(** C9. In a run of the iOS runner that reaches the scheme loop,
    [test_schemes] is not empty and the [-scheme] arguments of the
    [xcodebuild] runs are, in order, the segments [strings.Split] cuts
    the parameter into at its commas: joining them with commas gives the
    parameter back, there is one more segment than there are commas, no
    segment holds a comma, and nothing is trimmed, dropped or merged
    (empty segments are kept, as in [A,] and [A,,B]). *)
Theorem C9_schemes_are_the_comma_segments
    (Quote : string -> string) (env : Env) (w w' : World) (r : Request)
    (query : gmap string (list string)) (o : Outcome unit) :
  fresh w ->
  run env (Part_000.runIOSTest Quote r query) w = (o, w') ->
  In EvLock (trace w') ->
  Get query "test_schemes" <> EmptyString /\
  (exists tarball, commands (trace w') =
     ("tar", ["xf"; tarball]) ::
     map (fun scheme => ("xcodebuild",
            ["test"; "-destination"; Get query "test_destination"; "-scheme"; scheme]))
         (Split (Get query "test_schemes") comma)) /\
  Join_str (Split (Get query "test_schemes") comma) "," = Get query "test_schemes" /\
  length (Split (Get query "test_schemes") comma) =
    S (countByte comma (Get query "test_schemes")) /\
  Forall (fun seg => countByte comma seg = O) (Split (Get query "test_schemes") comma) /\
  Split "A," comma = ["A"; EmptyString] /\
  Split "A,,B" comma = ["A"; EmptyString; "B"] /\
  Split " A ,A" comma = [" A "; "A"].
Proof.
  intros Hfresh Hrun Hin.
  destruct (run_fresh _ _ _ _ _ _ Hfresh Hrun) as [Hex Hresp].
  destruct (runIOSTest_loop_results _ _ _ _ _ Hex Hin)
    as (Hne & results & name & f & err & out & Hlen & Ho & Hl & Hc & Hr).
  split; [assumption|]. split; [exists (Name f); exact Hc|].
  split; [apply Split_Join|]. split; [apply Split_length|].
  split; [apply Split_no_sep|]. repeat split; reflexivity.
Qed.

Lemma C2_witness :
  exists results name f err out,
    length results = length (Split (Get (queryOf twoSchemes) "test_schemes") comma) /\
    loud (trace (snd twoSchemesRun)) =
      EvOpenFile name (Some f) err ::
      EvExec "tar" ["xf"; Name f] out None :: EvLock ::
      loud (loopEvents Quote_ascii (Get (queryOf twoSchemes) "test_destination")
              (Split (Get (queryOf twoSchemes) "test_schemes") comma) results) ++
      (if existsb failed results then [] else [EvWrite ("!!ALL TESTS PASSED!!" +:+ nl)]) ++
      [EvUnlock] /\
    commands (trace (snd twoSchemesRun)) =
      ("tar", ["xf"; Name f]) ::
      map (fun s => ("xcodebuild",
                     xcodebuildArgs (Get (queryOf twoSchemes) "test_destination") s))
          (Split (Get (queryOf twoSchemes) "test_schemes") comma) /\
    responds (fst twoSchemesRun, snd twoSchemesRun) StatusOK
      (reports Quote_ascii (Get (queryOf twoSchemes) "test_destination")
         (Split (Get (queryOf twoSchemes) "test_schemes") comma) results +:+
       (if existsb failed results then EmptyString else "!!ALL TESTS PASSED!!" +:+ nl)).
Proof.
  apply (C2_ios_scheme_loop Quote_ascii env0 world0 (snd twoSchemesRun) twoSchemes
           (queryOf twoSchemes) (fst twoSchemesRun)).
  - split; reflexivity.
  - apply surjective_pairing.
  - vm_compute. repeat (first [left; reflexivity | right]).
Defined.

(** The run of [twoSchemes]: [App] passes, [Broken] fails, and the body
    ends without the [!!ALL TESTS PASSED!!] line; the status stays 200. *)
Example twoSchemes_response :
  responds twoSchemesRun StatusOK
    (startLine Quote_ascii "name=iPhone" "App" +:+ nl +:+
     "!!TEST PASSED!!" +:+ nl +:+ "** TEST SUCCEEDED **" +:+
     startLine Quote_ascii "name=iPhone" "Broken" +:+ nl +:+
     "!!TEST FAILED!!" +:+ nl +:+ "exit status 65" +:+ nl +:+ "** TEST FAILED **") /\
  commands (trace (snd twoSchemesRun)) =
    [("tar", ["xf"; "/tmp/abcde/source.tgz"]);
     ("xcodebuild", ["test"; "-destination"; "name=iPhone"; "-scheme"; "App"]);
     ("xcodebuild", ["test"; "-destination"; "name=iPhone"; "-scheme"; "Broken"])].
Proof. vm_compute. auto. Qed.

Lemma C9_witness :
  Get (queryOf twoSchemes) "test_schemes" <> EmptyString /\
  (exists tarball, commands (trace (snd twoSchemesRun)) =
     ("tar", ["xf"; tarball]) ::
     map (fun scheme => ("xcodebuild",
            ["test"; "-destination"; Get (queryOf twoSchemes) "test_destination";
             "-scheme"; scheme]))
         (Split (Get (queryOf twoSchemes) "test_schemes") comma)) /\
  Join_str (Split (Get (queryOf twoSchemes) "test_schemes") comma) "," =
    Get (queryOf twoSchemes) "test_schemes" /\
  length (Split (Get (queryOf twoSchemes) "test_schemes") comma) =
    S (countByte comma (Get (queryOf twoSchemes) "test_schemes")) /\
  Forall (fun seg => countByte comma seg = O)
    (Split (Get (queryOf twoSchemes) "test_schemes") comma) /\
  Split "A," comma = ["A"; EmptyString] /\
  Split "A,,B" comma = ["A"; EmptyString; "B"] /\
  Split " A ,A" comma = [" A "; "A"].
Proof.
  apply (C9_schemes_are_the_comma_segments Quote_ascii env0 world0 (snd twoSchemesRun)
           twoSchemes (queryOf twoSchemes) (fst twoSchemesRun)).
  - split; reflexivity.
  - apply surjective_pairing.
  - vm_compute. repeat (first [left; reflexivity | right]).
Defined.

(** ** A staging file that could not be created *)

Lemma runAndroidTest_nil_file (r : Request) (query : gmap string (list string))
    (evs : list event) (o : Outcome unit) (name : string) (err : error) :
  exec (runAndroidTest r query) evs o ->
  In (EvOpenFile name None (Some err)) (loud evs) ->
  IsExist (Some err) = false ->
  o = Panicked nilDeref /\ loud evs = [EvOpenFile name None (Some err)].
Proof.
  intros H. unfold runAndroidTest in H. cbv zeta in H.
  repeat exec_step H; norm; intros Hin Hex; in_cases Hin; try congruence; auto.
Qed.

Lemma loopEvents_no_open (Quote : string -> string) (dest : string)
    (schemes : list string) (results : list (string * option error))
    (name : string) (f : option File) (err : option error) :
  ~ In (EvOpenFile name f err) (loud (loopEvents Quote dest schemes results)).
Proof.
  revert results. induction schemes as [|s schemes IH]; intros results; [auto|].
  destruct results as [|res results]; [auto|].
  cbn [loopEvents]. rewrite loud_app. intros Hin. apply in_app_or in Hin as [Hin|Hin].
  - unfold schemeEvents in Hin. destruct (snd res); in_cases Hin.
  - now apply IH in Hin.
Qed.

Lemma runIOSTest_nil_file (Quote : string -> string) (r : Request)
    (query : gmap string (list string))
    (evs : list event) (o : Outcome unit) (name : string) (err : error) :
  exec (Part_000.runIOSTest Quote r query) evs o ->
  In (EvOpenFile name None (Some err)) (loud evs) ->
  IsExist (Some err) = false ->
  match teeIntoNil (body r) with
  | Some e => o = Returned tt /\
              loud evs = [EvOpenFile name None (Some err);
                          EvWriteHeader StatusBadRequest; EvWrite (Error e)]
  | None => o = Panicked nilDeref /\ loud evs = [EvOpenFile name None (Some err)]
  end.
Proof.
  intros H. unfold Part_000.runIOSTest in H. cbv zeta in H.
  repeat ios_step H; norm; intros Hin Hex; in_cases Hin; try congruence.
  all: try match goal with
           | E : None = None -> _ |- _ => destruct (E eq_refl) as [_ <-]; auto
           end.
  all: exfalso; repeat (apply in_app_or in Hin; destruct Hin as [Hin|Hin]);
    first [now apply loopEvents_no_open in Hin | in_cases Hin].
Qed.

Lemma commands_of_loud (evs : list event) (l : list event) :
  loud evs = l -> commands evs = commands l.
Proof. intros <-. symmetry. apply commands_loud. Qed.

(** C10, as the code has it.  In both runners the check after
    [os.OpenFile] covers only the already-exists case: when the open
    fails with any other error, the check writes no response and the
    runner goes on with a nil file.  The Android runner then panics at
    [apkFile.Name()] (the argument of the deferred removal): no response
    is written and no command is run.  The iOS runner copies the body
    into the nil file: a body that delivers data fails at the first
    write with [invalid argument], answered 400; an empty body whose read
    fails is answered 400 with the read error; an empty body read to the
    end makes the runner panic at [sourceFile.Name()], with no response
    written.  No command is run in either case. *)
Theorem C10_open_failure_other_than_exists
    (Quote : string -> string) (env : Env) (w w' : World) (r : Request)
    (query : gmap string (list string)) (o : Outcome unit) (name : string) (err : error) :
  fresh w ->
  In (EvOpenFile name None (Some err)) (trace w') ->
  IsExist (Some err) = false ->
  (run env (runAndroidTest r query) w = (o, w') ->
     o = Panicked nilDeref /\ resp w' = noResponse /\ commands (trace w') = []) /\
  (run env (Part_000.runIOSTest Quote r query) w = (o, w') ->
     commands (trace w') = [] /\
     (hasData (body r) = true -> responds (o, w') StatusBadRequest "invalid argument") /\
     (hasData (body r) = false ->
        match readErr (body r) with
        | Some e => responds (o, w') StatusBadRequest (Error e)
        | None => o = Panicked nilDeref /\ resp w' = noResponse
        end)).
Proof.
  intros Hfresh Hin Hex. apply In_loud in Hin; [|reflexivity]. split; intros Hrun.
  - destruct (run_fresh _ _ _ _ _ _ Hfresh Hrun) as [He Hresp].
    destruct (runAndroidTest_nil_file _ _ _ _ _ _ He Hin Hex) as [-> Hl].
    rewrite <- replay_loud, Hl in Hresp. rewrite (commands_of_loud _ _ Hl). auto.
  - destruct (run_fresh _ _ _ _ _ _ Hfresh Hrun) as [He Hresp].
    pose proof (runIOSTest_nil_file _ _ _ _ _ _ _ He Hin Hex) as Hcases.
    rewrite <- replay_loud in Hresp. unfold teeIntoNil in Hcases.
    destruct (hasData (body r)).
    + destruct Hcases as [-> Hl]. rewrite Hl in Hresp. rewrite (commands_of_loud _ _ Hl).
      split; [reflexivity|]. split; [|discriminate].
      intros _. now apply responds_of_response.
    + split; [|split; [discriminate|intros _]].
      * destruct (readErr (body r)); destruct Hcases as [_ Hl];
          now rewrite (commands_of_loud _ _ Hl).
      * destruct (readErr (body r)); destruct Hcases as [-> Hl]; rewrite Hl in Hresp.
        -- now apply responds_of_response.
        -- auto.
Qed.

Lemma C10_witness :
  (fst androidRefused = Panicked nilDeref /\ resp (snd androidRefused) = noResponse /\
   commands (trace (snd androidRefused)) = []) /\
  responds (fst (iosRefused upload), snd (iosRefused upload))
    StatusBadRequest "invalid argument" /\
  (fst (iosRefused emptyUpload) = Panicked nilDeref /\
   resp (snd (iosRefused emptyUpload)) = noResponse).
Proof.
  split; [|split].
  - refine (proj1 (C10_open_failure_other_than_exists Quote_ascii envNoNewFiles world0
      (snd androidRefused) reqAndroid (queryOf reqAndroid) (fst androidRefused)
      "/tmp/test_abcde.apk" (PathError "open" "/tmp/test_abcde.apk" EACCES) _ _ _) _).
    + split; reflexivity.
    + vm_compute. repeat (first [left; reflexivity | right]).
    + reflexivity.
    + apply surjective_pairing.
  - refine (proj1 (proj2 (proj2 (C10_open_failure_other_than_exists Quote_ascii envNoNewFiles
      world0 (snd (iosRefused upload)) (reqIOS "App" upload) (queryOf (reqIOS "App" upload))
      (fst (iosRefused upload)) "/tmp/abcde/source.tgz"
      (PathError "open" "/tmp/abcde/source.tgz" EACCES) _ _ _) _)) _).
    + split; reflexivity.
    + vm_compute. repeat (first [left; reflexivity | right]).
    + reflexivity.
    + apply surjective_pairing.
    + reflexivity.
  - refine (proj2 (proj2 (proj2 (C10_open_failure_other_than_exists Quote_ascii envNoNewFiles
      world0 (snd (iosRefused emptyUpload)) (reqIOS "App" emptyUpload)
      (queryOf (reqIOS "App" emptyUpload))
      (fst (iosRefused emptyUpload)) "/tmp/abcde/source.tgz"
      (PathError "open" "/tmp/abcde/source.tgz" EACCES) _ _ _) _)) _).
    + split; reflexivity.
    + vm_compute. repeat (first [left; reflexivity | right]).
    + reflexivity.
    + apply surjective_pairing.
    + reflexivity.
Defined.

(** Against C10 as stated: on a machine that refuses to create the
    staging file with [permission denied], the iOS runner, given a body
    with data, does answer: 400 with [invalid argument].  The write to
    the nil file returns an error; it does not dereference the handle. *)
Lemma C10_ios_nil_file_write_is_answered :
  In (EvOpenFile "/tmp/abcde/source.tgz" None
        (Some (PathError "open" "/tmp/abcde/source.tgz" EACCES)))
     (trace (snd (iosRefused upload))) /\
  IsExist (Some (PathError "open" "/tmp/abcde/source.tgz" EACCES)) = false /\
  hasData upload = true /\
  responds (iosRefused upload) StatusBadRequest "invalid argument".
Proof.
  split; [vm_compute; repeat (first [left; reflexivity | right])|].
  vm_compute. auto.
Qed.

(** ** The staging directory of the iOS runner *)

(** Running [tac] on every conjunct of the goal. *)
Ltac each_conjunct tac :=
  lazymatch goal with
  | |- _ /\ _ => split; [each_conjunct tac | each_conjunct tac]
  | _ => tac
  end.

Lemma Split_plain (s : string) (sep : ascii) :
  countByte sep s = O -> Split s sep = [s].
Proof.
  induction s as [|c s IH]; simpl; [reflexivity|].
  destruct (Ascii.eqb c sep); [discriminate|]. intros H. now rewrite IH.
Qed.

(** A plain name is resolved to an entry of the working directory. *)
Lemma resolve_plain (cwd : list string) (s : string) :
  plainName s -> resolve cwd s = cwd ++ [s].
Proof.
  intros (Hne & Hd & Hdd & Hs). unfold resolve. rewrite (Split_plain _ _ Hs).
  assert (Hrel : IsAbs s = false).
  { destruct s as [|c s]; [reflexivity|]. simpl in *.
    destruct (Ascii.eqb c slash); [discriminate|reflexivity]. }
  rewrite Hrel. cbn [fold_left]. unfold walkStep.
  apply String.eqb_neq in Hne, Hd, Hdd. now rewrite Hne, Hd, Hdd.
Qed.

(** [os.RemoveAll] leaves everything that is not at or below its target. *)
Lemma RemoveAll_frame (env : Env) (w w' : World) (path : string) (r : option error)
    (loc : list string) :
  handle env (RemoveAll path) w = Some (r, w') ->
  ~ resolve (cwd w) path `prefix_of` loc ->
  fs w' !! loc = fs w !! loc.
Proof.
  unfold handle. simpl. destruct (refuses env SysRemoveAll _); intros [= <- <-];
    [reflexivity|].
  intros Hn. cbn [fs setFs addEvent]. unfold notBelow.
  destruct (fs w !! loc) as [n|] eqn:Hl.
  - apply map_lookup_filter_Some. auto.
  - apply map_lookup_filter_None. left. assumption.
Qed.

(** C1 fails on the iOS runner.  On a machine with [/tmp], an authorized
    iOS request whose tools all succeed is answered 200, and when its
    handling returns the staging directory [/tmp/abcde] is still there,
    with the uploaded [source.tgz] and the unpacked file in it.  The last
    event of the run is the deferred [os.RemoveAll(sourceDir)]: it names
    the directory relative to the working directory, which by then is
    the staging directory itself, so the call addresses
    [/tmp/abcde/abcde] and removes nothing.  This holds in every world:
    [os.RemoveAll] of a plain name, called from inside a directory,
    leaves that directory and all its other entries in place.  The
    Android half of the claim does hold on the same machine: the staging
    file [/tmp/test_abcde.apk] is created and is gone when the handling
    returns. *)
Theorem C1_ios_staging_directory_is_left_behind :
  (fst iosRun = Returned tt /\
   status (resp (snd iosRun)) = StatusOK /\
   fs (snd iosRun) !! ["tmp"; "abcde"] = Some NDir /\
   fs (snd iosRun) !! ["tmp"; "abcde"; "source.tgz"] = Some (NFile "PKdata") /\
   fs (snd iosRun) !! ["tmp"; "abcde"; "AppTests.swift"] = Some (NFile "import XCTest") /\
   last (trace (snd iosRun)) = Some (EvRemoveAll "abcde" None) /\
   cwd (snd iosRun) = ["tmp"; "abcde"] /\
   resolve (cwd (snd iosRun)) "abcde" = ["tmp"; "abcde"; "abcde"]) /\
  (forall env w w' base sourceDir r,
     plainName sourceDir ->
     cwd w = base ++ [sourceDir] ->
     handle env (RemoveAll sourceDir) w = Some (r, w') ->
     fs w' !! (base ++ [sourceDir]) = fs w !! (base ++ [sourceDir]) /\
     forall entry, entry <> sourceDir ->
       fs w' !! (base ++ [sourceDir; entry]) = fs w !! (base ++ [sourceDir; entry])) /\
  (fst androidRun = Returned tt /\
   In (EvOpenFile "/tmp/test_abcde.apk"
         (Some (mkFile "/tmp/test_abcde.apk" ["tmp"; "test_abcde.apk"])) None)
      (trace (snd androidRun)) /\
   fs (snd androidRun) !! ["tmp"; "test_abcde.apk"] = None /\
   fs (snd androidRun) = fs world0).
Proof.
  split; [|split].
  - each_conjunct ltac:(vm_compute; reflexivity).
  - intros env w w' base sourceDir r Hplain Hcwd Hrm.
    assert (Htarget : resolve (cwd w) sourceDir = (base ++ [sourceDir]) ++ [sourceDir])
      by (rewrite Hcwd; now apply resolve_plain).
    split.
    + apply (RemoveAll_frame _ _ _ _ _ _ Hrm). rewrite Htarget. intros [k Hk].
      apply (f_equal length) in Hk. rewrite !length_app in Hk. simpl in Hk. lia.
    + intros entry Hne. apply (RemoveAll_frame _ _ _ _ _ _ Hrm). rewrite Htarget.
      intros [k Hk]. change (base ++ [sourceDir; entry])
        with (base ++ [sourceDir] ++ [entry]) in Hk.
      rewrite <- !app_assoc in Hk. do 2 apply app_inv_head in Hk. simpl in Hk. congruence.
  - each_conjunct ltac:(vm_compute;
      first [reflexivity | repeat (first [left; reflexivity | right])]).
Qed.

(** ** The mutex *)

Lemma disciplined_mono (A : Type) (p : prog A) (h : bool)
    (Q Q' : option A -> bool -> Prop) :
  (forall oa h', Q oa h' -> Q' oa h') -> disciplined p h Q -> disciplined p h Q'.
Proof.
  intros HQ. revert h. induction p as [a|v|X e k IH]; intros h; simpl; auto.
  intros [Ha Hk]. split; [assumption|]. intros x. apply IH, Hk.
Qed.

Lemma disciplined_bind (A B : Type) (p : prog A) (f : A -> prog B) (h : bool)
    (Q : option B -> bool -> Prop) :
  disciplined p h (fun oa h' => match oa with
                                | Some a => disciplined (f a) h' Q
                                | None => Q None h'
                                end) ->
  disciplined (bind p f) h Q.
Proof.
  revert h. induction p as [a|v|X e k IH]; intros h; simpl; auto.
  intros [Ha Hk]. split; [assumption|]. intros x. apply IH, Hk.
Qed.

Lemma disciplined_bind_keeps (A B : Type) (p : prog A) (f : A -> prog B) (h : bool)
    (Q : option B -> bool -> Prop) :
  keeps p h -> Q None h -> (forall a, disciplined (f a) h Q) ->
  disciplined (bind p f) h Q.
Proof.
  intros Hp Hn Hf. apply disciplined_bind.
  eapply disciplined_mono; [|exact Hp]. intros [a|] h' ->; simpl; auto.
Qed.

Lemma disciplined_defer (A : Type) (d : prog unit) (p : prog A) (h : bool)
    (P : bool -> Prop) :
  disciplined p h (fun _ h' => disciplined d h' (fun _ h'' => P h'')) ->
  disciplined (defer d p) h (fun _ h'' => P h'').
Proof.
  revert h. induction p as [a|v|X e k IH]; intros h; simpl.
  - intros Hd. apply disciplined_bind.
    eapply disciplined_mono; [|exact Hd]. intros [u|] h'; simpl; auto.
  - intros Hd. apply disciplined_bind.
    eapply disciplined_mono; [|exact Hd]. intros [u|] h'; simpl; auto.
  - intros [Ha Hk]. split; [assumption|]. intros x. apply IH, Hk.
Qed.

Lemma keeps_randomLoop (alpha : list ascii) (n : nat) (buf : string) (h : bool) :
  keeps (randomLoop alpha n buf) h.
Proof.
  unfold keeps. revert buf. induction n as [|n IH]; intros buf; simpl; [reflexivity|].
  split; [exact I|]. intros [val|err]; simpl; [|reflexivity].
  destruct (val <? 0); [reflexivity|].
  destruct (alpha !! Z.to_nat val); simpl; auto.
Qed.

Lemma keeps_teeChunks (cs : list string) (rerr : option error) (f : option File) (h : bool) :
  keeps (teeChunks cs rerr f) h.
Proof.
  unfold keeps. induction cs as [|c cs IH]; simpl; [reflexivity|].
  destruct (String.eqb c EmptyString); [assumption|].
  destruct f as [fl|]; simpl.
  - split; [exact I|]. intros [e|]; simpl; auto.
  - reflexivity.
Qed.

Lemma keeps_File_Name (f : option File) (h : bool) : keeps (File_Name f) h.
Proof. destruct f; reflexivity. Qed.

Lemma keeps_File_Close (f : option File) (h : bool) : keeps (File_Close f) h.
Proof. destruct f; simpl; unfold keeps; simpl; auto. Qed.

Lemma keeps_Error_of (err : option error) (h : bool) : keeps (Error_of err) h.
Proof. destruct err; reflexivity. Qed.

Lemma keeps_testLoop (Quote : string -> string) (dest : string) (schemes : list string)
    (failed0 : bool) :
  keeps (Part_000.testLoop Quote dest schemes failed0) true.
Proof.
  unfold keeps. revert failed0. induction schemes as [|s schemes IH]; intros failed0;
    [reflexivity|].
  cbn [Part_000.testLoop]. apply disciplined_bind. unfold Part_000.testScheme. simpl.
  repeat (split; [first [exact I | reflexivity | auto]|]; intros ?).
  destruct x2 as [out [e|]]; simpl;
    repeat (split; [first [exact I | reflexivity | auto]|]; intros ?); apply IH.
Qed.

Lemma disciplined_perform (A X : Type) (e : eff X) (f : X -> prog A) (h : bool)
    (Q : option A -> bool -> Prop) :
  allowed e h -> (forall x, disciplined (f x) (holdingAfter e h) Q) ->
  disciplined (bind (perform e) f) h Q.
Proof. simpl. auto. Qed.

(** Walking a program for its lock discipline. *)
Ltac disc_step :=
  lazymatch goal with
  | |- disciplined (bind (perform _) _) _ _ =>
      apply disciplined_perform;
      [cbn [allowed];
       first [exact I | reflexivity | (intros _; reflexivity)
             | (let Hd := fresh in intros Hd; cbv in Hd; discriminate Hd)]
      | intros ?; cbn [holdingAfter]]
  | |- disciplined (bind (RandomAlphaNumericString _) _) _ _ =>
      apply disciplined_bind_keeps; [apply keeps_randomLoop | | intros ?]
  | |- disciplined (bind (ReadAll_TeeReader _ _) _) _ _ =>
      apply disciplined_bind_keeps; [apply keeps_teeChunks | | intros ?]
  | |- disciplined (bind (File_Name _) _) _ _ =>
      apply disciplined_bind_keeps; [apply keeps_File_Name | | intros ?]
  | |- disciplined (bind (File_Close _) _) _ _ =>
      apply disciplined_bind_keeps; [apply keeps_File_Close | | intros ?]
  | |- disciplined (bind (Error_of _) _) _ _ =>
      apply disciplined_bind_keeps; [apply keeps_Error_of | | intros ?]
  | |- disciplined (bind (Part_000.testLoop _ _ _ _) _) _ _ =>
      apply disciplined_bind_keeps; [apply keeps_testLoop | | intros ?]
  | |- disciplined (defer _ _) _ _ => apply disciplined_defer
  | |- disciplined (perform _) _ _ => cbn [disciplined perform allowed holdingAfter]; auto
  | |- disciplined (Ret _) _ _ => cbn [disciplined]; auto
  | |- disciplined (Panic _) _ _ => cbn [disciplined]; auto
  | |- disciplined (if ?c then _ else _) _ _ => destruct c
  | |- disciplined (match ?x with _ => _ end) _ _ => destruct x
  end.

Lemma releases_runAndroidTest (r : Request) (query : gmap string (list string)) :
  releases (runAndroidTest r query) false.
Proof.
  unfold releases, runAndroidTest. cbv zeta.
  repeat first [disc_step | split | intros _ | reflexivity].
Qed.

Lemma releases_runIOSTest (Quote : string -> string) (r : Request)
    (query : gmap string (list string)) :
  releases (Part_000.runIOSTest Quote r query) false.
Proof.
  unfold releases, Part_000.runIOSTest. cbv zeta.
  repeat first [disc_step | split | intros _ | reflexivity].
Qed.

Lemma releases_Main_go_handler (secret : string) (r : Request) :
  releases (Main_go.handler secret r) false.
Proof.
  unfold releases, Main_go.handler. cbv zeta.
  destruct (negb _); [repeat first [disc_step | split | intros _ | reflexivity]|].
  apply disciplined_perform; [exact I|]. intros [query [e|]]; cbn [holdingAfter].
  - repeat first [disc_step | split | intros _ | reflexivity].
  - destruct (String.eqb _ _); [apply releases_runAndroidTest|].
    repeat first [disc_step | split | intros _ | reflexivity].
Qed.

Lemma releases_Part_000_handler (secret : string) (Quote : string -> string) (r : Request) :
  releases (Part_000.handler secret Quote r) false.
Proof.
  unfold releases, Part_000.handler. cbv zeta.
  destruct (negb _); [repeat first [disc_step | split | intros _ | reflexivity]|].
  apply disciplined_perform; [exact I|]. intros [query [e|]]; cbn [holdingAfter].
  - repeat first [disc_step | split | intros _ | reflexivity].
  - destruct (String.eqb _ _); [apply releases_runAndroidTest|].
    destruct (String.eqb _ _); [apply releases_runIOSTest|].
    repeat first [disc_step | split | intros _ | reflexivity].
Qed.

Lemma handle_Lock_free (env : Env) (w w' : World) (x : unit) :
  handle env Lock w = Some (x, w') -> locked w = false.
Proof. unfold handle. simpl. destruct (locked w); [discriminate|reflexivity]. Qed.

Lemma exclusive_accepted (handler : Request -> prog unit) (rs : list Request) (w : World) :
  (forall r, releases (handler r) false) -> exclusive (w, accepted handler rs).
Proof.
  intros Hh. unfold exclusive, accepted. cbn [fst snd].
  assert (Hall : forall i t, map (fun r => mkThread (handler r) false) rs !! i = Some t ->
                  exists r, t = mkThread (handler r) false).
  { intros i t Hi. rewrite list_lookup_fmap in Hi.
    destruct (rs !! i) as [r|]; [|discriminate]. injection Hi as <-. eauto. }
  split; [|split].
  - intros i t Hi. apply Hall in Hi as [r ->]. apply Hh.
  - intros i j ti tj Hi _ Hti. apply Hall in Hi as [r ->]. discriminate.
  - intros i t Hi Ht. apply Hall in Hi as [r ->]. discriminate.
Qed.

Lemma exclusive_step (env : Env) (c c' : World * list Thread) :
  exclusive c -> cstep env c c' -> exclusive c'.
Proof.
  intros (Hrel & Huniq & Hheld) Hstep.
  destruct Hstep as [i w w' ts X e k h x Hi Hh]. cbn [fst snd] in *.
  pose proof (Hrel i _ Hi) as Hri. unfold releases in Hri. cbn [rest holding disciplined] in Hri.
  destruct Hri as [Hallowed Hk].
  pose proof (handle_facts _ _ _ _ _ _ Hh) as (_ & _ & Hlock).
  assert (Hlen : (i < length ts)%nat) by (apply lookup_lt_Some in Hi; exact Hi).
  assert (Hnew : forall j t, <[i := mkThread (k x) (holdingAfter e h)]> ts !! j = Some t ->
                   (j = i /\ t = mkThread (k x) (holdingAfter e h)) \/
                   (j <> i /\ ts !! j = Some t)).
  { intros j t Hj. destruct (decide (j = i)) as [->|Hne].
    - rewrite list_lookup_insert_eq in Hj by assumption. injection Hj as <-. auto.
    - rewrite list_lookup_insert_ne in Hj by congruence. auto. }
  (* Whether the stepping thread took, gave back, or left the mutex. *)
  assert (Hothers : holdingAfter e h = true ->
                    forall j t, j <> i -> ts !! j = Some t -> holding t = false).
  { intros Hafter j t Hne Hj. destruct (holding t) eqn:Ht; [|reflexivity]. exfalso.
    destruct e; cbn [holdingAfter allowed] in *; try discriminate;
      try (apply Hne; symmetry; apply (Huniq i j _ _ Hi Hj); [assumption|exact Ht]).
    apply handle_Lock_free in Hh. pose proof (Hheld j t Hj Ht). congruence. }
  unfold exclusive. cbn [fst snd]. split; [|split].
  - intros j t Hj. apply Hnew in Hj as [[-> ->]|[Hne Hj]]; [apply Hk|eauto].
  - intros j1 j2 t1 t2 H1 H2 Ht1 Ht2.
    apply Hnew in H1 as [[-> ->]|[Hne1 H1]]; apply Hnew in H2 as [[-> ->]|[Hne2 H2]];
      cbn [holding] in *; eauto.
    + pose proof (Hothers Ht1 _ _ Hne2 H2). congruence.
    + pose proof (Hothers Ht2 _ _ Hne1 H1). congruence.
  - intros j t Hj Ht. rewrite Hlock.
    apply Hnew in Hj as [[-> ->]|[Hne Hj]]; cbn [holding] in *.
    + destruct e; cbn [holdingAfter allowed] in *; try discriminate; try reflexivity;
        try (apply (Hheld i _ Hi); exact Ht).
    + pose proof (Hheld j t Hj Ht) as Hl.
      destruct e; cbn [holdingAfter allowed] in *; try assumption; try reflexivity.
      (* an unlock by [i] while [j] holds: [i] held too *)
      exfalso. apply Hne. apply (Huniq j i _ _ Hj Hi); [exact Ht|exact Hallowed].
Qed.






Lemma cstepOf_sound (env : Env) (i : nat) (c c' : World * list Thread) :
  cstepOf env i c = Some c' -> cstep env c c'.
Proof.
  unfold cstepOf. destruct c as [w ts]. cbn [fst snd].
  destruct (ts !! i) as [[p h]|] eqn:Hi; [|discriminate].
  destruct p as [a|v|X e k]; try discriminate.
  destruct (handle env e w) as [[x w']|] eqn:Hh; [|discriminate].
  intros [= <-]. econstructor; eassumption.
Qed.

Lemma schedule_sound (env : Env) (sched : list nat) (c c' : World * list Thread) :
  schedule env sched c = Some c' -> rtc (cstep env) c c'.
Proof.
  revert c. induction sched as [|i sched IH]; intros c; simpl.
  - intros [= <-]. apply rtc_refl.
  - destruct (cstepOf env i c) as [c1|] eqn:Hs; [|discriminate].
    intros H. eapply rtc_l; [eapply cstepOf_sound; eassumption|auto].
Qed.

Lemma possible_Some (c : option (World * list Thread)) :
  possible c = true -> exists c', c = Some c'.
Proof. destruct c as [c'|]; [eauto|discriminate]. Qed.




(** * Further properties *)

(** ** The random names *)

Lemma stringAlphaNumeric_length : length stringAlphaNumeric = 62%nat.
Proof. reflexivity. Qed.

Lemma handle_RandInt (env : Env) (w : World) (max : Z) :
  handle env (RandInt max) w =
  Some (match randReader env (randPos w) with
        | inl v => inl (v mod max)
        | inr err => inr err
        end,
        addEvent (EvRandInt max) (setRandPos (S (randPos w)) w)).
Proof. reflexivity. Qed.

Lemma run_randomLoop (env : Env) (n : nat) (buf : string) (w w' : World)
    (o : Outcome string) :
  run env (randomLoop stringAlphaNumeric n buf) w = (o, w') ->
  resp w' = resp w /\ fs w' = fs w /\ cwd w' = cwd w /\ locked w' = locked w /\
  match o with
  | Returned s =>
      exists suffix, drawn env (randPos w) n = Some suffix /\ s = buf +:+ suffix /\
        randPos w' = (randPos w + n)%nat /\
        trace w' = trace w ++ replicate n (EvRandInt 62)
  | Panicked v =>
      exists i err, (i < n)%nat /\ randReader env (randPos w + i) = inr err /\
                    v = Error err
  | Blocked => False
  end.
Proof.
  revert buf w. induction n as [|n IH]; intros buf w.
  - cbn [randomLoop run]. intros [= <- <-]. repeat split.
    exists EmptyString. rewrite append_nil_r, Nat.add_0_r, app_nil_r. auto.
  - cbn [randomLoop]. rewrite run_perform, handle_RandInt, stringAlphaNumeric_length.
    change (Z.of_nat 62) with 62.
    destruct (randReader env (randPos w)) as [v|err] eqn:Hr.
    + pose proof (Z.mod_pos_bound v 62 ltac:(lia)) as Hb.
      destruct (v mod 62 <? 0) eqn:Hneg; [apply Z.ltb_lt in Hneg; lia|].
      destruct (stringAlphaNumeric !! Z.to_nat (v mod 62)) as [c|] eqn:Hc.
      2:{ apply lookup_ge_None in Hc. rewrite stringAlphaNumeric_length in Hc. lia. }
      intros Hrun. apply IH in Hrun as (H1 & H2 & H3 & H4 & Ho).
      cbn [resp fs cwd locked randPos trace addEvent setRandPos] in *.
      repeat (split; [assumption|]).
      destruct o as [s|v'|]; [| |contradiction].
      * destruct Ho as (suffix & Hd & -> & Hp & Ht).
        exists (String c suffix). cbn [drawn]. rewrite Hr, Hc, Hd.
        split; [reflexivity|]. split; [now rewrite append_assoc|].
        split; [lia|]. rewrite Ht, <- app_assoc. reflexivity.
      * destruct Ho as (i & err & Hi & Hri & ->). exists (S i), err.
        split; [lia|]. split; [|reflexivity]. now rewrite Nat.add_succ_r.
    + cbn [run]. intros [= <- <-].
      cbn [resp fs cwd locked randPos trace addEvent setRandPos].
      repeat (split; [reflexivity|]). exists 0%nat, err.
      split; [lia|]. rewrite Nat.add_0_r. auto.
Qed.

Lemma drawn_shape (env : Env) (n pos : nat) (s : string) :
  drawn env pos n = Some s ->
  String.length s = n /\
  Forall (fun c => In c stringAlphaNumeric) (list_ascii_of_string s).
Proof.
  revert pos s. induction n as [|n IH]; intros pos s; cbn [drawn].
  - intros [= <-]. split; [reflexivity|constructor].
  - destruct (randReader env pos) as [v|]; [|discriminate].
    destruct (stringAlphaNumeric !! Z.to_nat (v mod 62)) as [c|] eqn:Hc; [|discriminate].
    destruct (drawn env (S pos) n) as [t|] eqn:Hd; [|discriminate].
    intros [= <-]. apply IH in Hd as [Hl Hf]. cbn [String.length list_ascii_of_string].
    split; [now rewrite Hl|]. constructor; [|assumption].
    apply list_elem_of_In. eapply list_elem_of_lookup_2, Hc.
Qed.

(** X1. [RandomAlphaNumericString(length)] touches nothing but the random
    source: the response, the file system, the working directory and the
    mutex are as before, and it never waits.  It returns exactly when all
    its draws succeed, and then the string has [length] characters (none
    for a length of zero or less), each the character of the 62-letter
    alphabet at the index drawn, after exactly [length] draws below 62.
    It panics exactly when a draw fails, with the error of that draw: the
    index is never out of range. *)
Theorem RandomAlphaNumericString_result
    (env : Env) (w w' : World) (len : Z) (o : Outcome string) :
  run env (RandomAlphaNumericString len) w = (o, w') ->
  resp w' = resp w /\ fs w' = fs w /\ cwd w' = cwd w /\ locked w' = locked w /\
  match o with
  | Returned s =>
      drawn env (randPos w) (Z.to_nat len) = Some s /\
      String.length s = Z.to_nat len /\
      Forall (fun c => In c stringAlphaNumeric) (list_ascii_of_string s) /\
      randPos w' = (randPos w + Z.to_nat len)%nat /\
      trace w' = trace w ++ replicate (Z.to_nat len) (EvRandInt 62)
  | Panicked v =>
      exists i err, (i < Z.to_nat len)%nat /\
        randReader env (randPos w + i) = inr err /\ v = Error err
  | Blocked => False
  end.
Proof.
  unfold RandomAlphaNumericString, randomStringFromAlphabet. intros Hrun.
  apply run_randomLoop in Hrun as (H1 & H2 & H3 & H4 & Ho).
  repeat (split; [assumption|]).
  destruct o as [s|v|]; [|assumption..].
  destruct Ho as (suffix & Hd & -> & Hp & Ht). rewrite append_nil_l.
  destruct (drawn_shape _ _ _ _ Hd) as [Hl Hf]. auto.
Qed.

Lemma RandomAlphaNumericString_result_witness :
  resp (snd (run env0 (RandomAlphaNumericString 5) world0)) = resp world0 /\
  fs (snd (run env0 (RandomAlphaNumericString 5) world0)) = fs world0 /\
  cwd (snd (run env0 (RandomAlphaNumericString 5) world0)) = cwd world0 /\
  locked (snd (run env0 (RandomAlphaNumericString 5) world0)) = locked world0 /\
  match fst (run env0 (RandomAlphaNumericString 5) world0) with
  | Returned s =>
      drawn env0 (randPos world0) (Z.to_nat 5) = Some s /\
      String.length s = Z.to_nat 5 /\
      Forall (fun c => In c stringAlphaNumeric) (list_ascii_of_string s) /\
      randPos (snd (run env0 (RandomAlphaNumericString 5) world0)) =
        (randPos world0 + Z.to_nat 5)%nat /\
      trace (snd (run env0 (RandomAlphaNumericString 5) world0)) =
        trace world0 ++ replicate (Z.to_nat 5) (EvRandInt 62)
  | Panicked v =>
      exists i err, (i < Z.to_nat 5)%nat /\
        randReader env0 (randPos world0 + i) = inr err /\ v = Error err
  | Blocked => False
  end.
Proof.
  exact (RandomAlphaNumericString_result env0 world0 _ 5 _
           (surjective_pairing (run env0 (RandomAlphaNumericString 5) world0))).
Defined.

Lemma alphabet_plain (c : ascii) :
  In c stringAlphaNumeric -> Ascii.eqb c slash = false /\ c <> "."%char.
Proof.
  intros Hin. vm_compute in Hin.
  repeat (destruct Hin as [<-|Hin]; [split; [reflexivity|discriminate]|]).
  contradiction.
Qed.

Lemma alphabet_no_slash (s : string) :
  Forall (fun c => In c stringAlphaNumeric) (list_ascii_of_string s) ->
  countByte slash s = O.
Proof.
  induction s as [|c s IH]; cbn [list_ascii_of_string countByte]; [reflexivity|].
  intros Hf. apply Forall_cons in Hf as [Hc Hf].
  destruct (alphabet_plain c Hc) as [-> _]. now apply IH.
Qed.

Lemma alphabet_name_plain (s : string) :
  (0 < String.length s)%nat ->
  Forall (fun c => In c stringAlphaNumeric) (list_ascii_of_string s) ->
  plainName s.
Proof.
  intros Hl Hf. destruct s as [|c s]; [cbn in Hl; lia|].
  cbn [list_ascii_of_string] in Hf. pose proof Hf as Hf'.
  apply Forall_cons in Hf' as [Hc _]. destruct (alphabet_plain c Hc) as [_ Hdot].
  repeat split; try discriminate; try congruence.
  now apply alphabet_no_slash.
Qed.

(** X2. A name [RandomAlphaNumericString] returns for a positive length
    is a plain file name: it is not empty, it is neither [.] nor [..],
    and it holds no slash.  So, used as a relative path, it names an
    entry of the working directory itself, whatever that directory is. *)
Theorem random_name_is_plain
    (env : Env) (w w' : World) (len : Z) (s : string) :
  0 < len ->
  run env (RandomAlphaNumericString len) w = (Returned s, w') ->
  plainName s /\ forall dir, resolve dir s = dir ++ [s].
Proof.
  intros Hlen Hrun. unfold RandomAlphaNumericString, randomStringFromAlphabet in Hrun.
  apply run_randomLoop in Hrun as (_ & _ & _ & _ & suffix & Hd & -> & _).
  rewrite append_nil_l. destruct (drawn_shape _ _ _ _ Hd) as [Hl Hf].
  assert (Hplain : plainName suffix) by (apply alphabet_name_plain; [lia|assumption]).
  split; [assumption|]. intros dir. now apply resolve_plain.
Qed.

Lemma random_name_is_plain_witness :
  plainName "abcde" /\ forall dir, resolve dir "abcde" = dir ++ ["abcde"].
Proof.
  apply (random_name_is_plain env0 world0
           (snd (run env0 (RandomAlphaNumericString 5) world0)) 5 "abcde").
  - lia.
  - vm_compute. reflexivity.
Defined.

(** ** Runs as answers of the world *)

Lemma run_follows (env : Env) (A : Type) (p : prog A) (w w' : World) (o : Outcome A) :
  run env p w = (o, w') -> exists evs, exec p evs o /\ follows env w evs w'.
Proof.
  revert w. induction p as [a|v|X e k IH]; intros w; cbn [run].
  - intros [= <- <-]. exists []. split; [split; reflexivity|constructor].
  - intros [= <- <-]. exists []. split; [split; reflexivity|constructor].
  - destruct (handle env e w) as [[x w1]|] eqn:Eh.
    + intros Hr. apply IH in Hr as (evs & He & Hf).
      exists (event_of e x :: evs). split; [right; eauto|].
      econstructor; eauto.
    + intros [= <- <-]. apply handle_blocks in Eh as [Hl _].
      exists []. split; [left; auto|constructor].
Qed.

Lemma follows_app_inv (env : Env) (w w' : World) (a b : list event) :
  follows env w (a ++ b) w' -> exists w1, follows env w a w1 /\ follows env w1 b w'.
Proof.
  revert w. induction a as [|ev a IH]; intros w; cbn [app].
  - intros H. exists w. split; [constructor|assumption].
  - intros H. inversion H as [|X e x w0 w1 ev' evs' w0' Hh Hev Hf]; subst.
    apply IH in Hf as (w2 & Ha & Hb). exists w2. split; [|assumption].
    econstructor; eauto.
Qed.

Lemma follows_facts (env : Env) (w w' : World) (evs : list event) :
  follows env w evs w' ->
  trace w' = trace w ++ evs /\ resp w' = replay evs (resp w).
Proof.
  induction 1 as [w|X e x w w1 ev evs w' Hh -> Hf [IHt IHr]].
  - rewrite app_nil_r. auto.
  - apply handle_facts in Hh as (Ht & Hr & _).
    rewrite IHt, Ht, <- app_assoc, IHr, Hr. auto.
Qed.

Lemma handle_neutral (env : Env) (X : Type) (e : eff X) (x : X) (w w' : World) :
  handle env e w = Some (x, w') -> neutral (event_of e x) = true ->
  fs w' = fs w /\ cwd w' = cwd w /\ locked w' = locked w.
Proof.
  unfold handle. destruct (answer env e w) as [[x' w1]|] eqn:Ea; [|discriminate].
  intros [= <- <-]. cbn [fs cwd locked addEvent].
  destruct e; simpl in Ea; unfold create in Ea;
    repeat case_match; simplify_eq; simpl; auto; discriminate.
Qed.

Lemma follows_neutral (env : Env) (w w' : World) (evs : list event) :
  follows env w evs w' -> Forall (fun ev => neutral ev = true) evs ->
  fs w' = fs w /\ cwd w' = cwd w /\ locked w' = locked w.
Proof.
  induction 1 as [w|X e x w w1 ev evs w' Hh -> Hf IH]; [auto|].
  intros Hn. apply Forall_cons in Hn as [Hev Hn].
  destruct (handle_neutral _ _ _ _ _ _ Hh Hev) as (H1 & H2 & H3).
  destruct (IH Hn) as (H4 & H5 & H6). repeat split; congruence.
Qed.

Lemma handle_stays (env : Env) (X : Type) (e : eff X) (x : X) (w w' : World) :
  handle env e w = Some (x, w') -> stays (event_of e x) = true -> cwd w' = cwd w.
Proof.
  unfold handle. destruct (answer env e w) as [[x' w1]|] eqn:Ea; [|discriminate].
  intros [= <- <-]. cbn [cwd addEvent].
  destruct e; simpl in Ea; unfold create in Ea;
    repeat case_match; simplify_eq; simpl; auto; discriminate.
Qed.

Lemma follows_stays (env : Env) (w w' : World) (evs : list event) :
  follows env w evs w' -> Forall (fun ev => stays ev = true) evs -> cwd w' = cwd w.
Proof.
  induction 1 as [w|X e x w w1 ev evs w' Hh -> Hf IH]; [auto|].
  intros Hn. apply Forall_cons in Hn as [Hev Hn].
  rewrite (IH Hn). eapply handle_stays; eauto.
Qed.

(** From a fresh world: the events of the run are its trace. *)
Lemma run_fresh_follows (env : Env) (A : Type) (p : prog A) (w w' : World)
    (o : Outcome A) :
  fresh w -> run env p w = (o, w') ->
  exec p (trace w') o /\ follows env w (trace w') w' /\
  resp w' = replay (trace w') noResponse.
Proof.
  intros [Hr Ht] Hrun. apply run_follows in Hrun as (evs & He & Hf).
  destruct (follows_facts _ _ _ _ Hf) as [Ht' Hr']. rewrite Ht in Ht'. cbn [app] in Ht'.
  subst evs. rewrite Hr in Hr'. auto.
Qed.

(** ** Routine events *)

Lemma notable_app (a b : list event) : notable (a ++ b) = notable a ++ notable b.
Proof.
  induction a as [|ev a IH]; [reflexivity|]. cbn [app notable].
  destruct (routine ev); cbn [app]; congruence.
Qed.

Lemma notable_Routine (evs : list event) : Routine evs -> notable evs = [].
Proof.
  induction 1 as [|ev evs Hev _ IH]; [reflexivity|]. cbn [notable]. now rewrite Hev.
Qed.

Lemma replay_notable (evs : list event) (r : Response) :
  replay (notable evs) r = replay evs r.
Proof.
  revert r. induction evs as [|ev evs IH]; intros r; [reflexivity|].
  cbn [notable]. destruct ev as [| | | | | | |? ? []| | | | | | | |]; cbn [routine];
    unfold replay; cbn [fold_left respAfter]; apply IH.
Qed.

Lemma commands_notable (evs : list event) : commands (notable evs) = commands evs.
Proof.
  induction evs as [|ev evs IH]; [reflexivity|].
  cbn [notable]. destruct ev as [| | | | | | |? ? []| | | | | | | |]; cbn [routine commands];
    congruence.
Qed.

Lemma In_notable (ev : event) (evs : list event) :
  routine ev = false -> In ev evs <-> In ev (notable evs).
Proof.
  intros Hq. induction evs as [|ev' evs IH]; [reflexivity|]. cbn [notable In].
  destruct (routine ev') eqn:Hr; cbn [In]; [|tauto].
  split; [|tauto]. intros [->|Hin]; [congruence|tauto].
Qed.

Lemma headerFirst_notable (started : bool) (evs : list event) :
  headerFirst started (notable evs) = headerFirst started evs.
Proof.
  revert started. induction evs as [|ev evs IH]; intros started; [reflexivity|].
  cbn [notable]. destruct ev as [| | | | | | |? ? []| | | | | | | |];
    cbn [routine headerFirst]; rewrite ?IH; reflexivity.
Qed.

Lemma Draws_Routine (evs : list event) : Draws evs -> Routine evs.
Proof.
  intros Hd. eapply Forall_impl; [exact Hd|].
  intros [] H; try discriminate H; reflexivity.
Qed.

Lemma Draws_neutral (evs : list event) :
  Draws evs -> Forall (fun ev => neutral ev = true) evs.
Proof.
  intros Hd. eapply Forall_impl; [exact Hd|].
  intros [] H; try discriminate H; reflexivity.
Qed.

Lemma WritesTo_Routine (f : File) (evs : list event) : WritesTo f evs -> Routine evs.
Proof.
  intros Hw. eapply Forall_impl; [exact Hw|].
  intros [| | | | | | |? ? []| | | | | | | |] H; try contradiction; reflexivity.
Qed.

Lemma WritesTo_stays (f : File) (evs : list event) :
  WritesTo f evs -> Forall (fun ev => stays ev = true) evs.
Proof.
  intros Hw. eapply Forall_impl; [exact Hw|].
  intros [| | | | | | |? ? []| | | | | | | |] H; try contradiction; reflexivity.
Qed.

(** ** The helper programs, by the events they leave *)

Lemma exec_randomLoop_draws (alpha : list ascii) (n : nat) (buf : string)
    (evs : list event) (o : Outcome string) :
  exec (randomLoop alpha n buf) evs o ->
  Draws evs /\ o <> Blocked /\
  forall s, o = Returned s ->
    exists suffix, s = buf +:+ suffix /\ String.length suffix = n /\
      Forall (fun c => In c alpha) (list_ascii_of_string suffix).
Proof.
  revert buf evs. induction n as [|n IH]; intros buf evs; simpl.
  - intros [-> ->]. split; [constructor|]. split; [discriminate|].
    intros s [= <-]. exists EmptyString. rewrite append_nil_r.
    split; [reflexivity|]. split; [reflexivity|constructor].
  - intros [(Hl & _)|(x & evs' & -> & H)]; [discriminate|].
    destruct x as [val|err]; simpl in H.
    + destruct (val <? 0);
        [destruct H as [-> ->]; split; [repeat constructor|split; discriminate]|].
      destruct (alpha !! Z.to_nat val) as [c|] eqn:Hc.
      * apply IH in H as (HQ & Hb & Hs).
        split; [constructor; [reflexivity|assumption]|]. split; [assumption|].
        intros s Ho. destruct (Hs s Ho) as (suffix & -> & Hlen & Hf).
        exists (String c suffix). rewrite append_assoc.
        split; [reflexivity|]. split; [cbn; now rewrite Hlen|].
        cbn [list_ascii_of_string]. constructor; [|assumption].
        apply list_elem_of_In. eapply list_elem_of_lookup_2, Hc.
      * destruct H as [-> ->]. split; [repeat constructor|split; discriminate].
    + destruct H as [-> ->]. split; [repeat constructor|split; discriminate].
Qed.

Lemma exec_Random_draws (A : Type) (n : Z) (k : string -> prog A) (evs : list event)
    (o : Outcome A) :
  exec (bind (RandomAlphaNumericString n) k) evs o ->
  (exists s evs1 evs2, Draws evs1 /\ evs = evs1 ++ evs2 /\ exec (k s) evs2 o /\
     (0 < n -> plainName s)) \/
  (exists v, Draws evs /\ o = Panicked v).
Proof.
  intros H. apply exec_bind in H as [(s & evs1 & evs2 & H1 & H2 & ->)|[(v & H1 & ->)|[H1 ->]]].
  - apply exec_randomLoop_draws in H1 as (HQ & _ & Hs). left.
    exists s, evs1, evs2. repeat (split; [assumption || reflexivity|]).
    intros Hn. destruct (Hs s eq_refl) as (suffix & -> & Hlen & Hf).
    rewrite append_nil_l. apply alphabet_name_plain; [lia|assumption].
  - apply exec_randomLoop_draws in H1 as (HQ & _). right. eauto.
  - apply exec_randomLoop_draws in H1 as (_ & Hb & _). congruence.
Qed.

(** The copy of the body into an open file: writes that succeed, then
    either the result of the reads, or one write that fails and its
    error. *)
Lemma exec_teeChunks_writes (cs : list string) (rerr : option error) (fl : File)
    (evs : list event) (o : Outcome (option error)) :
  exec (teeChunks cs rerr (Some fl)) evs o ->
  (WritesTo fl evs /\ o = Returned rerr) \/
  (exists ws c e, WritesTo fl ws /\ evs = ws ++ [EvFileWrite fl c (Some e)] /\
                  o = Returned (Some e)).
Proof.
  revert evs. induction cs as [|c cs IH]; intros evs; cbn [teeChunks].
  - intros [-> ->]. left. split; [constructor|reflexivity].
  - destruct (String.eqb c EmptyString); [apply IH|]. cbn [File_Write].
    intros H. apply exec_perform in H as [(Hl & _)|(x & evs' & -> & H)]; [discriminate|].
    destruct x as [e|]; cbn [event_of].
    + destruct H as [-> ->]. right. exists [], c, e. split; [constructor|auto].
    + apply IH in H as [[Hw ->]|(ws & c' & e & Hw & -> & ->)].
      * left. split; [constructor; [reflexivity|assumption]|reflexivity].
      * right. exists (EvFileWrite fl c None :: ws), c', e.
        split; [constructor; [reflexivity|assumption]|auto].
Qed.

Lemma exec_Tee_writes (A : Type) (b : Body) (f : option File)
    (k : option error -> prog A) (evs : list event) (o : Outcome A) :
  exec (bind (ReadAll_TeeReader b f) k) evs o ->
  (exists fl ws evs2, f = Some fl /\ WritesTo fl ws /\ evs = ws ++ evs2 /\
     exec (k (readErr b)) evs2 o) \/
  (exists fl ws c e evs2, f = Some fl /\ WritesTo fl ws /\
     evs = ws ++ EvFileWrite fl c (Some e) :: evs2 /\ exec (k (Some e)) evs2 o) \/
  (f = None /\ exec (k (teeIntoNil b)) evs o).
Proof.
  intros H. destruct f as [fl|].
  - apply exec_bind in H as [(s & evs1 & evs2 & H1 & H2 & ->)|[(v & H1 & ->)|[H1 ->]]];
      apply exec_teeChunks_writes in H1 as [[Hw Ho]|(ws & c & e & Hw & -> & Ho)];
      try discriminate Ho; injection Ho as ->.
    + left. eauto 10.
    + right. left. exists fl, ws, c, e, evs2. rewrite <- app_assoc.
      split; [reflexivity|]. split; [assumption|]. split; [reflexivity|assumption].
  - right. right. split; [reflexivity|].
    apply exec_Tee in H as (res & evs1 & evs2 & _ & -> & H & Hn).
    destruct (Hn eq_refl) as [-> ->]. assumption.
Qed.

Lemma exec_File_Close_event (A : Type) (f : option File) (k : option error -> prog A)
    (evs : list event) (o : Outcome A) :
  exec (bind (File_Close f) k) evs o ->
  (exists fl x evs2, f = Some fl /\ evs = EvFileClose fl :: evs2 /\ exec (k x) evs2 o) \/
  (f = None /\ exec (k (Some ErrInvalid)) evs o).
Proof.
  destruct f as [fl|]; simpl.
  - intros [(Hl & _)|(x & evs' & -> & H)]; [discriminate|]. left. eauto 10.
  - intros H. right. auto.
Qed.

(** One step through the program of [H : exec p evs o], keeping what the
    helper programs did. *)
Ltac trace_step H :=
  let E1 := fresh "E" in
  let E2 := fresh "E" in
  let E3 := fresh "E" in
  let HD := fresh "HD" in
  let HW := fresh "HW" in
  let HP := fresh "HP" in
  lazymatch type of H with
  | exec (bind (perform _) _) _ _ =>
      apply exec_perform in H;
      destruct H as [(E1 & E2 & E3)|(? & ? & E1 & H)];
      [first [discriminate E1 | settle E2; settle E3] | settle E1; cbv beta in H]
  | exec (bind (RandomAlphaNumericString _) _) _ _ =>
      apply exec_Random_draws in H;
      destruct H as [(? & ? & ? & HD & E1 & H & HP)|(? & HD & E1)];
      [settle E1; try specialize (HP eq_refl) | settle E1]
  | exec (bind (ReadAll_TeeReader _ _) _) _ _ =>
      apply exec_Tee_writes in H;
      destruct H as [(? & ? & ? & E1 & HW & E2 & H)
                    |[(? & ? & ? & ? & ? & E1 & HW & E2 & H)|(E1 & H)]];
      [settle E1; settle E2 | settle E1; settle E2 | settle E1]
  | exec (bind (File_Name _) _) _ _ =>
      apply exec_File_Name in H;
      destruct H as [(? & E1 & H)|(E1 & E2 & E3)];
      [settle E1 | settle E1; settle E2; settle E3]
  | exec (bind (File_Close _) _) _ _ =>
      apply exec_File_Close_event in H;
      destruct H as [(? & ? & ? & E1 & E2 & H)|(E1 & H)];
      [settle E1; settle E2 | settle E1]
  | exec (bind (Error_of _) _) _ _ =>
      apply exec_Error_of in H;
      destruct H as [(? & E1 & H)|(E1 & E2 & E3)];
      [settle E1 | settle E1; settle E2; settle E3]
  | exec (bind (Part_000.testLoop _ _ _ _) _) _ _ =>
      apply exec_Loop in H;
      destruct H as (? & ? & E1 & E2 & H); settle E2
  | exec (defer (perform Unlock) _) _ _ =>
      apply exec_defer_Unlock in H;
      destruct H as (? & H & [(E1 & E2)|(E1 & E2)]);
      [settle E1; settle E2 | settle E2]
  | exec (defer (bind (perform _) _) _) _ _ =>
      apply exec_defer_one in H; [|reflexivity];
      destruct H as (? & H & [(E1 & E2)|(E1 & ? & E2)]);
      [settle E1; settle E2 | settle E2]
  | exec (Ret _) _ _ => destruct H as [E1 E2]; settle E1; settle E2
  | exec (Panic _) _ _ => destruct H as [E1 E2]; settle E1; settle E2
  | exec (if ?c then _ else _) _ _ => destruct c eqn:?
  | exec (match ?x with _ => _ end) _ _ => destruct x eqn:?
  end.

(** Computing the notable events of a run that was stepped through. *)
Ltac notables :=
  cbn [event_of fst snd];
  repeat (rewrite notable_app || (progress cbn [notable routine app]) ||
          rewrite notable_Routine by
            first [assumption | apply Draws_Routine; assumption
                  | eapply WritesTo_Routine; eassumption]).

(** ** Single answers of the world *)

Lemma follows_cons_inv (env : Env) (w w' : World) (ev : event) (evs : list event) :
  follows env w (ev :: evs) w' ->
  exists X (e : eff X) x w1,
    handle env e w = Some (x, w1) /\ ev = event_of e x /\ follows env w1 evs w'.
Proof.
  intros H. inversion H as [|X e x w0 w1 ev' evs' w0' Hh Hev Hf]; subst. eauto 10.
Qed.

Lemma follows_OpenFile (env : Env) (w w' : World) (name : string) (f : option File)
    (err : option error) (evs : list event) :
  follows env w (EvOpenFile name f err :: evs) w' ->
  exists w1, handle env (OpenFile name) w = Some ((f, err), w1) /\ follows env w1 evs w'.
Proof.
  intros H. apply follows_cons_inv in H as (X & e & x & w1 & Hh & Hev & Hf).
  destruct e; try discriminate Hev. destruct x as [f0 err0]. cbn [event_of fst snd] in Hev.
  injection Hev as -> -> ->. exists w1. auto.
Qed.

Lemma follows_Remove (env : Env) (w w' : World) (name : string) (err : option error) :
  follows env w [EvRemove name err] w' ->
  handle env (Remove name) w = Some (err, w').
Proof.
  intros H. apply follows_cons_inv in H as (X & e & x & w1 & Hh & Hev & Hf).
  destruct e; try discriminate Hev. cbn [event_of] in Hev.
  injection Hev as -> ->. inversion Hf; subst. assumption.
Qed.

(** [os.OpenFile] with [O_CREATE|O_EXCL] returns a file exactly when it
    returns no error; the file is then new, empty, and carries the name
    it was opened under. *)
Lemma handle_OpenFile (env : Env) (w w' : World) (name : string) (f : option File)
    (err : option error) :
  handle env (OpenFile name) w = Some ((f, err), w') ->
  cwd w' = cwd w /\
  match f with
  | Some fl =>
      err = None /\ fl = mkFile name (resolve (cwd w) name) /\
      exists_at (fs w) (location fl) = false /\
      fs w' = <[location fl := NFile EmptyString]> (fs w)
  | None => err <> None /\ fs w' = fs w
  end.
Proof.
  unfold handle. cbn [answer]. unfold create. intros H.
  repeat case_match; simplify_eq; cbn; auto.
Qed.

Lemma handle_Remove (env : Env) (w w' : World) (name : string) :
  handle env (Remove name) w = Some (None, w') ->
  cwd w' = cwd w /\ fs w' = delete (resolve (cwd w) name) (fs w).
Proof.
  unfold handle. cbn [answer]. intros H. repeat case_match; simplify_eq; cbn; auto.
Qed.

(** ** The Android runner: staging *)

(** Proving that the events of a run that was stepped through all
    satisfy a computable predicate. *)
Ltac all_events lem :=
  repeat first [ apply List.Forall_nil
               | apply List.Forall_cons; [reflexivity|]
               | apply Forall_app; split
               | apply lem; assumption
               | eapply lem; eassumption ].

Lemma runAndroidTest_exists (r : Request) (query : gmap string (list string))
    (evs : list event) (o : Outcome unit) (name : string) (f : option File) (err : error) :
  exec (runAndroidTest r query) evs o ->
  In (EvOpenFile name f (Some err)) (notable evs) ->
  IsExist (Some err) = true ->
  o = Returned tt /\
  notable evs = [EvOpenFile name f (Some err); EvWriteHeader StatusBadRequest;
                 EvWrite (Error err)] /\
  Forall (fun ev => neutral ev = true) evs.
Proof.
  intros H. unfold runAndroidTest in H. cbv zeta in H.
  repeat trace_step H; notables; intros Hin Hex; in_cases Hin; try congruence.
  split; [reflexivity|]. split; [reflexivity|]. all_events Draws_neutral.
Qed.

Lemma not_In_of_notable (ev : event) (evs l : list event) :
  notable evs = l -> routine ev = false -> ~ In ev l -> ~ In ev evs.
Proof. intros <- Hr Hn Hin. apply Hn. exact (proj1 (In_notable ev evs Hr) Hin). Qed.

(** X3. The Android runner, when the staging file name is taken
    ([os.OpenFile] fails and [os.IsExist] holds of the error): the
    response is 400 with the text of the error, and nothing else
    happens.  No command is run, the mutex is not touched, and no
    [os.Remove] is called, so the file that was in the way is still
    there: the file system and the working directory are as before. *)
Theorem android_taken_name_is_400_and_file_kept
    (env : Env) (w w' : World) (r : Request) (query : gmap string (list string))
    (o : Outcome unit) (name : string) (f : option File) (err : error) :
  fresh w ->
  run env (runAndroidTest r query) w = (o, w') ->
  In (EvOpenFile name f (Some err)) (trace w') ->
  IsExist (Some err) = true ->
  responds (o, w') StatusBadRequest (Error err) /\
  commands (trace w') = [] /\
  fs w' = fs w /\ cwd w' = cwd w /\ locked w' = locked w /\
  forall n e, ~ In (EvRemove n e) (trace w').
Proof.
  intros Hfresh Hrun Hin Hex.
  destruct (run_fresh_follows _ _ _ _ _ _ Hfresh Hrun) as (He & Hf & Hresp).
  apply In_notable in Hin; [|reflexivity].
  destruct (runAndroidTest_exists _ _ _ _ _ _ _ He Hin Hex) as (-> & Hn & Hneu).
  rewrite <- replay_notable, Hn in Hresp. rewrite <- commands_notable, Hn.
  split; [now apply responds_of_response|]. split; [reflexivity|].
  destruct (follows_neutral _ _ _ _ Hf Hneu) as (H1 & H2 & H3).
  repeat (split; [assumption|]).
  intros n e. apply (not_In_of_notable _ _ _ Hn); [reflexivity|].
  intros Hr. in_cases Hr.
Qed.

Lemma android_taken_name_is_400_and_file_kept_witness :
  responds (fst androidTaken, snd androidTaken) StatusBadRequest
    "open /tmp/test_abcde.apk: file exists" /\
  commands (trace (snd androidTaken)) = [] /\
  fs (snd androidTaken) = fs worldTaken /\ cwd (snd androidTaken) = cwd worldTaken /\
  locked (snd androidTaken) = locked worldTaken /\
  forall n e, ~ In (EvRemove n e) (trace (snd androidTaken)).
Proof.
  apply (android_taken_name_is_400_and_file_kept env0 worldTaken (snd androidTaken)
           reqAndroid (queryOf reqAndroid) (fst androidTaken)
           "/tmp/test_abcde.apk" None (PathError "open" "/tmp/test_abcde.apk" EEXIST)).
  - split; reflexivity.
  - apply surjective_pairing.
  - vm_compute. repeat (first [left; reflexivity | right]).
  - reflexivity.
Defined.

Lemma runAndroidTest_write_fails (r : Request) (query : gmap string (list string))
    (evs : list event) (o : Outcome unit) (f : File) (b : string) (e : error) :
  exec (runAndroidTest r query) evs o ->
  In (EvFileWrite f b (Some e)) (notable evs) ->
  o = Returned tt /\
  exists name err rerr,
    notable evs = [EvOpenFile name (Some f) err; EvFileWrite f b (Some e);
                   EvWriteHeader StatusBadRequest; EvWrite (Error e);
                   EvRemove (Name f) rerr].
Proof.
  intros H. unfold runAndroidTest in H. cbv zeta in H.
  repeat trace_step H; notables; intros Hin; in_cases Hin.
  split; [reflexivity|]. eauto.
Qed.

Lemma runAndroidTest_read_fails (r : Request) (query : gmap string (list string))
    (evs : list event) (o : Outcome unit) (name : string) (f : File)
    (err : option error) (e : error) :
  exec (runAndroidTest r query) evs o ->
  In (EvOpenFile name (Some f) err) (notable evs) ->
  IsExist err = false ->
  readErr (body r) = Some e ->
  (forall f' b e', ~ In (EvFileWrite f' b (Some e')) (notable evs)) ->
  o = Returned tt /\
  exists rerr,
    notable evs = [EvOpenFile name (Some f) err;
                   EvWriteHeader StatusBadRequest; EvWrite (Error e);
                   EvRemove (Name f) rerr].
Proof.
  intros H. unfold runAndroidTest in H. cbv zeta in H.
  repeat trace_step H; notables; intros Hin Hex Hre Hnw; in_cases Hin; try congruence.
  all: try (exfalso; eapply Hnw; cbn [In]; eauto; fail).
  split; [reflexivity|]. assert (e0 = e) as -> by congruence. eauto.
Qed.

(** X4. The Android runner, when the copy of the request body into the
    staging file fails.  A write to the file that fails ends the copy:
    the response is 400 with the text of the write error.  A read of the
    body that fails, all writes having succeeded, gives 400 with the
    text of the read error.  In both cases no command is run and the
    mutex is never taken. *)
Theorem android_copy_errors_are_400
    (env : Env) (w w' : World) (r : Request) (query : gmap string (list string))
    (o : Outcome unit) :
  fresh w ->
  run env (runAndroidTest r query) w = (o, w') ->
  (forall f b e,
     In (EvFileWrite f b (Some e)) (trace w') ->
     responds (o, w') StatusBadRequest (Error e) /\
     commands (trace w') = [] /\ ~ In EvLock (trace w')) /\
  (forall name f err e,
     In (EvOpenFile name (Some f) err) (trace w') ->
     IsExist err = false ->
     readErr (body r) = Some e ->
     (forall f' b e', ~ In (EvFileWrite f' b (Some e')) (trace w')) ->
     responds (o, w') StatusBadRequest (Error e) /\
     commands (trace w') = [] /\ ~ In EvLock (trace w')).
Proof.
  intros Hfresh Hrun.
  destruct (run_fresh_follows _ _ _ _ _ _ Hfresh Hrun) as (He & Hf & Hresp).
  rewrite <- replay_notable in Hresp. rewrite <- commands_notable.
  split.
  - intros f b e Hin. apply In_notable in Hin; [|reflexivity].
    destruct (runAndroidTest_write_fails _ _ _ _ _ _ _ He Hin)
      as (-> & name & err & rerr & Hn).
    rewrite Hn in Hresp. rewrite Hn.
    split; [now apply responds_of_response|]. split; [reflexivity|].
    apply (not_In_of_notable _ _ _ Hn); [reflexivity|]. intros Hl. in_cases Hl.
  - intros name f err e Hin Hex Hre Hnw. apply In_notable in Hin; [|reflexivity].
    assert (Hnw' : forall f' b e', ~ In (EvFileWrite f' b (Some e')) (notable (trace w'))).
    { intros f' b e' Hi. apply (Hnw f' b e'). now apply In_notable in Hi. }
    destruct (runAndroidTest_read_fails _ _ _ _ _ _ _ _ He Hin Hex Hre Hnw')
      as (-> & rerr & Hn).
    rewrite Hn in Hresp. rewrite Hn.
    split; [now apply responds_of_response|]. split; [reflexivity|].
    apply (not_In_of_notable _ _ _ Hn); [reflexivity|]. intros Hl. in_cases Hl.
Qed.

Lemma android_copy_errors_are_400_witness :
  responds (fst androidDiskFull, snd androidDiskFull) StatusBadRequest
    "write /tmp/test_abcde.apk: no space left on device" /\
  responds (fst androidBroken, snd androidBroken) StatusBadRequest "unexpected EOF".
Proof.
  split.
  - refine (proj1 (proj1 (android_copy_errors_are_400 envDiskFull world0
      (snd androidDiskFull) reqAndroid (queryOf reqAndroid) (fst androidDiskFull) _ _)
      (mkFile "/tmp/test_abcde.apk" ["tmp"; "test_abcde.apk"]) "PK"
      (PathError "write" "/tmp/test_abcde.apk" ENOSPC) _)).
    + split; reflexivity.
    + apply surjective_pairing.
    + vm_compute. repeat (first [left; reflexivity | right]).
  - refine (proj1 (proj2 (android_copy_errors_are_400 env0 world0
      (snd androidBroken) reqAndroidBroken (queryOf reqAndroidBroken) (fst androidBroken) _ _)
      "/tmp/test_abcde.apk" (mkFile "/tmp/test_abcde.apk" ["tmp"; "test_abcde.apk"]) None
      (errorString "unexpected EOF") _ _ _ _)).
    + split; reflexivity.
    + apply surjective_pairing.
    + vm_compute. repeat (first [left; reflexivity | right]).
    + reflexivity.
    + reflexivity.
    + intros f' b e' Hin. vm_compute in Hin.
      repeat (destruct Hin as [Hin|Hin]; [discriminate Hin|]). contradiction.
Defined.

(** Computing the notable events in a hypothesis. *)
Ltac notables_in H :=
  cbn [event_of fst snd] in H;
  repeat (rewrite notable_app in H || (progress cbn [notable routine app] in H) ||
          rewrite notable_Routine in H by
            first [assumption | apply Draws_Routine; assumption
                  | eapply WritesTo_Routine; eassumption]).

Lemma runAndroidTest_removes (r : Request) (query : gmap string (list string))
    (evs : list event) (o : Outcome unit) (name : string) (f : File)
    (err : option error) :
  exec (runAndroidTest r query) evs o ->
  In (EvOpenFile name (Some f) err) (notable evs) ->
  IsExist err = false ->
  o <> Blocked ->
  o = Returned tt /\
  exists pre mid rerr,
    evs = pre ++ EvOpenFile name (Some f) err :: mid ++ [EvRemove (Name f) rerr] /\
    Forall (fun ev => stays ev = true) mid.
Proof.
  intros H. unfold runAndroidTest in H. cbv zeta in H.
  repeat trace_step H; intros Hin Hex Hnb; notables_in Hin; in_cases Hin;
    try congruence.
  all: split; [reflexivity|].
  all: eexists (EvTempDir :: _), _, _; split; [reflexivity|].
  all: all_events WritesTo_stays.
Qed.

Lemma follows_opened (env : Env) (w w' : World) (evs : list event) (name : string)
    (f : File) (err : option error) :
  follows env w evs w' -> In (EvOpenFile name (Some f) err) evs ->
  err = None /\ Name f = name.
Proof.
  induction 1 as [w|X e x w w1 ev evs w' Hh -> Hf IH]; [intros []|].
  intros [Hev|Hin]; [|auto].
  destruct e; try discriminate Hev. destruct x as [f0 err0]. cbn [event_of fst snd] in Hev.
  injection Hev as -> -> ->.
  apply handle_OpenFile in Hh as (_ & -> & -> & _). auto.
Qed.

(** A file that was created, and later removed by the name it was opened
    under, the working directory being the same: it is gone. *)
Lemma staged_file_removed (env : Env) (w w' : World) (pre mid : list event)
    (name : string) (f : File) (err rerr : option error) :
  follows env w (pre ++ EvOpenFile name (Some f) err :: mid ++ [EvRemove (Name f) rerr]) w' ->
  Forall (fun ev => stays ev = true) mid ->
  rerr = None -> fs w' !! location f = None.
Proof.
  intros H Hmid ->.
  apply follows_app_inv in H as (w1 & _ & H).
  apply follows_OpenFile in H as (w2 & Hopen & H).
  apply handle_OpenFile in Hopen as (Hcwd & _ & -> & _).
  apply follows_app_inv in H as (w3 & Hm & H).
  apply follows_Remove, handle_Remove in H as [_ ->].
  rewrite (follows_stays _ _ _ _ Hm Hmid), Hcwd. cbn [Name location].
  apply lookup_delete_eq.
Qed.

(** X5. Once the Android runner has created its staging file, every way
    it ends (an error of the copy, a failure of either command, success)
    ends with [os.Remove] of that file, under the name it was opened
    with: the last event of a run that is not left waiting for the mutex
    is that call.  When the call reports no error the file is gone from
    the file system.  The runner returns in all these cases: with the
    file open there is nothing left that could panic. *)
Theorem android_staging_file_is_removed
    (env : Env) (w w' : World) (r : Request) (query : gmap string (list string))
    (o : Outcome unit) (name : string) (f : File) (err : option error) :
  fresh w ->
  run env (runAndroidTest r query) w = (o, w') ->
  In (EvOpenFile name (Some f) err) (trace w') ->
  o <> Blocked ->
  o = Returned tt /\ Name f = name /\
  exists rerr, last (trace w') = Some (EvRemove name rerr) /\
               (rerr = None -> fs w' !! location f = None).
Proof.
  intros Hfresh Hrun Hin Hnb.
  destruct (run_fresh_follows _ _ _ _ _ _ Hfresh Hrun) as (He & Hf & Hresp).
  destruct (follows_opened _ _ _ _ _ _ _ Hf Hin) as [-> Hname].
  pose proof Hin as Hin'. apply In_notable in Hin'; [|reflexivity].
  destruct (runAndroidTest_removes _ _ _ _ _ _ _ He Hin' eq_refl Hnb)
    as (-> & pre & mid & rerr & Hevs & Hmid).
  split; [reflexivity|]. split; [assumption|]. exists rerr. split.
  - rewrite Hevs, Hname.
    change (pre ++ EvOpenFile name (Some f) None :: mid ++ [EvRemove name rerr])
      with (pre ++ (EvOpenFile name (Some f) None :: mid) ++ [EvRemove name rerr]).
    rewrite app_assoc. apply last_snoc.
  - rewrite Hevs in Hf. exact (staged_file_removed _ _ _ _ _ _ _ _ _ Hf Hmid).
Qed.

Lemma android_staging_file_is_removed_witness :
  fst androidStaging = Returned tt /\
  Name (mkFile "/tmp/test_abcde.apk" ["tmp"; "test_abcde.apk"]) = "/tmp/test_abcde.apk" /\
  exists rerr,
    last (trace (snd androidStaging)) = Some (EvRemove "/tmp/test_abcde.apk" rerr) /\
    (rerr = None ->
     fs (snd androidStaging) !!
       location (mkFile "/tmp/test_abcde.apk" ["tmp"; "test_abcde.apk"]) = None).
Proof.
  apply (android_staging_file_is_removed env0 world0 (snd androidStaging) reqAndroid
           (queryOf reqAndroid) (fst androidStaging) "/tmp/test_abcde.apk"
           (mkFile "/tmp/test_abcde.apk" ["tmp"; "test_abcde.apk"]) None).
  - split; reflexivity.
  - apply surjective_pairing.
  - vm_compute. repeat (first [left; reflexivity | right]).
  - vm_compute. discriminate.
Defined.

(** ** The iOS runner: staging *)

Lemma loopEvents_kinds (Quote : string -> string) (dest : string)
    (schemes : list string) (results : list (string * option error)) :
  Forall (fun ev => loopKind ev = true) (loopEvents Quote dest schemes results).
Proof.
  revert results. induction schemes as [|s schemes IH]; intros results; [constructor|].
  destruct results as [|res results]; [constructor|].
  cbn [loopEvents]. apply Forall_app. split; [|apply IH].
  unfold schemeEvents. destruct (snd res); repeat constructor.
Qed.

Lemma loopEvents_notable_kind (Quote : string -> string) (dest : string)
    (schemes : list string) (results : list (string * option error)) (ev : event) :
  In ev (notable (loopEvents Quote dest schemes results)) -> loopKind ev = true.
Proof.
  intros Hin. destruct (routine ev) eqn:Hr.
  - destruct ev as [| | | | | | |? ? []| | | | | | | |]; try discriminate Hr; try reflexivity.
    all: exfalso; revert Hin; generalize (loopEvents Quote dest schemes results);
      intros l; induction l as [|ev' l IH]; cbn [notable]; [intros []|];
      destruct (routine ev') eqn:Hr'; [assumption|]; intros [->|Hin]; [discriminate|auto].
  - apply In_notable in Hin; [|assumption].
    pose proof (loopEvents_kinds Quote dest schemes results) as Hk.
    rewrite Forall_forall in Hk. apply Hk. now apply list_elem_of_In.
Qed.

(** Deciding [In ev l] when [l] holds the events of the scheme loop. *)
Ltac in_loop_cases H :=
  repeat first
    [ apply in_app_or in H; destruct H as [H|H]
    | apply loopEvents_notable_kind in H; discriminate H
    | destruct H as [H|H]; [first [discriminate H | injection H; intros; subst]|]
    | contradiction H ].

Lemma Draws_leaves (evs : list event) :
  Draws evs -> Forall (fun ev => leaves ev = true) evs.
Proof.
  intros Hd. eapply Forall_impl; [exact Hd|].
  intros [] H; try discriminate H; reflexivity.
Qed.

Lemma handle_leaves (env : Env) (X : Type) (e : eff X) (x : X) (w w' : World) :
  handle env e w = Some (x, w') -> leaves (event_of e x) = true -> fs w' = fs w.
Proof.
  unfold handle. destruct (answer env e w) as [[x' w1]|] eqn:Ea; [|discriminate].
  intros [= <- <-]. cbn [fs addEvent].
  destruct e; simpl in Ea; unfold create in Ea;
    repeat case_match; simplify_eq; simpl; auto; discriminate.
Qed.

Lemma follows_leaves (env : Env) (w w' : World) (evs : list event) :
  follows env w evs w' -> Forall (fun ev => leaves ev = true) evs -> fs w' = fs w.
Proof.
  induction 1 as [w|X e x w w1 ev evs w' Hh -> Hf IH]; [auto|].
  intros Hn. apply Forall_cons in Hn as [Hev Hn].
  rewrite (IH Hn). eapply handle_leaves; eauto.
Qed.

Lemma runIOSTest_directory_fails (Quote : string -> string) (r : Request)
    (query : gmap string (list string)) (evs : list event) (o : Outcome unit)
    (d : string) (e : error) :
  exec (Part_000.runIOSTest Quote r query) evs o ->
  In (EvChdir d (Some e)) (notable evs) \/ In (EvMkdir d (Some e)) (notable evs) ->
  o = Returned tt /\
  ((notable evs = [EvChdir d (Some e); EvWriteHeader StatusInternalServerError;
                   EvWrite (Error e)] /\
    Forall (fun ev => neutral ev = true) evs) \/
   (exists dir,
      notable evs = [EvChdir dir None; EvMkdir d (Some e);
                     EvWriteHeader StatusInternalServerError; EvWrite (Error e)] /\
      Forall (fun ev => leaves ev = true) evs) \/
   (exists dir s rerr,
      notable evs = [EvChdir dir None; EvMkdir s None; EvChdir d (Some e);
                     EvWriteHeader StatusInternalServerError; EvWrite (Error e);
                     EvRemoveAll s rerr])).
Proof.
  intros H. unfold Part_000.runIOSTest in H. cbv zeta in H.
  repeat trace_step H; notables; intros [Hin|Hin]; in_loop_cases Hin.
  all: split; [reflexivity|].
  - left. split; [reflexivity|]. all_events Draws_neutral.
  - right. left. eexists. split; [reflexivity|]. all_events Draws_leaves.
  - right. right. eauto.
Qed.

(** X6. The iOS runner, when [os.Chdir] (into the temp directory, or
    into the new staging directory) or [os.Mkdir] fails: the response is
    500 with the text of the error.  No staging file is opened, no
    command is run and the mutex is not taken.  When it is the first
    [Chdir] or the [Mkdir] that failed, no directory was created: the
    file system is as before and [os.RemoveAll] is not called. *)
Theorem ios_directory_errors_are_500
    (Quote : string -> string) (env : Env) (w w' : World) (r : Request)
    (query : gmap string (list string)) (o : Outcome unit) (d : string) (e : error) :
  fresh w ->
  run env (Part_000.runIOSTest Quote r query) w = (o, w') ->
  In (EvChdir d (Some e)) (trace w') \/ In (EvMkdir d (Some e)) (trace w') ->
  responds (o, w') StatusInternalServerError (Error e) /\
  commands (trace w') = [] /\
  ~ In EvLock (trace w') /\
  (forall n f err, ~ In (EvOpenFile n f err) (trace w')) /\
  ((forall s, ~ In (EvMkdir s None) (trace w')) ->
   fs w' = fs w /\ forall p rerr, ~ In (EvRemoveAll p rerr) (trace w')).
Proof.
  intros Hfresh Hrun Hin.
  destruct (run_fresh_follows _ _ _ _ _ _ Hfresh Hrun) as (He & Hf & Hresp).
  assert (Hin' : In (EvChdir d (Some e)) (notable (trace w')) \/
                 In (EvMkdir d (Some e)) (notable (trace w'))).
  { destruct Hin as [Hin|Hin]; [left|right]; (apply In_notable in Hin; [assumption|reflexivity]). }
  rewrite <- replay_notable in Hresp. rewrite <- commands_notable.
  destruct (runIOSTest_directory_fails _ _ _ _ _ _ _ He Hin')
    as (-> & [[Hn Hneu]|[(dir & Hn & Hl)|(dir & s & rerr & Hn)]]);
    rewrite Hn in Hresp; rewrite Hn.
  all: split; [now apply responds_of_response|]; split; [reflexivity|].
  all: split; [apply (not_In_of_notable _ _ _ Hn); [reflexivity|];
               intros Hx; in_cases Hx|].
  all: split; [intros n f err; apply (not_In_of_notable _ _ _ Hn); [reflexivity|];
               intros Hx; in_cases Hx|].
  - intros _. split; [now apply (follows_neutral _ _ _ _ Hf)|].
    intros p rerr. apply (not_In_of_notable _ _ _ Hn); [reflexivity|].
    intros Hx; in_cases Hx.
  - intros _. split; [now apply (follows_leaves _ _ _ _ Hf)|].
    intros p rerr. apply (not_In_of_notable _ _ _ Hn); [reflexivity|].
    intros Hx; in_cases Hx.
  - intros Hno. exfalso. apply (Hno s).
    apply In_notable; [reflexivity|]. rewrite Hn. cbn [In]. auto.
Qed.

Lemma ios_directory_errors_are_500_witness :
  (responds (fst (iosOn env0 worldNoTmp upload), snd (iosOn env0 worldNoTmp upload))
     StatusInternalServerError "chdir /tmp: no such file or directory" /\
   fs (snd (iosOn env0 worldNoTmp upload)) = fs worldNoTmp) /\
  (responds (fst (iosOn envNoNewDirs world0 upload), snd (iosOn envNoNewDirs world0 upload))
     StatusInternalServerError "mkdir abcde: permission denied" /\
   fs (snd (iosOn envNoNewDirs world0 upload)) = fs world0) /\
  responds (fst (iosOn envLockedOut world0 upload), snd (iosOn envLockedOut world0 upload))
    StatusInternalServerError "chdir /tmp/abcde: permission denied".
Proof.
  split; [|split].
  - pose proof (ios_directory_errors_are_500 Quote_ascii env0 worldNoTmp
      (snd (iosOn env0 worldNoTmp upload)) (reqIOS "App" upload)
      (queryOf (reqIOS "App" upload)) (fst (iosOn env0 worldNoTmp upload))
      "/tmp" (PathError "chdir" "/tmp" ENOENT)
      (conj eq_refl eq_refl) (surjective_pairing _)) as H.
    destruct H as (H1 & _ & _ & _ & H2).
    + left. vm_compute. repeat (first [left; reflexivity | right]).
    + split; [exact H1|]. apply H2. intros s Hin. vm_compute in Hin.
      repeat (destruct Hin as [Hin|Hin]; [discriminate Hin|]). contradiction.
  - pose proof (ios_directory_errors_are_500 Quote_ascii envNoNewDirs world0
      (snd (iosOn envNoNewDirs world0 upload)) (reqIOS "App" upload)
      (queryOf (reqIOS "App" upload)) (fst (iosOn envNoNewDirs world0 upload))
      "abcde" (PathError "mkdir" "abcde" EACCES)
      (conj eq_refl eq_refl) (surjective_pairing _)) as H.
    destruct H as (H1 & _ & _ & _ & H2).
    + right. vm_compute. repeat (first [left; reflexivity | right]).
    + split; [exact H1|]. apply H2. intros s Hin. vm_compute in Hin.
      repeat (destruct Hin as [Hin|Hin]; [discriminate Hin|]). contradiction.
  - apply (ios_directory_errors_are_500 Quote_ascii envLockedOut world0
      (snd (iosOn envLockedOut world0 upload)) (reqIOS "App" upload)
      (queryOf (reqIOS "App" upload)) (fst (iosOn envLockedOut world0 upload))
      "/tmp/abcde" (PathError "chdir" "/tmp/abcde" EACCES)
      (conj eq_refl eq_refl) (surjective_pairing _)).
    left. vm_compute. repeat (first [left; reflexivity | right]).
Defined.

Lemma runIOSTest_tar_fails (Quote : string -> string) (r : Request)
    (query : gmap string (list string)) (evs : list event) (o : Outcome unit)
    (arg : list string) (out : string) (e : error) :
  exec (Part_000.runIOSTest Quote r query) evs o ->
  In (EvExec "tar" arg out (Some e)) (notable evs) ->
  o = Returned tt /\
  exists dir s d name f err rerr,
    arg = ["xf"; Name f] /\
    notable evs = [EvChdir dir None; EvMkdir s None; EvChdir d None;
                   EvOpenFile name (Some f) err;
                   EvExec "tar" arg out (Some e);
                   EvWriteHeader StatusBadRequest; EvWrite (Error e); EvWrite nl;
                   EvWrite out; EvRemoveAll s rerr].
Proof.
  intros H. unfold Part_000.runIOSTest in H. cbv zeta in H.
  repeat trace_step H; notables; intros Hin; in_loop_cases Hin.
  split; [reflexivity|]. eauto 12.
Qed.

(** X7. The iOS runner, when the extraction [tar xf] fails: the response
    is 400 with the error text, a line feed and the output of [tar].
    [tar] is the only command run, on the staging file; no scheme is
    tested and the mutex is never taken. *)
Theorem ios_tar_failure_is_400
    (Quote : string -> string) (env : Env) (w w' : World) (r : Request)
    (query : gmap string (list string)) (o : Outcome unit)
    (arg : list string) (out : string) (e : error) :
  fresh w ->
  run env (Part_000.runIOSTest Quote r query) w = (o, w') ->
  In (EvExec "tar" arg out (Some e)) (trace w') ->
  responds (o, w') StatusBadRequest (Error e +:+ nl +:+ out) /\
  commands (trace w') = [("tar", arg)] /\
  (exists name f err, In (EvOpenFile name (Some f) err) (trace w') /\ arg = ["xf"; Name f]) /\
  ~ In EvLock (trace w').
Proof.
  intros Hfresh Hrun Hin.
  destruct (run_fresh_follows _ _ _ _ _ _ Hfresh Hrun) as (He & Hf & Hresp).
  apply In_notable in Hin; [|reflexivity].
  rewrite <- replay_notable in Hresp. rewrite <- commands_notable.
  destruct (runIOSTest_tar_fails _ _ _ _ _ _ _ _ He Hin)
    as (-> & dir & s & d & name & f & err & rerr & Harg & Hn).
  rewrite Hn in Hresp. rewrite Hn.
  split; [apply responds_of_response; [reflexivity|]; rewrite Hresp; response; reflexivity|].
  split; [reflexivity|]. split.
  - exists name, f, err. split; [|assumption].
    apply In_notable; [reflexivity|]. rewrite Hn. cbn [In]. auto.
  - apply (not_In_of_notable _ _ _ Hn); [reflexivity|]. intros Hx; in_cases Hx.
Qed.

Lemma ios_tar_failure_is_400_witness :
  responds (fst (iosOn envBadArchive world0 upload), snd (iosOn envBadArchive world0 upload))
    StatusBadRequest ("exit status 1" +:+ nl +:+ "tar: Error opening archive") /\
  commands (trace (snd (iosOn envBadArchive world0 upload))) =
    [("tar", ["xf"; "/tmp/abcde/source.tgz"])] /\
  (exists name f err,
     In (EvOpenFile name (Some f) err) (trace (snd (iosOn envBadArchive world0 upload))) /\
     ["xf"; "/tmp/abcde/source.tgz"] = ["xf"; Name f]) /\
  ~ In EvLock (trace (snd (iosOn envBadArchive world0 upload))).
Proof.
  apply (ios_tar_failure_is_400 Quote_ascii envBadArchive world0
      (snd (iosOn envBadArchive world0 upload)) (reqIOS "App" upload)
      (queryOf (reqIOS "App" upload)) (fst (iosOn envBadArchive world0 upload))
      ["xf"; "/tmp/abcde/source.tgz"] "tar: Error opening archive"
      (errorString "exit status 1")).
  - split; reflexivity.
  - apply surjective_pairing.
  - vm_compute. repeat (first [left; reflexivity | right]).
Defined.

Lemma runIOSTest_write_fails (Quote : string -> string) (r : Request)
    (query : gmap string (list string)) (evs : list event) (o : Outcome unit)
    (f : File) (b : string) (e : error) :
  exec (Part_000.runIOSTest Quote r query) evs o ->
  In (EvFileWrite f b (Some e)) (notable evs) ->
  o = Returned tt /\
  exists dir s d name err rerr,
    notable evs = [EvChdir dir None; EvMkdir s None; EvChdir d None;
                   EvOpenFile name (Some f) err; EvFileWrite f b (Some e);
                   EvWriteHeader StatusBadRequest; EvWrite (Error e);
                   EvRemoveAll s rerr].
Proof.
  intros H. unfold Part_000.runIOSTest in H. cbv zeta in H.
  repeat trace_step H; notables; intros Hin; in_loop_cases Hin.
  split; [reflexivity|]. eauto 12.
Qed.

Lemma runIOSTest_read_fails (Quote : string -> string) (r : Request)
    (query : gmap string (list string)) (evs : list event) (o : Outcome unit)
    (name : string) (f : File) (err : option error) (e : error) :
  exec (Part_000.runIOSTest Quote r query) evs o ->
  In (EvOpenFile name (Some f) err) (notable evs) ->
  IsExist err = false ->
  readErr (body r) = Some e ->
  (forall f' b e', ~ In (EvFileWrite f' b (Some e')) (notable evs)) ->
  o = Returned tt /\
  exists dir s d rerr,
    notable evs = [EvChdir dir None; EvMkdir s None; EvChdir d None;
                   EvOpenFile name (Some f) err;
                   EvWriteHeader StatusBadRequest; EvWrite (Error e);
                   EvRemoveAll s rerr].
Proof.
  intros H. unfold Part_000.runIOSTest in H. cbv zeta in H.
  repeat trace_step H; notables; intros Hin Hex Hre Hnw; in_loop_cases Hin;
    try congruence.
  all: try (exfalso; eapply Hnw; cbn [In]; eauto 10; fail).
  split; [reflexivity|]. assert (e0 = e) as -> by congruence. eauto 10.
Qed.

(** X8. The iOS runner, when the copy of the request body into
    [source.tgz] fails.  A write to the file that fails ends the copy:
    the response is 400 with the text of the write error.  A read of the
    body that fails, all writes having succeeded, gives 400 with the
    text of the read error.  In both cases no command is run (the
    archive is not unpacked) and the mutex is never taken. *)
Theorem ios_copy_errors_are_400
    (Quote : string -> string) (env : Env) (w w' : World) (r : Request)
    (query : gmap string (list string)) (o : Outcome unit) :
  fresh w ->
  run env (Part_000.runIOSTest Quote r query) w = (o, w') ->
  (forall f b e,
     In (EvFileWrite f b (Some e)) (trace w') ->
     responds (o, w') StatusBadRequest (Error e) /\
     commands (trace w') = [] /\ ~ In EvLock (trace w')) /\
  (forall name f err e,
     In (EvOpenFile name (Some f) err) (trace w') ->
     IsExist err = false ->
     readErr (body r) = Some e ->
     (forall f' b e', ~ In (EvFileWrite f' b (Some e')) (trace w')) ->
     responds (o, w') StatusBadRequest (Error e) /\
     commands (trace w') = [] /\ ~ In EvLock (trace w')).
Proof.
  intros Hfresh Hrun.
  destruct (run_fresh_follows _ _ _ _ _ _ Hfresh Hrun) as (He & Hf & Hresp).
  rewrite <- replay_notable in Hresp. rewrite <- commands_notable.
  split.
  - intros f b e Hin. apply In_notable in Hin; [|reflexivity].
    destruct (runIOSTest_write_fails _ _ _ _ _ _ _ _ He Hin)
      as (-> & dir & s & d & name & err & rerr & Hn).
    rewrite Hn in Hresp. rewrite Hn.
    split; [now apply responds_of_response|]. split; [reflexivity|].
    apply (not_In_of_notable _ _ _ Hn); [reflexivity|]. intros Hl. in_cases Hl.
  - intros name f err e Hin Hex Hre Hnw. apply In_notable in Hin; [|reflexivity].
    assert (Hnw' : forall f' b e', ~ In (EvFileWrite f' b (Some e')) (notable (trace w'))).
    { intros f' b e' Hi. apply (Hnw f' b e'). now apply In_notable in Hi. }
    destruct (runIOSTest_read_fails _ _ _ _ _ _ _ _ _ He Hin Hex Hre Hnw')
      as (-> & dir & s & d & rerr & Hn).
    rewrite Hn in Hresp. rewrite Hn.
    split; [now apply responds_of_response|]. split; [reflexivity|].
    apply (not_In_of_notable _ _ _ Hn); [reflexivity|]. intros Hl. in_cases Hl.
Qed.

Lemma ios_copy_errors_are_400_witness :
  responds (fst (iosOn envDiskFull world0 upload), snd (iosOn envDiskFull world0 upload))
    StatusBadRequest "write /tmp/abcde/source.tgz: no space left on device" /\
  responds (fst (iosOn env0 world0 brokenUpload), snd (iosOn env0 world0 brokenUpload))
    StatusBadRequest "unexpected EOF".
Proof.
  split.
  - refine (proj1 (proj1 (ios_copy_errors_are_400 Quote_ascii envDiskFull world0
      (snd (iosOn envDiskFull world0 upload)) (reqIOS "App" upload)
      (queryOf (reqIOS "App" upload)) (fst (iosOn envDiskFull world0 upload)) _ _)
      (mkFile "/tmp/abcde/source.tgz" ["tmp"; "abcde"; "source.tgz"]) "PK"
      (PathError "write" "/tmp/abcde/source.tgz" ENOSPC) _)).
    + split; reflexivity.
    + apply surjective_pairing.
    + vm_compute. repeat (first [left; reflexivity | right]).
  - refine (proj1 (proj2 (ios_copy_errors_are_400 Quote_ascii env0 world0
      (snd (iosOn env0 world0 brokenUpload)) (reqIOS "App" brokenUpload)
      (queryOf (reqIOS "App" brokenUpload)) (fst (iosOn env0 world0 brokenUpload)) _ _)
      "/tmp/abcde/source.tgz" (mkFile "/tmp/abcde/source.tgz" ["tmp"; "abcde"; "source.tgz"])
      None (errorString "unexpected EOF") _ _ _ _)).
    + split; reflexivity.
    + apply surjective_pairing.
    + vm_compute. repeat (first [left; reflexivity | right]).
    + reflexivity.
    + reflexivity.
    + intros f' b e' Hin. vm_compute in Hin.
      repeat (destruct Hin as [Hin|Hin]; [discriminate Hin|]). contradiction.
Defined.

(** ** The staging directory, when the runner does not get into it *)

Lemma follows_Mkdir (env : Env) (w w' : World) (name : string) (err : option error)
    (evs : list event) :
  follows env w (EvMkdir name err :: evs) w' ->
  exists w1, handle env (Mkdir name) w = Some (err, w1) /\ follows env w1 evs w'.
Proof.
  intros H. apply follows_cons_inv in H as (X & e & x & w1 & Hh & Hev & Hf).
  destruct e; try discriminate Hev. cbn [event_of] in Hev.
  injection Hev as -> ->. eauto.
Qed.

Lemma follows_RemoveAll (env : Env) (w w' : World) (path : string) (err : option error) :
  follows env w [EvRemoveAll path err] w' ->
  handle env (RemoveAll path) w = Some (err, w').
Proof.
  intros H. apply follows_cons_inv in H as (X & e & x & w1 & Hh & Hev & Hf).
  destruct e; try discriminate Hev. cbn [event_of] in Hev.
  injection Hev as -> ->. inversion Hf; subst. assumption.
Qed.

Lemma handle_Mkdir (env : Env) (w w' : World) (name : string) :
  handle env (Mkdir name) w = Some (None, w') ->
  cwd w' = cwd w /\ fs w' = <[resolve (cwd w) name := NDir]> (fs w).
Proof.
  unfold handle. cbn [answer]. unfold create. intros H.
  repeat case_match; simplify_eq; cbn; auto.
Qed.

Lemma handle_RemoveAll (env : Env) (w w' : World) (path : string) :
  handle env (RemoveAll path) w = Some (None, w') ->
  cwd w' = cwd w /\ fs w' = notBelow (resolve (cwd w) path) (fs w).
Proof.
  unfold handle. cbn [answer]. intros H. repeat case_match; simplify_eq; cbn; auto.
Qed.

(** A directory made under a plain name and removed under that name, the
    working directory being the same: it is gone with all below it, and
    nothing else has changed. *)
Lemma staged_dir_removed (env : Env) (w w' : World) (pre mid : list event) (s : string) :
  follows env w (pre ++ EvMkdir s None :: mid ++ [EvRemoveAll s None]) w' ->
  Forall (fun ev => leaves ev = true) pre ->
  Forall (fun ev => neutral ev = true) mid ->
  plainName s ->
  fs w' = notBelow (cwd w' ++ [s]) (fs w).
Proof.
  intros H Hpre Hmid Hs.
  apply follows_app_inv in H as (w1 & Hp & H).
  apply follows_Mkdir in H as (w2 & Hmk & H).
  apply handle_Mkdir in Hmk as [Hc2 Hf2].
  apply follows_app_inv in H as (w3 & Hm & H).
  apply follows_RemoveAll, handle_RemoveAll in H as [Hc Hf].
  destruct (follows_neutral _ _ _ _ Hm Hmid) as (Hf3 & Hc3 & _).
  rewrite (follows_leaves _ _ _ _ Hp Hpre) in Hf2.
  rewrite Hf, Hf3, Hf2, Hc, Hc3, Hc2, !(resolve_plain _ _ Hs).
  unfold notBelow. apply map_eq. intros l.
  destruct (decide (cwd w1 ++ [s] `prefix_of` l)) as [Hpl|Hpl].
  - transitivity (@None Node); [|symmetry];
      apply map_lookup_filter_None; right; intros x _ Hn; now apply Hn.
  - rewrite !map_lookup_filter. rewrite lookup_insert_ne; [reflexivity|].
    intros <-. now apply Hpl.
Qed.

Lemma runIOSTest_removes (Quote : string -> string) (r : Request)
    (query : gmap string (list string)) (evs : list event) (o : Outcome unit)
    (s : string) :
  exec (Part_000.runIOSTest Quote r query) evs o ->
  In (EvMkdir s None) (notable evs) ->
  o <> Blocked ->
  plainName s /\
  exists pre mid rerr,
    evs = pre ++ EvMkdir s None :: mid ++ [EvRemoveAll s rerr] /\
    forall d e, In (EvChdir d (Some e)) (notable evs) ->
      Forall (fun ev => leaves ev = true) pre /\
      Forall (fun ev => neutral ev = true) mid.
Proof.
  intros H. unfold Part_000.runIOSTest in H. cbv zeta in H.
  repeat trace_step H; intros Hin Hnb; notables_in Hin; in_loop_cases Hin;
    try congruence.
  all: split; [assumption|].
  all: eexists (EvTempDir :: EvChdir _ None :: _), _, _; split; [reflexivity|].
  all: intros ? ? Hc; notables_in Hc; in_loop_cases Hc.
  split; [all_events Draws_leaves | all_events Draws_neutral].
Qed.

(** X9. Once the iOS runner has made its staging directory, every way it
    ends that is not a wait for the mutex (a response, or the panic on a
    staging file that could not be opened) ends with
    [os.RemoveAll(sourceDir)]: the last event of the run is that call,
    and [sourceDir] is a plain name, resolved against the working
    directory of that moment.  When the runner did not get into the
    directory (the second [os.Chdir] failed), the working directory is
    still the one the directory was made in, and a removal that reports
    no error removes it: the file system is the one of before the
    request, without anything at or below that entry. *)
Theorem ios_removal_on_every_exit
    (Quote : string -> string) (env : Env) (w w' : World) (r : Request)
    (query : gmap string (list string)) (o : Outcome unit) (s : string) :
  fresh w ->
  run env (Part_000.runIOSTest Quote r query) w = (o, w') ->
  In (EvMkdir s None) (trace w') ->
  o <> Blocked ->
  plainName s /\
  exists rerr,
    last (trace w') = Some (EvRemoveAll s rerr) /\
    forall d e, In (EvChdir d (Some e)) (trace w') -> rerr = None ->
      fs w' = notBelow (cwd w' ++ [s]) (fs w).
Proof.
  intros Hfresh Hrun Hin Hnb.
  destruct (run_fresh_follows _ _ _ _ _ _ Hfresh Hrun) as (He & Hf & Hresp).
  apply In_notable in Hin; [|reflexivity].
  destruct (runIOSTest_removes _ _ _ _ _ _ He Hin Hnb)
    as (Hs & pre & mid & rerr & Hevs & Hfail).
  split; [assumption|]. exists rerr. split.
  - rewrite Hevs.
    change (pre ++ EvMkdir s None :: mid ++ [EvRemoveAll s rerr])
      with (pre ++ (EvMkdir s None :: mid) ++ [EvRemoveAll s rerr]).
    rewrite app_assoc. apply last_snoc.
  - intros d e Hc ->. apply In_notable in Hc; [|reflexivity].
    destruct (Hfail d e Hc) as [Hpre Hmid].
    rewrite Hevs in Hf. exact (staged_dir_removed _ _ _ _ _ _ Hf Hpre Hmid Hs).
Qed.

Lemma ios_removal_on_every_exit_witness :
  plainName "abcde" /\
  exists rerr,
    last (trace (snd (iosOn envLockedOut world0 upload))) = Some (EvRemoveAll "abcde" rerr) /\
    forall d e, In (EvChdir d (Some e)) (trace (snd (iosOn envLockedOut world0 upload))) ->
      rerr = None ->
      fs (snd (iosOn envLockedOut world0 upload)) =
      notBelow (cwd (snd (iosOn envLockedOut world0 upload)) ++ ["abcde"]) (fs world0).
Proof.
  apply (ios_removal_on_every_exit Quote_ascii envLockedOut world0
      (snd (iosOn envLockedOut world0 upload)) (reqIOS "App" upload)
      (queryOf (reqIOS "App" upload)) (fst (iosOn envLockedOut world0 upload)) "abcde").
  - split; reflexivity.
  - apply surjective_pairing.
  - vm_compute. repeat (first [left; reflexivity | right]).
  - vm_compute. discriminate.
Defined.

(** ** The response header *)

Lemma headerFirst_started (evs : list event) (c : Z) :
  headerFirst true evs = true -> ~ In (EvWriteHeader c) evs.
Proof.
  induction evs as [|ev evs IH]; [intros _ []|].
  destruct ev; cbn [headerFirst negb andb]; try discriminate;
    intros H [Hev|Hin]; try discriminate Hev; now apply IH.
Qed.

Lemma headerFirst_no_header (started : bool) (evs : list event) :
  (forall c, ~ In (EvWriteHeader c) evs) -> headerFirst started evs = true.
Proof.
  revert started. induction evs as [|ev evs IH]; intros started Hn; [reflexivity|].
  assert (Hn' : forall c, ~ In (EvWriteHeader c) evs)
    by (intros c Hc; apply (Hn c); now right).
  destruct ev; cbn [headerFirst]; auto.
  exfalso. eapply Hn. left. reflexivity.
Qed.

Lemma replay_code (evs : list event) (r : Response) (c : Z) :
  code r = Some c -> code (replay evs r) = Some c.
Proof.
  revert r. induction evs as [|ev evs IH]; intros r Hr; [assumption|].
  unfold replay. cbn [fold_left]. apply IH.
  destruct ev; cbn [respAfter]; try assumption.
  - unfold writeHeader. now rewrite Hr.
  - unfold write. cbn [code]. now rewrite Hr.
Qed.

(** When the header is written first and once, the status of the
    response is the one the handler asked for. *)
Lemma headerFirst_status (evs : list event) (r : Response) (c : Z) :
  headerFirst false evs = true -> code r = None ->
  In (EvWriteHeader c) evs -> code (replay evs r) = Some c.
Proof.
  revert r. induction evs as [|ev evs IH]; intros r Hh Hr Hin; [destruct Hin|].
  destruct ev; cbn [headerFirst negb andb] in Hh;
    try (destruct Hin as [Hev|Hin]; [discriminate Hev|]; now apply IH).
  - destruct Hin as [Hev|Hin].
    + injection Hev as ->. unfold replay. cbn [fold_left respAfter].
      apply replay_code. unfold writeHeader. now rewrite Hr.
    + now apply headerFirst_started in Hin.
  - destruct Hin as [Hev|Hin]; [discriminate Hev|]. now apply headerFirst_started in Hin.
Qed.

Lemma runAndroidTest_header (r : Request) (query : gmap string (list string))
    (evs : list event) (o : Outcome unit) :
  exec (runAndroidTest r query) evs o -> headerFirst false evs = true.
Proof.
  intros H. rewrite <- headerFirst_notable.
  unfold runAndroidTest in H. cbv zeta in H.
  repeat trace_step H; notables; reflexivity.
Qed.

Lemma runIOSTest_header (Quote : string -> string) (r : Request)
    (query : gmap string (list string)) (evs : list event) (o : Outcome unit) :
  exec (Part_000.runIOSTest Quote r query) evs o -> headerFirst false evs = true.
Proof.
  intros H. rewrite <- headerFirst_notable.
  unfold Part_000.runIOSTest in H. cbv zeta in H.
  repeat trace_step H; notables; try reflexivity.
  all: apply headerFirst_no_header; intros c Hin; in_loop_cases Hin.
Qed.

Lemma handlers_header (secret : string) (Quote : string -> string) (r : Request)
    (p : prog unit) (evs : list event) (o : Outcome unit) :
  p = Main_go.handler secret r \/ p = Part_000.handler secret Quote r ->
  exec p evs o -> headerFirst false evs = true.
Proof.
  intros [-> | ->] H.
  - unfold Main_go.handler in H. cbv zeta in H.
    repeat trace_step H; cbn [event_of headerFirst]; try reflexivity.
    eapply runAndroidTest_header; eassumption.
  - unfold Part_000.handler in H. cbv zeta in H.
    repeat trace_step H; cbn [event_of headerFirst]; try reflexivity.
    + eapply runAndroidTest_header; eassumption.
    + eapply runIOSTest_header; eassumption.
Qed.

(** X10. Both variants of the handler keep to the protocol of
    [http.ResponseWriter] on every path, the scheme loop and all error
    paths included: [WriteHeader] is called at most once, and never
    after a [Write].  So no call is a superfluous one that [net/http]
    drops, and when the handler sets a status, that status is the one
    the client receives. *)
Theorem header_is_written_first_and_once
    (secret : string) (Quote : string -> string) (env : Env) (w w' : World)
    (r : Request) (p : prog unit) (o : Outcome unit) :
  p = Main_go.handler secret r \/ p = Part_000.handler secret Quote r ->
  fresh w ->
  run env p w = (o, w') ->
  headerFirst false (trace w') = true /\
  forall c, In (EvWriteHeader c) (trace w') -> status (resp w') = c.
Proof.
  intros Hp Hfresh Hrun.
  destruct (run_fresh _ _ _ _ _ _ Hfresh Hrun) as [He Hresp].
  pose proof (handlers_header _ _ _ _ _ _ Hp He) as Hh.
  split; [assumption|]. intros c Hin. unfold status. rewrite Hresp.
  now rewrite (headerFirst_status _ noResponse c Hh eq_refl Hin).
Qed.

Lemma header_is_written_first_and_once_witness :
  headerFirst false (trace (snd handledBadArchive)) = true /\
  forall c, In (EvWriteHeader c) (trace (snd handledBadArchive)) ->
            status (resp (snd handledBadArchive)) = c.
Proof.
  apply (header_is_written_first_and_once theSecret Quote_ascii envBadArchive world0
           (snd handledBadArchive) (reqIOS "App" upload)
           (Part_000.handler theSecret Quote_ascii (reqIOS "App" upload))
           (fst handledBadArchive)).
  - right. reflexivity.
  - split; reflexivity.
  - apply surjective_pairing.
Defined.

(** ** The mutex: no request waits for ever *)




(** Whenever the mutex is held, one of the requests holds it. *)
Lemma owned_step (env : Env) (c c' : World * list Thread) :
  exclusive c ->
  (locked c.1 = true -> exists i t, c.2 !! i = Some t /\ holding t = true) ->
  cstep env c c' ->
  locked c'.1 = true -> exists i t, c'.2 !! i = Some t /\ holding t = true.
Proof.
  intros (Hrel & _ & _) Hown Hstep.
  destruct Hstep as [i w w1 ts X e k h x Hi Hh]. cbn [fst snd] in *.
  pose proof (handle_facts _ _ _ _ _ _ Hh) as (_ & _ & Hlock).
  assert (Hlen : (i < length ts)%nat) by (apply lookup_lt_Some in Hi; exact Hi).
  intros Hl. rewrite Hlock in Hl.
  destruct (holdingAfter e h) eqn:Hafter.
  - exists i, (mkThread (k x) true). split; [|reflexivity].
    now apply list_lookup_insert_eq.
  - assert (Hw : locked w = true).
    { destruct e; cbn [holdingAfter] in *; try assumption; discriminate. }
    destruct (Hown Hw) as (j & t & Hj & Ht).
    assert (Hne : j <> i).
    { intros ->. rewrite Hi in Hj. injection Hj as <-. cbn [holding] in Ht. subst h.
      destruct e; cbn [holdingAfter] in *; discriminate. }
    exists j, t. split; [|assumption]. now rewrite list_lookup_insert_ne by congruence.
Qed.

Lemma owned_reachable (env : Env) (c c' : World * list Thread) :
  exclusive c ->
  (locked c.1 = true -> exists i t, c.2 !! i = Some t /\ holding t = true) ->
  rtc (cstep env) c c' ->
  exclusive c' /\
  (locked c'.1 = true -> exists i t, c'.2 !! i = Some t /\ holding t = true).
Proof.
  intros Hex Hown Hsteps. induction Hsteps as [c|c c1 c2 Hstep Hsteps IH]; [auto|].
  apply IH; [eapply exclusive_step; eassumption|eapply owned_step; eassumption].
Qed.

(** A thread at an effect other than a [Lock] on the held mutex takes
    its step. *)
Lemma cstepOf_possible (env : Env) (i : nat) (w : World) (ts : list Thread)
    (X : Type) (e : eff X) (k : X -> prog unit) (h : bool) :
  ts !! i = Some (mkThread (Vis e k) h) ->
  isLock e = false \/ locked w = false ->
  exists c', cstepOf env i (w, ts) = Some c'.
Proof.
  intros Hi Hfree. unfold cstepOf. cbn [fst snd]. rewrite Hi.
  destruct (handle env e w) as [[x w1]|] eqn:Hh; [eauto|].
  apply handle_blocks in Hh as [Hl Hlocked]. destruct Hfree; congruence.
Qed.

(** X12. The server does not deadlock.  Among any number of requests
    handled concurrently by either variant, started with the mutex free:
    whenever the mutex is held, the request that holds it has not
    finished and can take its next step, so the mutex is never held by a
    request that is gone or stuck; and whenever the mutex is free, every
    request that has not finished can take its next step.  So as long as
    a request is unfinished, some request can step. *)
Theorem server_does_not_deadlock
    (secret : string) (Quote : string -> string) (env : Env)
    (handler : Request -> prog unit) (rs : list Request) (w : World)
    (c : World * list Thread) :
  handler = Main_go.handler secret \/ handler = Part_000.handler secret Quote ->
  locked w = false ->
  rtc (cstep env) (w, accepted handler rs) c ->
  (locked c.1 = true ->
   exists i t c', c.2 !! i = Some t /\ holding t = true /\ cstepOf env i c = Some c') /\
  (locked c.1 = false ->
   forall i X (e : eff X) k h, c.2 !! i = Some (mkThread (Vis e k) h) ->
     exists c', cstepOf env i c = Some c') /\
  ((exists i X (e : eff X) k h, c.2 !! i = Some (mkThread (Vis e k) h)) ->
   exists c', cstep env c c').
Proof.
  intros Hh Hfree Hsteps.
  assert (Hinit : exclusive (w, accepted handler rs)).
  { apply exclusive_accepted. intros r.
    destruct Hh as [-> | ->];
      [apply releases_Main_go_handler | apply releases_Part_000_handler]. }
  assert (Hown0 : locked (w, accepted handler rs).1 = true ->
                  exists i t, (w, accepted handler rs).2 !! i = Some t /\ holding t = true)
    by (cbn [fst]; congruence).
  destruct (owned_reachable _ _ _ Hinit Hown0 Hsteps) as [(Hrel & _ & _) Hown].
  destruct c as [wc ts]. cbn [fst snd] in *.
  assert (Hheld : locked wc = true ->
            exists i t c', ts !! i = Some t /\ holding t = true /\
                           cstepOf env i (wc, ts) = Some c').
  { intros Hl. destruct (Hown Hl) as (i & t & Hi & Ht).
    pose proof (Hrel i t Hi) as Hr. unfold releases in Hr. rewrite Ht in Hr.
    destruct t as [p h]. cbn [rest holding] in *. subst h.
    destruct p as [a|v|X e k]; cbn [disciplined] in Hr; try discriminate Hr.
    destruct Hr as [Ha _].
    destruct (cstepOf_possible env i wc ts X e k true Hi) as [c' Hc'].
    - left. destruct e; try reflexivity. cbn [allowed] in Ha. discriminate Ha.
    - exists i, (mkThread (Vis e k) true), c'. auto. }
  assert (Hfreed : locked wc = false ->
            forall i X (e : eff X) k h, ts !! i = Some (mkThread (Vis e k) h) ->
              exists c', cstepOf env i (wc, ts) = Some c').
  { intros Hl i X e k h Hi. eapply cstepOf_possible; [eassumption|auto]. }
  split; [assumption|]. split; [assumption|].
  intros (i & X & e & k & h & Hi).
  destruct (locked wc) eqn:Hl.
  - destruct (Hheld eq_refl) as (j & t & c' & _ & _ & Hc').
    exists c'. now apply cstepOf_sound in Hc'.
  - destruct (Hfreed eq_refl i X e k h Hi) as [c' Hc'].
    exists c'. now apply cstepOf_sound in Hc'.
Qed.

Lemma server_does_not_deadlock_witness :
  exists c, overlapping = Some c /\
    (locked c.1 = true ->
     exists i t c', c.2 !! i = Some t /\ holding t = true /\ cstepOf env0 i c = Some c') /\
    (locked c.1 = false ->
     forall i X (e : eff X) k h, c.2 !! i = Some (mkThread (Vis e k) h) ->
       exists c', cstepOf env0 i c = Some c') /\
    ((exists i X (e : eff X) k h, c.2 !! i = Some (mkThread (Vis e k) h)) ->
     exists c', cstep env0 c c').
Proof.
  assert (Hp : possible overlapping = true) by (vm_compute; reflexivity).
  apply possible_Some in Hp as [c Hc]. exists c. split; [assumption|].
  apply (server_does_not_deadlock theSecret Quote_ascii env0
           (Part_000.handler theSecret Quote_ascii)
           [reqIOS "App" upload; reqIOS "App" upload] world0 c).
  - right. reflexivity.
  - reflexivity.
  - exact (schedule_sound _ _ _ _ Hc).
Defined.

(** ** Paths: joining plain names to an absolute directory *)

Lemma Split_append (a b : string) (sep : ascii) :
  Split (a +:+ String sep b) sep = Split a sep ++ Split b sep.
Proof.
  induction a as [|c a IH].
  - change (EmptyString +:+ String sep b) with (String sep b).
    cbn [Split]. now rewrite Ascii.eqb_refl.
  - change (String c a +:+ String sep b) with (String c (a +:+ String sep b)).
    cbn [Split]. rewrite IH. destruct (Ascii.eqb c sep); [reflexivity|].
    pose proof (Split_nonempty a sep) as Hne.
    destruct (Split a sep) as [|seg segs]; [contradiction|reflexivity].
Qed.

Lemma Split_Join_str (l : list string) :
  l <> [] -> Forall (fun x => countByte slash x = O) l ->
  Split (Join_str l "/") slash = l.
Proof.
  induction l as [|x l IH]; [congruence|]. intros _ Hf.
  apply Forall_cons in Hf as [Hx Hf]. destruct l as [|y l].
  - cbn [Join_str]. now apply Split_plain.
  - change (Join_str (x :: y :: l) "/") with (x +:+ String slash (Join_str (y :: l) "/")).
    rewrite Split_append, (Split_plain _ _ Hx), IH by (assumption || discriminate).
    reflexivity.
Qed.

Lemma plainName_eqb (e : string) :
  plainName e ->
  String.eqb e EmptyString = false /\ String.eqb e "." = false /\
  String.eqb e ".." = false.
Proof. intros (H1 & H2 & H3 & _). repeat split; now apply String.eqb_neq. Qed.

Lemma cleanStep_plain (rooted : bool) (st : list string) (e : string) :
  plainName e -> cleanStep rooted st e = e :: st.
Proof.
  intros He. destruct (plainName_eqb e He) as (H1 & H2 & H3).
  unfold cleanStep. now rewrite H1, H2, H3.
Qed.

Lemma walkStep_plain (at_ : list string) (e : string) :
  plainName e -> walkStep at_ e = at_ ++ [e].
Proof.
  intros He. destruct (plainName_eqb e He) as (H1 & H2 & H3).
  unfold walkStep. now rewrite H1, H2, H3.
Qed.

Lemma walk_plain (l at_ : list string) :
  Forall plainName l -> fold_left walkStep l at_ = at_ ++ l.
Proof.
  revert at_. induction l as [|e l IH]; intros at_ Hf; cbn [fold_left].
  - now rewrite app_nil_r.
  - apply Forall_cons in Hf as [He Hf]. rewrite (walkStep_plain _ _ He), IH by assumption.
    now rewrite <- app_assoc.
Qed.

Lemma clean_plain (rooted : bool) (l st : list string) :
  Forall plainName l -> fold_left (cleanStep rooted) l st = rev l ++ st.
Proof.
  revert st. induction l as [|e l IH]; intros st Hf; cbn [fold_left]; [reflexivity|].
  apply Forall_cons in Hf as [He Hf]. rewrite (cleanStep_plain _ _ _ He), IH by assumption.
  cbn [rev]. now rewrite <- app_assoc.
Qed.

(** What [filepath.Clean] keeps of a rooted path is what the kernel
    reaches by walking it from the root. *)
Lemma walk_clean (elems st : list string) :
  Forall plainName st ->
  Forall (fun x => countByte slash x = O) elems ->
  Forall plainName (fold_left (cleanStep true) elems st) /\
  fold_left walkStep elems (rev st) = rev (fold_left (cleanStep true) elems st).
Proof.
  revert st. induction elems as [|e elems IH]; intros st Hst Hf; cbn [fold_left]; [auto|].
  apply Forall_cons in Hf as [He Hf].
  unfold cleanStep at 2 4, walkStep at 2.
  destruct (String.eqb e EmptyString) eqn:E1; [now apply IH|].
  destruct (String.eqb e ".") eqn:E2; [now apply IH|].
  destruct (String.eqb e "..") eqn:E3.
  - destruct st as [|top below].
    + cbn [rev removelast]. now apply (IH []).
    + apply Forall_cons in Hst as [Htop Hbelow].
      destruct (plainName_eqb top Htop) as (_ & _ & ->).
      cbn [rev]. rewrite removelast_last. now apply IH.
  - assert (Hp : plainName e)
      by (repeat split; try (now apply String.eqb_neq); assumption).
    change (rev st ++ [e]) with (rev (e :: st)). apply IH; [|assumption].
    now constructor.
Qed.

Lemma IsAbs_append (a b : string) : IsAbs a = true -> IsAbs (a +:+ b) = true.
Proof. destruct a as [|c a]; [discriminate|]. intros H. exact H. Qed.

Lemma filter_nonempty (l : list string) :
  Forall (fun e => e <> EmptyString) l -> filter (fun e => e ≠ EmptyString) l = l.
Proof.
  induction 1 as [|e l He _ IH]; [reflexivity|].
  rewrite filter_cons_True by assumption. now rewrite IH.
Qed.

Lemma plainName_no_slash (l : list string) :
  Forall plainName l -> Forall (fun x => countByte slash x = O) l.
Proof. intros H. eapply Forall_impl; [exact H|]. now intros e (_ & _ & _ & He). Qed.

(** [filepath.Join] of an absolute directory and plain names names the
    entry reached from that directory through these names. *)
Lemma resolve_Join (c : list string) (dir : string) (names : list string) :
  IsAbs dir = true -> Forall plainName names ->
  resolve c (Join (dir :: names)) = resolve c dir ++ names.
Proof.
  intros Habs Hnames.
  assert (Hne : Forall (fun e => e <> EmptyString) (dir :: names)).
  { constructor; [destruct dir; [discriminate|discriminate]|].
    eapply Forall_impl; [exact Hnames|]. now intros e (He & _). }
  unfold Join. rewrite (filter_nonempty _ Hne).
  set (P := Join_str (dir :: names) "/").
  assert (HabsP : IsAbs P = true).
  { unfold P. destruct names as [|n names]; [exact Habs|].
    change (Join_str (dir :: n :: names) "/")
      with (dir +:+ String slash (Join_str (n :: names) "/")).
    now apply IsAbs_append. }
  assert (Hsplit : Split P slash = Split dir slash ++ names).
  { unfold P. destruct names as [|n names]; [now rewrite app_nil_r|].
    change (Join_str (dir :: n :: names) "/")
      with (dir +:+ String slash (Join_str (n :: names) "/")).
    rewrite Split_append, Split_Join_str; [reflexivity|discriminate|].
    now apply plainName_no_slash. }
  destruct (walk_clean (Split dir slash) [] (List.Forall_nil _) (Split_no_sep dir slash))
    as [Hst Hwalk].
  set (st := fold_left (cleanStep true) (Split dir slash) []) in *.
  assert (Hdir : resolve c dir = rev st).
  { unfold resolve. rewrite Habs. exact Hwalk. }
  rewrite Hdir. unfold Clean. fold P. rewrite HabsP, Hsplit, fold_left_app.
  fold st. rewrite (clean_plain _ _ _ Hnames), rev_app_distr, rev_involutive.
  set (L := rev st ++ names).
  assert (HL : Forall plainName L).
  { unfold L. apply Forall_app. split; [|assumption]. now apply Forall_rev. }
  unfold resolve. cbn [IsAbs]. rewrite Ascii.eqb_refl. cbn [Split].
  rewrite Ascii.eqb_refl. cbn [fold_left]. unfold walkStep at 2. cbn [String.eqb].
  destruct L as [|x L'] eqn:EL; [reflexivity|].
  rewrite Split_Join_str; [|discriminate|now apply plainName_no_slash].
  now rewrite walk_plain.
Qed.

(** ** The world the first command is run in *)

Lemma firstCommand_perform (env : Env) (A X : Type) (e : eff X) (f : X -> prog A)
    (w : World) :
  firstCommand env (bind (perform e) f) w =
  match commandOf e with
  | Some c => Some (c, w)
  | None =>
      match handle env e w with
      | Some (x, w') => firstCommand env (f x) w'
      | None => None
      end
  end.
Proof. reflexivity. Qed.

Lemma firstCommand_bind (env : Env) (A B : Type) (p : prog A) (f : A -> prog B)
    (w w1 : World) (a : A) :
  firstCommand env p w = None ->
  run env p w = (Returned a, w1) ->
  firstCommand env (bind p f) w = firstCommand env (f a) w1.
Proof.
  revert w. induction p as [a'|v|X e k IH]; intros w; cbn [firstCommand run bind].
  - intros _ [= <- <-]. reflexivity.
  - intros _ [=].
  - destruct (commandOf e); [discriminate|].
    destruct (handle env e w) as [[x w']|]; [apply IH|intros _ [=]].
Qed.

Lemma firstCommand_defer (env : Env) (A : Type) (d : prog unit) (p : prog A)
    (w : World) (c : (string * list string) * World) :
  firstCommand env p w = Some c -> firstCommand env (defer d p) w = Some c.
Proof.
  revert w. induction p as [a|v|X e k IH]; intros w; cbn [firstCommand defer];
    try discriminate.
  destruct (commandOf e); [auto|].
  destruct (handle env e w) as [[x w']|]; [apply IH|discriminate].
Qed.

Lemma firstCommand_defer_ex (env : Env) (A : Type) (d : prog unit) (p : prog A)
    (w : World) (c : string * list string) (P : World -> Prop) :
  (exists w', firstCommand env p w = Some (c, w') /\ P w') ->
  exists w', firstCommand env (defer d p) w = Some (c, w') /\ P w'.
Proof.
  intros (w' & Hfc & HP). exists w'. split; [now apply firstCommand_defer|exact HP].
Qed.

Lemma firstCommand_randomLoop (env : Env) (alpha : list ascii) (n : nat) (buf : string)
    (w : World) :
  firstCommand env (randomLoop alpha n buf) w = None.
Proof.
  revert buf w. induction n as [|n IH]; intros buf w; cbn [randomLoop]; [reflexivity|].
  rewrite firstCommand_perform. cbn [commandOf].
  destruct (handle env _ w) as [[[val|err] w']|]; try reflexivity.
  destruct (val <? 0); [reflexivity|].
  destruct (alpha !! Z.to_nat val); [apply IH|reflexivity].
Qed.

Lemma firstCommand_teeChunks (env : Env) (cs : list string) (rerr : option error)
    (f : option File) (w : World) :
  firstCommand env (teeChunks cs rerr f) w = None.
Proof.
  revert w. induction cs as [|c cs IH]; intros w; cbn [teeChunks]; [reflexivity|].
  destruct (String.eqb c EmptyString); [apply IH|].
  destruct f as [fl|]; cbn [File_Write]; [|reflexivity].
  rewrite firstCommand_perform. cbn [commandOf].
  destruct (handle env _ w) as [[[e|] w']|]; try reflexivity. apply IH.
Qed.

Lemma drawn_reads (env : Env) (n pos : nat) (s : string) :
  drawn env pos n = Some s ->
  forall i, (i < n)%nat -> exists v, randReader env (pos + i) = inl v.
Proof.
  revert pos s. induction n as [|n IH]; intros pos s; cbn [drawn]; [intros _ i Hi; lia|].
  destruct (randReader env pos) as [v|] eqn:Hr; [|discriminate].
  destruct (stringAlphaNumeric !! Z.to_nat (v mod 62)); [|discriminate].
  destruct (drawn env (S pos) n) as [t|] eqn:Hd; [|discriminate].
  intros _ [|i] Hi.
  - rewrite Nat.add_0_r. eauto.
  - rewrite Nat.add_succ_r. apply (IH (S pos) t Hd i). lia.
Qed.

(** With draws that succeed, the random name is the one drawn. *)
Lemma run_Random_drawn (env : Env) (w : World) (len : Z) (s : string) :
  drawn env (randPos w) (Z.to_nat len) = Some s ->
  exists w1, run env (RandomAlphaNumericString len) w = (Returned s, w1) /\
             resp w1 = resp w /\ fs w1 = fs w /\ cwd w1 = cwd w /\ locked w1 = locked w.
Proof.
  intros Hd. unfold RandomAlphaNumericString, randomStringFromAlphabet.
  destruct (run env (randomLoop stringAlphaNumeric (Z.to_nat len) EmptyString) w)
    as [o w1] eqn:Hrun.
  exists w1. apply run_randomLoop in Hrun as (H1 & H2 & H3 & H4 & Ho).
  destruct o as [s'|v|]; [| |contradiction].
  - destruct Ho as (suffix & Hd' & -> & _). rewrite append_nil_l.
    rewrite Hd in Hd'. injection Hd' as <-. auto.
  - destruct Ho as (i & err & Hi & Hr & _).
    destruct (drawn_reads _ _ _ _ Hd i Hi) as [v' Hv]. congruence.
Qed.

(** The copy of the body into an open file that takes the writes: the
    file then holds what it held, followed by the bytes of the body. *)
Lemma run_teeChunks_file (env : Env) (cs : list string) (rerr : option error)
    (f : File) (w : World) (c0 : string) :
  fs w !! location f = Some (NFile c0) ->
  refuses env SysWrite (location f) = None ->
  exists w1, run env (teeChunks cs rerr (Some f)) w = (Returned rerr, w1) /\
    fs w1 = <[location f := NFile (c0 +:+ fold_right String.append EmptyString cs)]> (fs w) /\
    resp w1 = resp w /\ cwd w1 = cwd w /\ locked w1 = locked w.
Proof.
  intros Hfile Href. revert w c0 Hfile.
  induction cs as [|c cs IH]; intros w c0 Hfile; cbn [teeChunks fold_right].
  - exists w. rewrite append_nil_r, insert_id by assumption. auto.
  - destruct (String.eqb c EmptyString) eqn:Ec.
    + apply String.eqb_eq in Ec. subst c. rewrite append_nil_l. now apply IH.
    + cbn [File_Write]. rewrite run_perform. unfold handle. cbn [answer].
      rewrite Href, Hfile. cbn [event_of].
      set (w2 := addEvent _ _).
      destruct (IH w2 (c0 +:+ c)) as (w1 & Hrun & Hf1 & Hr1 & Hc1 & Hl1).
      { unfold w2. cbn [fs addEvent setFs]. apply lookup_insert_eq. }
      exists w1. split; [exact Hrun|]. rewrite Hf1, Hr1, Hc1, Hl1. unfold w2.
      cbn [fs resp cwd locked addEvent setFs]. rewrite insert_insert_eq, append_assoc. auto.
Qed.

Lemma handle_OpenFile_creates (env : Env) (w : World) (name : string) :
  exists_at (fs w) (resolve (cwd w) name) = false ->
  isDir (fs w) (removelast (resolve (cwd w) name)) = true ->
  refuses env SysOpen (resolve (cwd w) name) = None ->
  handle env (OpenFile name) w =
  Some ((Some (mkFile name (resolve (cwd w) name)), None),
        addEvent (EvOpenFile name (Some (mkFile name (resolve (cwd w) name))) None)
          (setFs (<[resolve (cwd w) name := NFile EmptyString]> (fs w)) w)).
Proof.
  intros Hex Hdir Href. unfold handle. cbn [answer]. unfold create.
  rewrite Hex, Hdir, Href. reflexivity.
Qed.

(** X13. What [adb install] finds.  On a machine where the staging file
    can be created (its name is free, its directory exists, the
    operating system refuses neither the creation nor the writes), with
    a body that is read to its end, draws that succeed and the mutex
    free: the first command the Android runner runs is
    [adb install -r] on the staging file, [test_<suffix>.apk] in the temp
    directory; when it is started that file holds exactly the bytes of
    the request body, in order, and nothing else in the file system has
    changed; the mutex is held; and nothing has been written to the
    response yet. *)
Theorem android_install_sees_the_upload
    (env : Env) (w : World) (r : Request) (query : gmap string (list string))
    (suffix name : string) (loc : list string) :
  Get query "test_package" <> EmptyString ->
  drawn env (randPos w) 5 = Some suffix ->
  name = Join [TMPDIR env; "test_" +:+ suffix +:+ ".apk"] ->
  loc = resolve (cwd w) name ->
  exists_at (fs w) loc = false ->
  isDir (fs w) (removelast loc) = true ->
  refuses env SysOpen loc = None ->
  refuses env SysWrite loc = None ->
  readErr (body r) = None ->
  locked w = false ->
  exists w1,
    firstCommand env (runAndroidTest r query) w =
      Some (("adb", ["install"; "-r"; name]), w1) /\
    fs w1 = <[loc := NFile (bytesOf (body r))]> (fs w) /\
    cwd w1 = cwd w /\ locked w1 = true /\ resp w1 = resp w.
Proof.
  intros Hpkg Hd Hname Hloc Hex Hdir Hopen Hwrite Hread Hfree.
  unfold runAndroidTest. cbv zeta. rewrite (eqb_neq_false _ _ Hpkg).
  rewrite firstCommand_perform. cbn [commandOf].
  change (handle env TempDir w) with (Some (TMPDIR env, addEvent EvTempDir w)).
  cbv beta iota.
  destruct (run_Random_drawn env (addEvent EvTempDir w) 5 suffix Hd)
    as (w1 & Hrun & Hr1 & Hf1 & Hc1 & Hl1).
  cbn [resp fs cwd locked addEvent] in Hr1, Hf1, Hc1, Hl1.
  rewrite (firstCommand_bind _ _ _ _ _ _ _ _ (firstCommand_randomLoop _ _ _ _ _) Hrun).
  rewrite <- Hname. rewrite firstCommand_perform. cbn [commandOf].
  assert (Hloc1 : resolve (cwd w1) name = loc) by (now rewrite Hc1).
  rewrite handle_OpenFile_creates by (rewrite Hloc1, ?Hf1; assumption).
  rewrite Hloc1. cbv beta iota. cbn [IsExist File_Name bind Name].
  set (f := mkFile name loc). set (w2 := addEvent _ _).
  destruct (run_teeChunks_file env (chunks (body r)) (readErr (body r)) f w2 EmptyString)
    as (w3 & Hrun3 & Hf3 & Hr3 & Hc3 & Hl3).
  { unfold w2. cbn [fs addEvent setFs location f]. apply lookup_insert_eq. }
  { exact Hwrite. }
  eexists. split.
  - apply firstCommand_defer. unfold ReadAll_TeeReader.
    rewrite (firstCommand_bind _ _ _ _ _ _ _ _ (firstCommand_teeChunks _ _ _ _ _) Hrun3).
    rewrite Hread. cbn [File_Close]. rewrite firstCommand_perform. cbn [commandOf].
    change (handle env (FileClose f) w3) with (Some (@None error, addEvent (EvFileClose f) w3)).
    cbv beta iota. rewrite firstCommand_perform. cbn [commandOf].
    match goal with |- context [handle env (Log ?m) ?w0] =>
      change (handle env (Log m) w0) with (Some (tt, addEvent (EvLog m) w0)) end.
    cbv beta iota. rewrite firstCommand_perform. cbn [commandOf].
    unfold handle at 1. cbn [answer locked addEvent]. rewrite Hl3. unfold w2.
    cbn [locked addEvent setFs]. rewrite Hl1, Hfree. cbv beta iota. cbn [event_of].
    apply firstCommand_defer. cbn [File_Name bind Name f].
    rewrite firstCommand_perform. cbn [commandOf]. reflexivity.
  - cbn [fs cwd locked resp addEvent setLocked]. rewrite Hf3, Hc3, Hr3. unfold w2.
    cbn [fs cwd resp addEvent setFs location f]. rewrite Hf1, Hc1, Hr1.
    rewrite insert_insert_eq, append_nil_l. auto.
Qed.

Lemma android_install_sees_the_upload_witness :
  exists w1,
    firstCommand env0 (runAndroidTest reqAndroid (queryOf reqAndroid)) world0 =
      Some (("adb", ["install"; "-r"; "/tmp/test_abcde.apk"]), w1) /\
    fs w1 = <[["tmp"; "test_abcde.apk"] := NFile (bytesOf (body reqAndroid))]> (fs world0) /\
    cwd w1 = cwd world0 /\ locked w1 = true /\ resp w1 = resp world0.
Proof.
  apply (android_install_sees_the_upload env0 world0 reqAndroid (queryOf reqAndroid)
           "abcde" "/tmp/test_abcde.apk" ["tmp"; "test_abcde.apk"]).
  - vm_compute. discriminate.
  - reflexivity.
  - reflexivity.
  - reflexivity.
  - reflexivity.
  - reflexivity.
  - reflexivity.
  - reflexivity.
  - reflexivity.
  - reflexivity.
Defined.

Lemma exists_at_snoc (m : gmap (list string) Node) (l : list string) (x : string) :
  exists_at m (l ++ [x]) = match m !! (l ++ [x]) with Some _ => true | None => false end.
Proof. unfold exists_at. destruct l; reflexivity. Qed.

Lemma isDir_snoc (m : gmap (list string) Node) (l : list string) (x : string) :
  isDir m (l ++ [x]) = match m !! (l ++ [x]) with Some NDir => true | _ => false end.
Proof. unfold isDir. destruct l; reflexivity. Qed.

Lemma isDir_exists (m : gmap (list string) Node) (l : list string) :
  isDir m l = true -> exists_at m l = true.
Proof. unfold isDir, exists_at. destruct l; [auto|]. destruct (m !! _); auto. Qed.

Lemma resolve_absolute (c : list string) (p : string) :
  IsAbs p = true -> resolve c p = resolve [] p.
Proof. intros H. unfold resolve. now rewrite H. Qed.

Lemma handle_Chdir_enters (env : Env) (w : World) (dir : string) :
  isDir (fs w) (resolve (cwd w) dir) = true ->
  refuses env SysChdir (resolve (cwd w) dir) = None ->
  handle env (Chdir dir) w =
  Some (None, addEvent (EvChdir dir None) (setCwd (resolve (cwd w) dir) w)).
Proof.
  intros Hdir Href. unfold handle. cbn [answer].
  rewrite (isDir_exists _ _ Hdir), Hdir, Href. reflexivity.
Qed.

Lemma handle_Mkdir_creates (env : Env) (w : World) (name : string) :
  exists_at (fs w) (resolve (cwd w) name) = false ->
  isDir (fs w) (removelast (resolve (cwd w) name)) = true ->
  refuses env SysMkdir (resolve (cwd w) name) = None ->
  handle env (Mkdir name) w =
  Some (None, addEvent (EvMkdir name None)
                (setFs (<[resolve (cwd w) name := NDir]> (fs w)) w)).
Proof.
  intros Hex Hdir Href. unfold handle. cbn [answer]. unfold create.
  rewrite Hex, Hdir, Href. reflexivity.
Qed.

Lemma drawn_plain (env : Env) (pos n : nat) (s : string) :
  (0 < n)%nat -> drawn env pos n = Some s -> plainName s.
Proof.
  intros Hn Hd. destruct (drawn_shape _ _ _ _ Hd) as [Hl Hf].
  apply alphabet_name_plain; [lia|assumption].
Qed.

(** X14. What [tar] finds.  On a machine whose temp directory is given
    by an absolute path and exists, where the random name is free in it
    and the operating system refuses nothing, with a body that is read
    to its end and draws that succeed: the first command the iOS runner
    runs is [tar xf] on [source.tgz] in the new staging directory; when
    it is started the working directory of the process is that staging
    directory (so the archive is unpacked into it), the file the
    argument names holds exactly the bytes of the request body, the
    staging directory and that file are all that was added to the file
    system, nothing has been written to the response, and the mutex is
    as it was: [tar] is started without taking it. *)
Theorem ios_tar_sees_the_upload
    (Quote : string -> string) (env : Env) (w : World) (r : Request)
    (query : gmap string (list string)) (suffix archive : string)
    (tmp staging : list string) :
  Get query "test_destination" <> EmptyString ->
  Get query "test_schemes" <> EmptyString ->
  IsAbs (TMPDIR env) = true ->
  tmp = resolve [] (TMPDIR env) ->
  drawn env (randPos w) 5 = Some suffix ->
  staging = tmp ++ [suffix] ->
  archive = Join [TMPDIR env; suffix; "source.tgz"] ->
  isDir (fs w) tmp = true ->
  fs w !! staging = None ->
  fs w !! (staging ++ ["source.tgz"]) = None ->
  (forall sys loc, refuses env sys loc = None) ->
  readErr (body r) = None ->
  exists w1,
    firstCommand env (Part_000.runIOSTest Quote r query) w =
      Some (("tar", ["xf"; archive]), w1) /\
    cwd w1 = staging /\
    resolve (cwd w1) archive = staging ++ ["source.tgz"] /\
    fs w1 = <[staging ++ ["source.tgz"] := NFile (bytesOf (body r))]>
              (<[staging := NDir]> (fs w)) /\
    locked w1 = locked w /\ resp w1 = resp w.
Proof.
  intros Hdest Hschemes Habs Htmp Hd Hstaging Harchive Hdir Hfree1 Hfree2 Href Hread.
  assert (Hplain : plainName suffix)
    by (apply (drawn_plain env (randPos w) 5 suffix); [lia|exact Hd]).
  assert (Hplain2 : plainName "source.tgz") by (repeat split; discriminate).
  assert (Hres1 : forall c, resolve c (TMPDIR env) = tmp)
    by (intros c; rewrite Htmp; now apply resolve_absolute).
  assert (Hres2 : forall c, resolve c (Join [TMPDIR env; suffix]) = staging).
  { intros c. rewrite resolve_Join, Hres1, Hstaging by (auto; repeat constructor; auto).
    reflexivity. }
  assert (Hres3 : forall c, resolve c archive = staging ++ ["source.tgz"]).
  { intros c. rewrite Harchive, resolve_Join, Hres1, Hstaging
      by (auto; repeat constructor; auto).
    now rewrite <- app_assoc. }
  unfold Part_000.runIOSTest. cbv zeta.
  rewrite (eqb_neq_false _ _ Hdest), (eqb_neq_false _ _ Hschemes).
  rewrite firstCommand_perform. cbn [commandOf].
  change (handle env TempDir w) with (Some (TMPDIR env, addEvent EvTempDir w)).
  cbv beta iota.
  (* os.Chdir(dir) *)
  rewrite firstCommand_perform. cbn [commandOf].
  rewrite handle_Chdir_enters
    by (cbn [fs cwd addEvent]; rewrite Hres1; [assumption || apply Href]).
  cbv beta iota. cbn [cwd addEvent]. rewrite Hres1.
  set (w0 := addEvent (EvChdir _ _) _).
  (* sourceDir *)
  destruct (run_Random_drawn env w0 5 suffix Hd)
    as (w1 & Hrun & Hr1 & Hf1 & Hc1 & Hl1).
  unfold w0 in Hr1, Hf1, Hc1, Hl1. cbn [resp fs cwd locked addEvent setCwd] in Hr1, Hf1, Hc1, Hl1.
  rewrite (firstCommand_bind _ _ _ _ _ _ _ _ (firstCommand_randomLoop _ _ _ _ _) Hrun).
  (* os.Mkdir(sourceDir) *)
  rewrite firstCommand_perform. cbn [commandOf].
  assert (Hloc1 : resolve (cwd w1) suffix = staging)
    by (rewrite Hc1, Hstaging; now apply resolve_plain).
  rewrite handle_Mkdir_creates.
  2:{ rewrite Hloc1, Hf1, Hstaging, exists_at_snoc, <- Hstaging, Hfree1. reflexivity. }
  2:{ rewrite Hloc1, Hf1, Hstaging, removelast_last. assumption. }
  2:{ apply Href. }
  rewrite Hloc1. cbv beta iota.
  set (w2 := addEvent (EvMkdir _ _) _).
  assert (Hstage2 : fs w2 !! staging = Some NDir)
    by (unfold w2; cbn [fs addEvent setFs]; apply lookup_insert_eq).
  apply firstCommand_defer_ex.
  (* os.Chdir(filepath.Join(dir, sourceDir)) *)
  rewrite firstCommand_perform. cbn [commandOf].
  rewrite handle_Chdir_enters.
  2:{ rewrite Hres2, Hstaging, isDir_snoc, <- Hstaging, Hstage2. reflexivity. }
  2:{ apply Href. }
  rewrite Hres2. cbv beta iota.
  set (w3 := addEvent (EvChdir _ _) _).
  (* os.OpenFile(sourceFileName) *)
  rewrite <- Harchive. rewrite firstCommand_perform. cbn [commandOf].
  rewrite handle_OpenFile_creates.
  2:{ rewrite Hres3, exists_at_snoc. unfold w3, w2. cbn [fs addEvent setFs setCwd].
      rewrite lookup_insert_ne, Hf1, Hfree2; [reflexivity|].
      intros Heq. apply (f_equal length) in Heq. rewrite length_app in Heq.
      cbn in Heq. lia. }
  2:{ rewrite Hres3, removelast_last, Hstaging, isDir_snoc, <- Hstaging.
      unfold w3. cbn [fs addEvent setCwd]. now rewrite Hstage2. }
  2:{ apply Href. }
  rewrite Hres3. cbv beta iota. cbn [IsExist].
  set (f := mkFile archive (staging ++ ["source.tgz"])). set (w4 := addEvent _ _).
  destruct (run_teeChunks_file env (chunks (body r)) (readErr (body r)) f w4 EmptyString)
    as (w5 & Hrun5 & Hf5 & Hr5 & Hc5 & Hl5).
  { unfold w4. cbn [fs addEvent setFs location f]. apply lookup_insert_eq. }
  { apply Href. }
  unfold ReadAll_TeeReader.
  rewrite (firstCommand_bind _ _ _ _ _ _ _ _ (firstCommand_teeChunks _ _ _ _ _) Hrun5).
  rewrite Hread. cbn [File_Close]. rewrite firstCommand_perform. cbn [commandOf].
  change (handle env (FileClose f) w5) with (Some (@None error, addEvent (EvFileClose f) w5)).
  cbv beta iota. rewrite firstCommand_perform. cbn [commandOf].
  match goal with |- context [handle env (Log ?m) ?w0] =>
    change (handle env (Log m) w0) with (Some (tt, addEvent (EvLog m) w0)) end.
  cbv beta iota. cbn [File_Name bind Name f].
  rewrite firstCommand_perform. cbn [commandOf].
  eexists. split; [reflexivity|].
  cbn [fs cwd locked resp addEvent]. rewrite Hf5, Hc5, Hr5, Hl5. unfold w4, w3, w2.
  cbn [fs cwd resp locked addEvent setFs setCwd location f].
  rewrite Hf1, Hr1, Hl1, insert_insert_eq, append_nil_l, Hres3. auto.
Qed.

Lemma ios_tar_sees_the_upload_witness :
  exists w1,
    firstCommand env0
      (Part_000.runIOSTest Quote_ascii (reqIOS "App" upload) (queryOf (reqIOS "App" upload)))
      world0 = Some (("tar", ["xf"; "/tmp/abcde/source.tgz"]), w1) /\
    cwd w1 = ["tmp"; "abcde"] /\
    resolve (cwd w1) "/tmp/abcde/source.tgz" = ["tmp"; "abcde"] ++ ["source.tgz"] /\
    fs w1 = <[["tmp"; "abcde"] ++ ["source.tgz"] := NFile (bytesOf (body (reqIOS "App" upload)))]>
              (<[["tmp"; "abcde"] := NDir]> (fs world0)) /\
    locked w1 = locked world0 /\ resp w1 = resp world0.
Proof.
  apply (ios_tar_sees_the_upload Quote_ascii env0 world0 (reqIOS "App" upload)
           (queryOf (reqIOS "App" upload)) "abcde" "/tmp/abcde/source.tgz"
           ["tmp"] ["tmp"; "abcde"]).
  - vm_compute. discriminate.
  - vm_compute. discriminate.
  - reflexivity.
  - reflexivity.
  - reflexivity.
  - reflexivity.
  - reflexivity.
  - reflexivity.
  - reflexivity.
  - reflexivity.
  - reflexivity.
  - reflexivity.
Defined.

(** ** Panics *)

Lemma run_bind (env : Env) (A B : Type) (p : prog A) (f : A -> prog B) (w : World) :
  run env (bind p f) w =
  match run env p w with
  | (Returned a, w1) => run env (f a) w1
  | (Panicked v, w1) => (Panicked v, w1)
  | (Blocked, w1) => (Blocked, w1)
  end.
Proof.
  revert w. induction p as [a|v|X e k IH]; intros w; cbn [bind run]; try reflexivity.
  destruct (handle env e w) as [[x w1]|]; [apply IH|reflexivity].
Qed.

(** A panic of the random name: a draw failed. *)
Lemma run_Random_panics (env : Env) (w w' : World) (len : Z) (v : string) :
  run env (RandomAlphaNumericString len) w = (Panicked v, w') ->
  exists pos err, randReader env pos = inr err /\ v = Error err.
Proof.
  unfold RandomAlphaNumericString, randomStringFromAlphabet. intros Hrun.
  apply run_randomLoop in Hrun as (_ & _ & _ & _ & i & err & _ & Hr & ->). eauto.
Qed.

Lemma follows_not_opened (env : Env) (w w' : World) (evs : list event) (name : string)
    (err : option error) :
  follows env w evs w' -> In (EvOpenFile name None err) evs ->
  exists e, err = Some e.
Proof.
  induction 1 as [w|X e x w w1 ev evs w' Hh -> Hf IH]; [intros []|].
  intros [Hev|Hin]; [|auto].
  destruct e; try discriminate Hev. destruct x as [f0 err0]. cbn [event_of fst snd] in Hev.
  injection Hev as -> -> ->.
  apply handle_OpenFile in Hh as (_ & Hne & _). destruct err as [e|]; [eauto|congruence].
Qed.

(** Finding an event in the events of a run that was stepped through. *)
Ltac find_in :=
  first [ left; reflexivity
        | right; find_in
        | apply in_or_app; first [left; find_in | right; find_in] ].

(** The panic at the name of a nil file: the file could not be opened,
    for a reason other than that it exists. *)
Ltac nil_file_panic :=
  split; [reflexivity|];
  match goal with
  | Hf : follows _ _ ?evs _ |- _ =>
      match evs with
      | context [EvOpenFile ?n None ?e] =>
          let Hin := fresh "Hin" in
          let err := fresh "err" in
          assert (Hin : In (EvOpenFile n None e) evs) by find_in;
          destruct (follows_not_opened _ _ _ _ _ _ Hf Hin) as [err ->];
          exists n, err; split;
          [rewrite (proj1 (follows_facts _ _ _ _ Hf)); apply in_or_app; right; exact Hin
          |assumption]
      end
  end.

Lemma runAndroidTest_panics (env : Env) (w w' : World) (r : Request)
    (query : gmap string (list string)) (v : string) :
  run env (runAndroidTest r query) w = (Panicked v, w') ->
  (exists pos err, randReader env pos = inr err /\ v = Error err) \/
  (v = nilDeref /\
   exists name err, In (EvOpenFile name None (Some err)) (trace w') /\
                    IsExist (Some err) = false).
Proof.
  intros Hrun. unfold runAndroidTest in Hrun. cbv zeta in Hrun.
  destruct (String.eqb _ _).
  - apply run_exec in Hrun as (evs & He & _). repeat trace_step He.
  - rewrite run_perform in Hrun.
    change (handle env TempDir w) with (Some (TMPDIR env, addEvent EvTempDir w)) in Hrun.
    cbv beta iota in Hrun. rewrite run_bind in Hrun.
    destruct (run env (RandomAlphaNumericString 5) _) as [[s|v0|] w1] eqn:Hr.
    + apply run_follows in Hrun as (evs & He & Hf). right.
      repeat trace_step He; cbn [event_of fst snd] in Hf; try discriminate.
      nil_file_panic.
    + injection Hrun as <- <-. left. eapply run_Random_panics, Hr.
    + discriminate Hrun.
Qed.

Lemma runIOSTest_panics (Quote : string -> string) (env : Env) (w w' : World)
    (r : Request) (query : gmap string (list string)) (v : string) :
  run env (Part_000.runIOSTest Quote r query) w = (Panicked v, w') ->
  (exists pos err, randReader env pos = inr err /\ v = Error err) \/
  (v = nilDeref /\
   exists name err, In (EvOpenFile name None (Some err)) (trace w') /\
                    IsExist (Some err) = false).
Proof.
  intros Hrun. unfold Part_000.runIOSTest in Hrun. cbv zeta in Hrun.
  destruct (String.eqb _ _);
    [apply run_exec in Hrun as (evs & He & _); repeat trace_step He|].
  destruct (String.eqb _ _);
    [apply run_exec in Hrun as (evs & He & _); repeat trace_step He|].
  rewrite run_perform in Hrun.
  change (handle env TempDir w) with (Some (TMPDIR env, addEvent EvTempDir w)) in Hrun.
  cbv beta iota in Hrun. rewrite run_perform in Hrun.
  destruct (handle env (Chdir (TMPDIR env)) _) as [[[e|] w0]|]; [| |discriminate Hrun].
  - apply run_exec in Hrun as (evs & He & _). repeat trace_step He.
  - rewrite run_bind in Hrun.
    destruct (run env (RandomAlphaNumericString 5) _) as [[s|v0|] w1] eqn:Hr.
    + apply run_follows in Hrun as (evs & He & Hf). right.
      repeat trace_step He; cbn [event_of fst snd] in Hf; try discriminate.
      all: nil_file_panic.
    + injection Hrun as <- <-. left. eapply run_Random_panics, Hr.
    + discriminate Hrun.
Qed.

(** X15. When a handler panics.  In both variants, the handling of a
    request panics in two cases only: a draw from the random source
    failed (the panic carries that error), or the staging file could not
    be opened for a reason other than that it exists, and the runner
    went on to ask the nil file for its name.  Nothing else in the
    handlers panics: not the dispatch, not an index into the alphabet,
    not a failure of a command, of the body or of the file system. *)
Theorem handler_panics_only_when
    (secret : string) (Quote : string -> string) (env : Env) (w w' : World)
    (r : Request) (p : prog unit) (v : string) :
  p = Main_go.handler secret r \/ p = Part_000.handler secret Quote r ->
  run env p w = (Panicked v, w') ->
  (exists pos err, randReader env pos = inr err /\ v = Error err) \/
  (v = nilDeref /\
   exists name err, In (EvOpenFile name None (Some err)) (trace w') /\
                    IsExist (Some err) = false).
Proof.
  intros [-> | ->] Hrun.
  - unfold Main_go.handler in Hrun. cbv zeta in Hrun.
    destruct (negb _);
      [apply run_exec in Hrun as (evs & He & _); repeat trace_step He|].
    rewrite run_perform, handle_ParseQuery in Hrun.
    destruct (parseQuery env (RawQuery r)) as [query [e|]];
      [apply run_exec in Hrun as (evs & He & _); repeat trace_step He|].
    destruct (String.eqb _ _); [now apply runAndroidTest_panics in Hrun|].
    destruct (String.eqb _ _);
      apply run_exec in Hrun as (evs & He & _); repeat trace_step He.
  - unfold Part_000.handler in Hrun. cbv zeta in Hrun.
    destruct (negb _);
      [apply run_exec in Hrun as (evs & He & _); repeat trace_step He|].
    rewrite run_perform, handle_ParseQuery in Hrun.
    destruct (parseQuery env (RawQuery r)) as [query [e|]];
      [apply run_exec in Hrun as (evs & He & _); repeat trace_step He|].
    destruct (String.eqb _ _); [now apply runAndroidTest_panics in Hrun|].
    destruct (String.eqb _ _); [now apply runIOSTest_panics in Hrun|].
    apply run_exec in Hrun as (evs & He & _); repeat trace_step He.
Qed.

Lemma handler_panics_only_when_witness :
  (exists pos err, randReader envNoNewFiles pos = inr err /\ nilDeref = Error err) \/
  (nilDeref = nilDeref /\
   exists name err, In (EvOpenFile name None (Some err)) (trace (snd handledRefused)) /\
                    IsExist (Some err) = false).
Proof.
  apply (handler_panics_only_when theSecret Quote_ascii envNoNewFiles world0
           (snd handledRefused) reqAndroid
           (Part_000.handler theSecret Quote_ascii reqAndroid) nilDeref).
  - right. reflexivity.
  - vm_compute. reflexivity.
Defined.

(** ** The working directory after an iOS request *)

Lemma follows_Chdir (env : Env) (w w' : World) (dir : string) (err : option error)
    (evs : list event) :
  follows env w (EvChdir dir err :: evs) w' ->
  exists w1, handle env (Chdir dir) w = Some (err, w1) /\ follows env w1 evs w'.
Proof.
  intros H. apply follows_cons_inv in H as (X & e & x & w1 & Hh & Hev & Hf).
  destruct e; try discriminate Hev. cbn [event_of] in Hev.
  injection Hev as -> ->. eauto.
Qed.

Lemma handle_Chdir (env : Env) (w w' : World) (dir : string) :
  handle env (Chdir dir) w = Some (None, w') ->
  cwd w' = resolve (cwd w) dir /\ fs w' = fs w.
Proof.
  unfold handle. cbn [answer]. intros H. repeat case_match; simplify_eq; cbn; auto.
Qed.

Lemma run_trace (env : Env) (A : Type) (p : prog A) (w w' : World) (o : Outcome A) :
  run env p w = (o, w') ->
  exists evs, exec p evs o /\ follows env w evs w' /\ trace w' = trace w ++ evs.
Proof.
  intros Hrun. apply run_follows in Hrun as (evs & He & Hf).
  exists evs. split; [assumption|]. split; [assumption|].
  now apply follows_facts in Hf as [Ht _].
Qed.

Lemma loopEvents_stays (Quote : string -> string) (dest : string)
    (schemes : list string) (results : list (string * option error)) :
  Forall (fun ev => stays ev = true) (loopEvents Quote dest schemes results).
Proof.
  eapply Forall_impl; [apply loopEvents_kinds|].
  intros [] H; try discriminate H; reflexivity.
Qed.

Lemma Draws_no_Mkdir (evs : list event) (s : string) (err : option error) :
  Draws evs -> ~ In (EvMkdir s err) evs.
Proof.
  intros Hd Hin. unfold Draws in Hd. rewrite Forall_forall in Hd.
  apply list_elem_of_In, Hd in Hin. discriminate Hin.
Qed.

Lemma runIOSTest_stays (Quote : string -> string) (env : Env) (w w' : World)
    (r : Request) (query : gmap string (list string)) (o : Outcome unit) (s : string) :
  run env (Part_000.runIOSTest Quote r query) w = (o, w') ->
  fresh w ->
  In (EvMkdir s None) (trace w') ->
  (forall d e, ~ In (EvChdir d (Some e)) (trace w')) ->
  o <> Blocked ->
  plainName s /\
  exists w1 w2 mid rerr,
    follows env w1 (EvChdir (Join [TMPDIR env; s]) None :: mid) w2 /\
    Forall (fun ev => stays ev = true) mid /\
    handle env (RemoveAll s) w2 = Some (rerr, w') /\
    last (trace w') = Some (EvRemoveAll s rerr).
Proof.
  intros Hrun [_ Hfresh] Hin Hnofail Hnb.
  unfold Part_000.runIOSTest in Hrun. cbv zeta in Hrun.
  destruct (String.eqb _ _).
  { exfalso. apply run_trace in Hrun as (evs & He & _ & Ht). rewrite Hfresh in Ht.
    cbn [app] in Ht. rewrite Ht in Hin. repeat trace_step He. in_cases Hin. }
  destruct (String.eqb _ _).
  { exfalso. apply run_trace in Hrun as (evs & He & _ & Ht). rewrite Hfresh in Ht.
    cbn [app] in Ht. rewrite Ht in Hin. repeat trace_step He. in_cases Hin. }
  rewrite run_perform in Hrun.
  change (handle env TempDir w) with (Some (TMPDIR env, addEvent EvTempDir w)) in Hrun.
  cbv beta iota in Hrun. rewrite run_perform in Hrun.
  destruct (handle env (Chdir (TMPDIR env)) _) as [[cderr w0]|] eqn:Hc;
    [|injection Hrun as <- <-; congruence].
  apply handle_facts in Hc as (Ht0 & _). cbn [trace addEvent event_of] in Ht0.
  rewrite Hfresh in Ht0. cbn [app] in Ht0.
  destruct cderr as [e|].
  { exfalso. apply run_trace in Hrun as (evs & He & _ & Ht). rewrite Ht0 in Ht.
    apply (Hnofail (TMPDIR env) e). rewrite Ht. cbn [app In]. auto. }
  rewrite run_bind in Hrun.
  destruct (run env (RandomAlphaNumericString 5) w0) as [[s0|v0|] w1] eqn:Hr.
  - apply run_trace in Hr as (draws & Hd & _ & Ht1). rewrite Ht0 in Ht1.
    unfold RandomAlphaNumericString, randomStringFromAlphabet in Hd.
    apply exec_randomLoop_draws in Hd as (Hdraws & _ & Hname).
    destruct (Hname s0 eq_refl) as (suffix & Hs0 & Hlen & Halpha).
    rewrite append_nil_l in Hs0. subst suffix.
    assert (Hplain : plainName s0) by (apply alphabet_name_plain; [lia|assumption]).
    apply run_trace in Hrun as (evs & He & Hf & Ht). rewrite Ht1 in Ht.
    assert (Hin' : In (EvMkdir s None) (notable evs)).
    { apply (proj1 (In_notable (EvMkdir s None) evs eq_refl)). rewrite Ht in Hin.
      cbn [app In] in Hin. destruct Hin as [Hin|[Hin|Hin]]; try discriminate Hin.
      apply in_app_or in Hin as [Hin|Hin]; [|assumption].
      now apply Draws_no_Mkdir in Hin. }
    assert (Hnofail' : forall d e, ~ In (EvChdir d (Some e)) (notable evs)).
    { intros d e Hx. apply (Hnofail d e). rewrite Ht. cbn [app In]. right. right.
      apply in_or_app. right. exact (proj2 (In_notable (EvChdir d (Some e)) evs eq_refl) Hx). }
    repeat trace_step He; notables_in Hin'; in_loop_cases Hin'; try congruence.
    all: try (exfalso; eapply Hnofail'; notables; cbn [In]; eauto; fail).
    all: split; [assumption|].
    all: cbn [event_of fst snd] in Hf, Ht.
    all: apply follows_Mkdir in Hf as (wa & _ & Hf).
    all: apply follows_app_inv in Hf as (wb & Hf1 & Hf2).
    all: apply follows_RemoveAll in Hf2.
    all: eexists wa, wb, _, _; split; [exact Hf1|].
    all: split;
      [repeat first [ apply List.Forall_nil
                    | apply List.Forall_cons; [reflexivity|]
                    | apply Forall_app; split
                    | eapply WritesTo_stays; eassumption
                    | apply loopEvents_stays ]|].
    all: split; [exact Hf2|].
    all: rewrite Ht, app_comm_cons, app_assoc; apply last_snoc.
  - exfalso. injection Hrun as <- <-.
    apply run_trace in Hr as (draws & Hd & _ & Ht1). rewrite Ht0 in Ht1.
    unfold RandomAlphaNumericString, randomStringFromAlphabet in Hd.
    apply exec_randomLoop_draws in Hd as (Hdraws & _).
    rewrite Ht1 in Hin. cbn [app In] in Hin.
    destruct Hin as [Hin|[Hin|Hin]]; try discriminate Hin.
    now apply Draws_no_Mkdir in Hin.
  - injection Hrun as <- <-. congruence.
Qed.

(** X16. Where the iOS runner leaves the process.  On a machine whose
    temp directory is given by an absolute path, take a run of the iOS
    runner that made its staging directory, got into it (no [os.Chdir]
    failed) and was not left waiting for the mutex.  The runner never
    changes the working directory back: when it ends, the working
    directory of the whole process is the staging directory.  The last
    step of the run is the deferred [os.RemoveAll(sourceDir)], made from
    inside the staging directory; its relative argument names an entry
    of the same name inside the staging directory, so the call leaves
    the staging directory, and every entry of it of another name, as
    they were just before it. *)
Theorem ios_removal_misses_the_staging_directory
    (Quote : string -> string) (env : Env) (w w' : World) (r : Request)
    (query : gmap string (list string)) (o : Outcome unit) (s : string)
    (staging : list string) :
  IsAbs (TMPDIR env) = true ->
  staging = resolve [] (TMPDIR env) ++ [s] ->
  fresh w ->
  run env (Part_000.runIOSTest Quote r query) w = (o, w') ->
  In (EvMkdir s None) (trace w') ->
  (forall d e, ~ In (EvChdir d (Some e)) (trace w')) ->
  o <> Blocked ->
  cwd w' = staging /\
  exists rerr w2,
    last (trace w') = Some (EvRemoveAll s rerr) /\
    handle env (RemoveAll s) w2 = Some (rerr, w') /\
    cwd w2 = staging /\
    resolve (cwd w2) s = staging ++ [s] /\
    fs w' !! staging = fs w2 !! staging /\
    forall entry, entry <> s ->
      fs w' !! (staging ++ [entry]) = fs w2 !! (staging ++ [entry]).
Proof.
  intros Habs Hstaging Hfresh Hrun Hin Hnofail Hnb.
  destruct (runIOSTest_stays _ _ _ _ _ _ _ _ Hrun Hfresh Hin Hnofail Hnb)
    as (Hplain & w1 & w2 & mid & rerr & Hf & Hmid & Hrm & Hlast).
  apply follows_Chdir in Hf as (wa & Hcd & Hf).
  apply handle_Chdir in Hcd as [Hcwd _].
  rewrite resolve_Join in Hcwd by (auto; repeat constructor; auto).
  rewrite (resolve_absolute _ _ Habs), <- Hstaging in Hcwd.
  assert (Hcwd2 : cwd w2 = staging) by (now rewrite (follows_stays _ _ _ _ Hf Hmid)).
  assert (Hcwd' : cwd w' = staging).
  { pose proof Hrm as Hrm'. unfold handle in Hrm'. cbn [answer] in Hrm'.
    destruct (refuses env SysRemoveAll _); injection Hrm' as _ <-; exact Hcwd2. }
  assert (Htarget : resolve (cwd w2) s = staging ++ [s])
    by (rewrite Hcwd2; now apply resolve_plain).
  split; [assumption|]. exists rerr, w2.
  repeat (split; [assumption|]). split.
  - apply (RemoveAll_frame _ _ _ _ _ _ Hrm). rewrite Htarget. intros [k Hk].
    apply (f_equal length) in Hk. rewrite !length_app in Hk. cbn in Hk. lia.
  - intros entry Hne. apply (RemoveAll_frame _ _ _ _ _ _ Hrm). rewrite Htarget.
    intros [k Hk]. rewrite <- app_assoc in Hk. apply app_inv_head in Hk.
    cbn in Hk. congruence.
Qed.

Lemma ios_removal_misses_the_staging_directory_witness :
  cwd (snd (iosOn env0 world0 upload)) = ["tmp"; "abcde"] /\
  exists rerr w2,
    last (trace (snd (iosOn env0 world0 upload))) = Some (EvRemoveAll "abcde" rerr) /\
    handle env0 (RemoveAll "abcde") w2 = Some (rerr, snd (iosOn env0 world0 upload)) /\
    cwd w2 = ["tmp"; "abcde"] /\
    resolve (cwd w2) "abcde" = ["tmp"; "abcde"] ++ ["abcde"] /\
    fs (snd (iosOn env0 world0 upload)) !! ["tmp"; "abcde"] = fs w2 !! ["tmp"; "abcde"] /\
    forall entry, entry <> "abcde" ->
      fs (snd (iosOn env0 world0 upload)) !! (["tmp"; "abcde"] ++ [entry]) =
      fs w2 !! (["tmp"; "abcde"] ++ [entry]).
Proof.
  apply (ios_removal_misses_the_staging_directory Quote_ascii env0 world0
           (snd (iosOn env0 world0 upload)) (reqIOS "App" upload)
           (queryOf (reqIOS "App" upload)) (fst (iosOn env0 world0 upload))
           "abcde" ["tmp"; "abcde"]).
  - reflexivity.
  - reflexivity.
  - split; reflexivity.
  - apply surjective_pairing.
  - vm_compute. repeat (first [left; reflexivity | right]).
  - intros d e Hin. vm_compute in Hin.
    repeat (destruct Hin as [Hin|Hin]; [discriminate Hin|]). contradiction.
  - vm_compute. discriminate.
Defined.

(** ** The iOS runner: a staging file name that is taken *)

Lemma runIOSTest_exists (Quote : string -> string) (r : Request)
    (query : gmap string (list string)) (evs : list event) (o : Outcome unit)
    (name : string) (f : option File) (err : error) :
  exec (Part_000.runIOSTest Quote r query) evs o ->
  In (EvOpenFile name f (Some err)) (notable evs) ->
  IsExist (Some err) = true ->
  o = Returned tt /\
  exists dir s d rerr,
    notable evs = [EvChdir dir None; EvMkdir s None; EvChdir d None;
                   EvOpenFile name f (Some err);
                   EvWriteHeader StatusBadRequest; EvWrite (Error err);
                   EvRemoveAll s rerr].
Proof.
  intros H. unfold Part_000.runIOSTest in H. cbv zeta in H.
  repeat trace_step H; notables; intros Hin Hex; in_loop_cases Hin; try congruence.
  split; [reflexivity|]. eauto 10.
Qed.

(** X17. The iOS runner, when [source.tgz] is already there in the
    directory it got into ([os.OpenFile] fails and [os.IsExist] holds of
    the error): the response is 400 with the text of the error.  No
    command is run and the mutex is not taken; the directory the runner
    made is still handed to the deferred [os.RemoveAll]. *)
Theorem ios_taken_name_is_400
    (Quote : string -> string) (env : Env) (w w' : World) (r : Request)
    (query : gmap string (list string)) (o : Outcome unit)
    (name : string) (f : option File) (err : error) :
  fresh w ->
  run env (Part_000.runIOSTest Quote r query) w = (o, w') ->
  In (EvOpenFile name f (Some err)) (trace w') ->
  IsExist (Some err) = true ->
  responds (o, w') StatusBadRequest (Error err) /\
  commands (trace w') = [] /\
  ~ In EvLock (trace w') /\
  exists s rerr, In (EvMkdir s None) (trace w') /\ In (EvRemoveAll s rerr) (trace w').
Proof.
  intros Hfresh Hrun Hin Hex.
  destruct (run_fresh _ _ _ _ _ _ Hfresh Hrun) as [He Hresp].
  apply (proj1 (In_notable (EvOpenFile name f (Some err)) _ eq_refl)) in Hin.
  destruct (runIOSTest_exists _ _ _ _ _ _ _ _ He Hin Hex)
    as (-> & dir & s & d & rerr & Hn).
  rewrite <- replay_notable, Hn in Hresp. rewrite <- commands_notable, Hn.
  split; [now apply responds_of_response|]. split; [reflexivity|].
  split; [apply (not_In_of_notable _ _ _ Hn); [reflexivity|]; intros Hx; in_cases Hx|].
  exists s, rerr. split.
  - apply (proj2 (In_notable (EvMkdir s None) _ eq_refl)). rewrite Hn. cbn [In]. auto 10.
  - destruct rerr as [e|].
    + apply (proj2 (In_notable (EvRemoveAll s (Some e)) _ eq_refl)). rewrite Hn.
      cbn [In]. auto 10.
    + apply (proj2 (In_notable (EvRemoveAll s None) _ eq_refl)). rewrite Hn.
      cbn [In]. auto 10.
Qed.

Lemma ios_taken_name_is_400_witness :
  responds (fst (iosOn envRelative worldRelative upload),
            snd (iosOn envRelative worldRelative upload))
    StatusBadRequest "open ../abcde/source.tgz: file exists" /\
  commands (trace (snd (iosOn envRelative worldRelative upload))) = [] /\
  ~ In EvLock (trace (snd (iosOn envRelative worldRelative upload))) /\
  exists s rerr,
    In (EvMkdir s None) (trace (snd (iosOn envRelative worldRelative upload))) /\
    In (EvRemoveAll s rerr) (trace (snd (iosOn envRelative worldRelative upload))).
Proof.
  apply (ios_taken_name_is_400 Quote_ascii envRelative worldRelative
           (snd (iosOn envRelative worldRelative upload)) (reqIOS "App" upload)
           (queryOf (reqIOS "App" upload)) (fst (iosOn envRelative worldRelative upload))
           "../abcde/source.tgz" None (PathError "open" "../abcde/source.tgz" EEXIST)).
  - split; reflexivity.
  - apply surjective_pairing.
  - vm_compute. repeat (first [left; reflexivity | right]).
  - reflexivity.
Defined.

(** ** The file system after an Android request *)

Lemma handle_local (env : Env) (X : Type) (e : eff X) (x : X) (w w' : World) (f : File)
    (l : list string) :
  harmless env ->
  handle env e w = Some (x, w') -> local f (event_of e x) ->
  l <> location f -> fs w' !! l = fs w !! l.
Proof.
  intros Htools Hh Hev Hl. unfold handle in Hh.
  destruct (answer env e w) as [[x' w1]|] eqn:Ea; [|discriminate].
  injection Hh as <- <-. cbn [fs addEvent].
  destruct e; simpl in Ea; unfold create in Ea; cbn [event_of local leaves] in Hev.
  all: repeat case_match; simplify_eq; cbn [fs setFs setResp setCwd setLocked setRandPos];
    try reflexivity; try discriminate.
  - now rewrite lookup_insert_ne by congruence.
  - pose proof (Htools name arg (cwd w) (fs w)) as Ht.
    match goal with H : tool _ _ _ _ _ = _ |- _ => rewrite H in Ht end.
    cbn in Ht. now subst.
Qed.

Lemma follows_local (env : Env) (w w' : World) (evs : list event) (f : File)
    (l : list string) :
  harmless env ->
  follows env w evs w' -> Forall (local f) evs ->
  l <> location f -> fs w' !! l = fs w !! l.
Proof.
  intros Htools Hf Hall Hl. induction Hf as [w|X e x w w1 ev evs w' Hh -> Hf IH]; [auto|].
  apply Forall_cons in Hall as [Hev Hall].
  rewrite (IH Hall). eapply handle_local; eassumption.
Qed.

Lemma WritesTo_local (f : File) (evs : list event) :
  WritesTo f evs -> Forall (local f) evs.
Proof.
  intros Hw. eapply Forall_impl; [exact Hw|].
  intros [| | | | | | |? ? []| | | | | | | |] H; try contradiction; exact H.
Qed.

(** A file created, written to, and removed under its name, the working
    directory being the same, nothing but harmless tools in between:
    the file system is as before. *)
Lemma staged_file_cycle (env : Env) (w w' : World) (pre mid : list event)
    (name : string) (f : File) (err : option error) :
  harmless env ->
  follows env w (pre ++ EvOpenFile name (Some f) err :: mid ++ [EvRemove (Name f) None]) w' ->
  Forall (fun ev => leaves ev = true) pre ->
  Forall (fun ev => stays ev = true) mid ->
  Forall (local f) mid ->
  fs w' = fs w.
Proof.
  intros Htools H Hpre Hstays Hlocal.
  apply follows_app_inv in H as (w1 & Hp & H).
  apply follows_OpenFile in H as (w2 & Hopen & H).
  apply handle_OpenFile in Hopen as (Hcwd & _ & Hfile & Hfree & Hfs2).
  apply follows_app_inv in H as (w3 & Hm & H).
  apply follows_Remove, handle_Remove in H as [_ Hfs'].
  rewrite (follows_stays _ _ _ _ Hm Hstays), Hcwd in Hfs'.
  assert (Hloc : resolve (cwd w1) (Name f) = location f) by (now rewrite Hfile).
  rewrite Hloc in Hfs'. rewrite <- (follows_leaves _ _ _ _ Hp Hpre).
  apply map_eq. intros l. rewrite Hfs'.
  destruct (decide (l = location f)) as [->|Hne].
  - rewrite lookup_delete_eq. symmetry.
    unfold exists_at in Hfree. destruct (location f); [discriminate|].
    destruct (fs w1 !! _); [discriminate|reflexivity].
  - rewrite lookup_delete_ne by congruence.
    rewrite (follows_local _ _ _ _ _ _ Htools Hm Hlocal Hne), Hfs2.
    now rewrite lookup_insert_ne by congruence.
Qed.

Lemma runAndroidTest_cycle (r : Request) (query : gmap string (list string))
    (evs : list event) (o : Outcome unit) :
  exec (runAndroidTest r query) evs o ->
  o <> Blocked ->
  (forall name e, ~ In (EvRemove name (Some e)) (notable evs)) ->
  (forall name, ~ In (EvOpenFile name None None) (notable evs)) ->
  Forall (fun ev => leaves ev = true) evs \/
  exists pre mid name f err,
    evs = pre ++ EvOpenFile name (Some f) err :: mid ++ [EvRemove (Name f) None] /\
    Forall (fun ev => leaves ev = true) pre /\
    Forall (fun ev => stays ev = true) mid /\
    Forall (local f) mid.
Proof.
  intros H. unfold runAndroidTest in H. cbv zeta in H.
  repeat trace_step H; intros Hnb Hrm Hnil; try congruence; try discriminate.
  all: cbn [event_of fst snd] in *.
  all: try match goal with
           | |- context [EvRemove _ ?x] =>
               destruct x as [?e|];
               [exfalso; eapply Hrm; notables; find_in|]
           end.
  all: try match goal with
           | |- context [EvOpenFile _ None ?x] =>
               destruct x as [?e|]; [|exfalso; eapply Hnil; notables; find_in]
           end.
  all: first
    [ left; all_events Draws_leaves; fail
    | right; eexists (EvTempDir :: _), _, _, _, _; split; [reflexivity|];
      split; [all_events Draws_leaves|]; split; [all_events WritesTo_stays|];
      repeat first [ apply List.Forall_nil
                   | apply List.Forall_cons; [first [reflexivity | exact I]|]
                   | apply Forall_app; split
                   | eapply WritesTo_local; eassumption ] ].
Qed.

(** X18. An Android request leaves the file system as it found it.
    With tools that do not write to the file system of the server, take
    any run of the Android runner that ends (it is not left waiting for
    the mutex) and in which no [os.Remove] reported an error: whatever
    the path taken (a missing parameter, a name that is taken, a staging
    file that could not be opened, an error of the copy, the failure of
    a command, success), the file system after the run is the file
    system of before it.  The staging file is the only entry the runner
    ever adds, and it is removed on every path that created it. *)
Theorem android_leaves_the_file_system_as_found
    (env : Env) (w w' : World) (r : Request) (query : gmap string (list string))
    (o : Outcome unit) :
  fresh w ->
  harmless env ->
  run env (runAndroidTest r query) w = (o, w') ->
  o <> Blocked ->
  (forall name e, ~ In (EvRemove name (Some e)) (trace w')) ->
  fs w' = fs w.
Proof.
  intros Hfresh Htools Hrun Hnb Hrm.
  destruct (run_fresh_follows _ _ _ _ _ _ Hfresh Hrun) as (He & Hf & _).
  assert (Hrm' : forall name e, ~ In (EvRemove name (Some e)) (notable (trace w'))).
  { intros name e Hin. apply (Hrm name e).
    exact (proj2 (In_notable (EvRemove name (Some e)) _ eq_refl) Hin). }
  assert (Hnil : forall name, ~ In (EvOpenFile name None None) (notable (trace w'))).
  { intros name Hin.
    apply (proj2 (In_notable (EvOpenFile name None None) _ eq_refl)) in Hin.
    destruct (follows_not_opened _ _ _ _ _ _ Hf Hin) as [e He']. discriminate He'. }
  destruct (runAndroidTest_cycle _ _ _ _ He Hnb Hrm' Hnil)
    as [Hall|(pre & mid & name & f & err & Hevs & Hpre & Hstays & Hlocal)].
  - exact (follows_leaves _ _ _ _ Hf Hall).
  - rewrite Hevs in Hf. exact (staged_file_cycle _ _ _ _ _ _ _ _ Htools Hf Hpre Hstays Hlocal).
Qed.

Lemma android_leaves_the_file_system_as_found_witness :
  fs (snd (run envCrashing (runAndroidTest reqAndroid (queryOf reqAndroid)) world0)) =
  fs world0.
Proof.
  apply (android_leaves_the_file_system_as_found envCrashing world0 _ reqAndroid
           (queryOf reqAndroid)
           (fst (run envCrashing (runAndroidTest reqAndroid (queryOf reqAndroid)) world0))).
  - split; reflexivity.
  - intros name arg cwd m. cbn [tool envCrashing]. unfold crashingTests.
    destruct (String.eqb _ _); reflexivity.
  - apply surjective_pairing.
  - vm_compute. discriminate.
  - intros name e Hin. vm_compute in Hin.
    repeat (destruct Hin as [Hin|Hin]; [discriminate Hin|]). contradiction.
Defined.
